(** * Opponent pattern detection: a shallow embedding of the Python analysis
      scripts and the properties of their detectors.

    Conventions of the embedding.
    - A Python [str] is a [string]; moves and results are the strings the
      scripts compare against (['rock'], ['paper'], ['scissor'], ['loss'],
      ['win']), so tokens outside the move domain are ordinary inputs.
    - A Python [int] is a [Z].
    - A Python [float] is a rational [Q]. A quotient of two integers that the
      code only compares with a literal or with another such quotient is
      kept as the exact quotient, which the float rounds. Where the code
      computes with floats (adds, subtracts or multiplies them, or compares
      the outcome with a literal) the values are binary64 numbers and every
      operation rounds to the nearest of them, ties to even ([Float64]);
      overflow does not arise, the numbers being shares, rates and scores.
    - A Python [dict] whose iteration order is observed (by [max] or by a
      [for] loop over [items()]) is an association list in insertion order.
    - An exception is a value of [exn] carried by the [res] monad.
    - Library functions are taken at their documented meaning:
      [scipy.stats.binom_test] is the exact binomial tail, and [math.log2]
      is a parameter of the analysis that uses it. *)

From Stdlib Require Import List String Ascii Bool ZArith QArith Qabs Qminmax Qround Qpower Lia Lqa.
Import ListNotations.

Local Open Scope string_scope.
Local Open Scope Z_scope.

(** ** Exceptions *)

Inductive exn : Type :=
| KeyError (key : string)
| ValueError.

Inductive res (A : Type) : Type :=
| Ok (a : A)
| Raise (e : exn).

Arguments Ok {A} a.
Arguments Raise {A} e.

Definition bind {A B : Type} (r : res A) (k : A -> res B) : res B :=
  match r with
  | Ok a => k a
  | Raise e => Raise e
  end.

Notation "x <- r ;; k" := (bind r (fun x => k))
  (at level 61, r at next level, right associativity).

(** ** Numbers *)

Definition len {A : Type} (l : list A) : Z := Z.of_nat (List.length l).

Definition Qltb (x y : Q) : bool :=
  (Qnum x * QDen y <? Qnum y * QDen x)%Z.

Definition Qgtb (x y : Q) : bool := Qltb y x.

(** [int / int] and [int / float], true division. *)
Definition fdiv (a b : Z) : Q := (inject_Z a / inject_Z b)%Q.

(** Python's [min(a, b)]: [a] unless [b < a]. *)
Definition py_min (a b : Q) : Q := if Qltb b a then b else a.

(** ** Binary64 floats

    A float is the rational number it holds. [of_Q] rounds a rational to
    the nearest binary64 number, ties to even: 53 significant bits in the
    binade of the number, the exponent not below that of the subnormals.
    An exact quotient that stands for a float is rounded by [of_Q] before
    it enters an operation. *)

Module Float64.

Definition pow2 (k : Z) : Q := (2 ^ k)%Q.

(** The [e] with [2^e <= q < 2^(e+1)], for a positive [q]. *)
Definition binade (q : Q) : Z :=
  let e0 := Z.log2 (Qnum q) - Z.log2 (QDen q) in
  if Qltb q (pow2 e0) then e0 - 1 else e0.

(** The nearest integer, the even one of two that are equally near. *)
Definition nearest_even (x : Q) : Z :=
  let f := Qfloor x in
  let r := (x - inject_Z f)%Q in
  if Qltb r (1 # 2) then f
  else if Qltb (1 # 2) r then f + 1
  else if Z.even f then f else f + 1.

Definition EMIN : Z := -1022.

Definition round_pos (q : Q) : Q :=
  let e := Z.max (binade q) EMIN - 52 in
  (inject_Z (nearest_even (q / pow2 e)) * pow2 e)%Q.

(** [float(q)]: the binary64 number nearest to [q]. *)
Definition of_Q (q : Q) : Q :=
  Qred (if Qltb 0 q then round_pos q
        else if Qltb q 0 then (- round_pos (- q))%Q
        else 0%Q).

(** The operations, on floats: the exact result, rounded. *)
Definition add (x y : Q) : Q := of_Q (x + y).
Definition sub (x y : Q) : Q := of_Q (x - y).
Definition mul (x y : Q) : Q := of_Q (x * y).
Definition div (x y : Q) : Q := of_Q (x / y).

(** [float(z)] of an integer, as in an operation of an integer and a
    float. *)
Definition of_Z (z : Z) : Q := of_Q (inject_Z z).

(** [a / b] on integers: the quotient, rounded once. *)
Definition ratio (a b : Z) : Q := of_Q (inject_Z a / inject_Z b).

(** The built-in [sum] of floats, which adds them to the integer 0 from
    left to right. *)
Definition sum (l : list Q) : Q :=
  match l with
  | [] => 0%Q
  | x :: l' => fold_left add l' x
  end.

End Float64.

(** ** Reference counts

    The number of occurrences of a token in a list, against which the
    dictionary-based counting loops are compared. *)

Definition count_token (k : string) (l : list string) : Z :=
  Z.of_nat (count_occ string_dec l k).

(** ** Dictionaries in insertion order *)

Module Dict.

Definition t (V : Type) : Type := list (string * V).

Fixpoint get {V : Type} (d : t V) (k : string) : option V :=
  match d with
  | [] => None
  | (k', v) :: d' => if String.eqb k' k then Some v else get d' k
  end.

(** [d[k] = v]: an existing key keeps its position, a new key goes last. *)
Fixpoint set {V : Type} (d : t V) (k : string) (v : V) : t V :=
  match d with
  | [] => [(k, v)]
  | (k', v') :: d' =>
      if String.eqb k' k then (k', v) :: d' else (k', v') :: set d' k v
  end.

(** [d.get(k, 0)]. *)
Definition get0 (d : t Z) (k : string) : Z :=
  match get d k with
  | Some v => v
  | None => 0
  end.

(** [d[k] = d.get(k, 0) + 1], and [d[k] += 1] on a [defaultdict(int)]. *)
Definition incr (d : t Z) (k : string) : t Z := set d k (get0 d k + 1).

(** [d[k]] on a [defaultdict(int)]: a missing key is inserted with 0. *)
Definition getitem_default (d : t Z) (k : string) : Z * t Z :=
  match get d k with
  | Some v => (v, d)
  | None => (0, set d k 0)
  end.

Definition keys {V : Type} (d : t V) : list string := map fst d.

(** [sum(d.values())]. *)
Definition sum_values (d : t Z) : Z :=
  fold_left (fun acc kv => acc + snd kv) d 0.

(** [sum(v for k, v in d.items() if test(k))]. *)
Definition sum_where (test : string -> bool) (d : t Z) : Z :=
  fold_left (fun acc kv => if test (fst kv) then acc + snd kv else acc) d 0.

(** Entries whose count is zero, as reading a [defaultdict(int)] adds. *)
Definition zero_entries (z : t Z) : Prop := Forall (fun kv => snd kv = 0) z.

Fixpoint max_from (best : string * Z) (d : t Z) : string * Z :=
  match d with
  | [] => best
  | kv :: d' => max_from (if snd best <? snd kv then kv else best) d'
  end.

(** [max(d.items(), key=lambda x: x[1])]: the first item of maximal value;
    [ValueError] on an empty dictionary. *)
Definition max_item (d : t Z) : res (string * Z) :=
  match d with
  | [] => Raise ValueError
  | kv :: d' => Ok (max_from kv d')
  end.

End Dict.

(** ** Moves

    The lookup tables the scripts index with a move; indexing with any other
    string raises [KeyError]. *)

(** [{'rock': 'paper', 'paper': 'scissor', 'scissor': 'rock'}[k]]. *)
Definition counter_map (k : string) : res string :=
  if String.eqb k "rock" then Ok "paper"
  else if String.eqb k "paper" then Ok "scissor"
  else if String.eqb k "scissor" then Ok "rock"
  else Raise (KeyError k).

(** [{'rock': 'scissor', 'paper': 'rock', 'scissor': 'paper'}[k]]. *)
Definition opposite_map (k : string) : res string :=
  if String.eqb k "rock" then Ok "scissor"
  else if String.eqb k "paper" then Ok "rock"
  else if String.eqb k "scissor" then Ok "paper"
  else Raise (KeyError k).

(** Membership in the move domain. *)
Definition valid_move (m : string) : bool :=
  String.eqb m "rock" || String.eqb m "paper" || String.eqb m "scissor".

(** A row of the battle table: [(turn, player_move, enemy_move, result)]. *)
Record row : Type :=
  { turn : Z; player_move : string; enemy_move : string; result : string }.


(** [for i in range(1, len(battles))] over [battles[i-1]] and [battles[i]],
    threading a state through a body that may raise. *)
Fixpoint fold_adjacent {S : Type} (body : S -> row -> row -> res S)
    (prev : row) (rest : list row) (st : S) : res S :=
  match rest with
  | [] => Ok st
  | cur :: rest' =>
      st' <- body st prev cur ;;
      fold_adjacent body cur rest' st'
  end.

Definition for_adjacent {S : Type} (body : S -> row -> row -> res S)
    (battles : list row) (st : S) : res S :=
  match battles with
  | [] => Ok st
  | prev :: rest => fold_adjacent body prev rest st
  end.

(** ** Move distributions ([get_distribution])

    The result dictionary has the keys rock, paper and scissor, in this
    order. *)

Record distribution : Type := { rock : Q; paper : Q; scissor : Q }.

Definition distribution_sum (d : distribution) : Q :=
  (rock d + paper d + scissor d)%Q.

(** Tokens of the move domain in a list. *)
Definition valid_count (moves : list string) : Z :=
  count_token "rock" moves + count_token "paper" moves
  + count_token "scissor" moves.

(** [Counter(moves)] read at the three move keys, over [len(moves)]. *)
Definition frequencies (moves : list string) : distribution :=
  let total := len moves in
  {| rock := fdiv (count_token "rock" moves) total;
     paper := fdiv (count_token "paper" moves) total;
     scissor := fdiv (count_token "scissor" moves) total |}.

Module Patterns.

(** [get_distribution] of [analyze_enemy_patterns.py]. *)
Definition get_distribution (moves : list string) : distribution :=
  match moves with
  | [] => {| rock := 33 # 100; paper := 33 # 100; scissor := 34 # 100 |}
  | _ :: _ => frequencies moves
  end.

End Patterns.

(** ** The significance-gated detector ([RobustDetector]) *)

Module Robust.

Record battle : Type := { our_move : string; enemy_move : string }.

Inductive detection : Type :=
| Bias (move : string) (confidence : Q) (detected_at : Z)
| Counter (rate : Q) (confidence : Q) (detected_at : Z)
| Copier (rate : Q) (confidence : Q) (detected_at : Z).

Definition MIN_SAMPLES : Z := 15.
Definition SIGNIFICANCE : Q := 5 # 100.
Definition CHI_CRITICAL : Q := 5991 # 1000.
Definition EFFECT_FLOOR : Q := 45 # 100.
Definition BIAS_CAP : Q := 9 # 10.
Definition REACTIVE_CONFIDENCE : Q := 7 # 10.

(** The counting loop over [b['enemy_move']]. *)
Definition move_counts (battles : list battle) : Dict.t Z :=
  fold_left (fun counts b => Dict.incr counts (enemy_move b)) battles [].

Definition chi_term (c : Z) (expected : Q) : Q :=
  ((inject_Z c - expected) ^ 2 / expected)%Q.

(** [sum((counts[m] - expected)**2 / expected for m in [rock, paper,
    scissor])]; reading [counts[m]] inserts the key when it is missing. *)
Definition chi_square (counts : Dict.t Z) (expected : Q) : Q * Dict.t Z :=
  let '(cr, counts1) := Dict.getitem_default counts "rock" in
  let '(cp, counts2) := Dict.getitem_default counts1 "paper" in
  let '(cs, counts3) := Dict.getitem_default counts2 "scissor" in
  ((0 + chi_term cr expected + chi_term cp expected + chi_term cs expected)%Q,
   counts3).

(** ** [scipy.stats.binom_test(x, n, p, alternative='greater')]

    The library function is not part of the repository; it is taken at its
    documented meaning, the exact upper tail P(X >= x) of a binomial(n, p)
    variable. *)

Fixpoint pascal_next (row : list Z) (left : Z) : list Z :=
  match row with
  | [] => [left]
  | c :: row' => (left + c) :: pascal_next row' c
  end.

Fixpoint pascal_row (n : nat) : list Z :=
  match n with
  | O => [1]
  | S n' => pascal_next (pascal_row n') 0
  end.

Definition choose (n k : nat) : Z := nth k (pascal_row n) 0.

Definition binom_pmf (n : nat) (p : Q) (k : nat) : Q :=
  (inject_Z (choose n k) * p ^ Z.of_nat k * (1 - p) ^ Z.of_nat (n - k))%Q.

Fixpoint sum_pmf (n : nat) (p : Q) (from count : nat) : Q :=
  match count with
  | O => 0%Q
  | S count' => (binom_pmf n p from + sum_pmf n p (S from) count')%Q
  end.

Definition binom_test_greater (x n : Z) (p : Q) : Q :=
  sum_pmf (Z.to_nat n) p (Z.to_nat x) (Z.to_nat (n - x + 1)).

(** The loop [for i in range(1, len(battles))] over adjacent battles. *)
Fixpoint reactive_counts (prev : battle) (rest : list battle)
    (counter_count copy_count : Z) : res (Z * Z) :=
  match rest with
  | [] => Ok (counter_count, copy_count)
  | cur :: rest' =>
      c <- counter_map (our_move prev) ;;
      let counter_count' :=
        if String.eqb (enemy_move cur) c then counter_count + 1
        else counter_count in
      let copy_count' :=
        if String.eqb (enemy_move cur) (our_move prev) then copy_count + 1
        else copy_count in
      reactive_counts cur rest' counter_count' copy_count'
  end.

Definition transition_counts (battles : list battle) : res (Z * Z) :=
  match battles with
  | [] => Ok (0, 0)
  | b :: rest => reactive_counts b rest 0 0
  end.

(** The bias branch, up to its [return]: [Ok None] means the branch falls
    through to the reactive test. *)
Definition bias_test (battles : list battle) : res (option detection) :=
  let counts := move_counts battles in
  let total := len battles in
  let expected := fdiv total 3 in
  let '(chi, counts') := chi_square counts expected in
  if Qgtb chi CHI_CRITICAL then
    item <- Dict.max_item counts' ;;
    let dominant := fst item in
    let '(cd, _) := Dict.getitem_default counts' dominant in
    if Qgtb (fdiv cd total) EFFECT_FLOOR then
      Ok (Some (Bias dominant (py_min BIAS_CAP (fdiv cd total)) total))
    else Ok None
  else Ok None.

Definition reactive_test (battles : list battle) : res (option detection) :=
  if 20 <=? len battles then
    cc <- transition_counts battles ;;
    let '(counter_count, copy_count) := cc in
    let n := len battles - 1 in
    let expected := fdiv n 3 in
    if Qgtb (inject_Z counter_count) expected
       && Qltb (binom_test_greater counter_count n (1 # 3)) SIGNIFICANCE
    then Ok (Some (Counter (fdiv counter_count n) REACTIVE_CONFIDENCE
                           (len battles)))
    else if Qgtb (inject_Z copy_count) expected
       && Qltb (binom_test_greater copy_count n (1 # 3)) SIGNIFICANCE
    then Ok (Some (Copier (fdiv copy_count n) REACTIVE_CONFIDENCE
                          (len battles)))
    else Ok None
  else Ok None.

Definition detect_pattern (battles : list battle) : res (option detection) :=
  if len battles <? MIN_SAMPLES then Ok None
  else
    b <- bias_test battles ;;
    match b with
    | Some d => Ok (Some d)
    | None => reactive_test battles
    end.

(** The dictionary as the chi-square sum leaves it. *)
Definition counted (battles : list battle) : Dict.t Z :=
  snd (chi_square (move_counts battles) (fdiv (len battles) 3)).

(** ** Reference statistics

    The quantities the bias test is described with, written over plain
    occurrence counts instead of the counting dictionary: the observed
    count of a token among the enemy moves, and the goodness-of-fit
    statistic of the three move counts against the uniform expectation. *)

Definition observed (m : string) (battles : list battle) : Z :=
  count_token m (map enemy_move battles).

Definition share (m : string) (battles : list battle) : Q :=
  fdiv (observed m battles) (len battles).

Definition chi_square_statistic (battles : list battle) : Q :=
  let expected := fdiv (len battles) 3 in
  (0 + chi_term (observed "rock" battles) expected
     + chi_term (observed "paper" battles) expected
     + chi_term (observed "scissor" battles) expected)%Q.

(** A token is dominant when no token occurs more often. *)
Definition is_dominant (m : string) (battles : list battle) : Prop :=
  forall k, observed k battles <= observed m battles.

(** The one-sided binomial gate of the reactive signals. *)
Definition p_value (count n : Z) : Q := binom_test_greater count n (1 # 3).

Definition gate (count n : Z) : bool :=
  Qgtb (inject_Z count) (fdiv n 3) && Qltb (p_value count n) SIGNIFICANCE.

(** A battle list produced by an opponent that plays [m] on every turn. *)
Definition fixed_opponent (m : string) (battles : list battle) : Prop :=
  Forall (fun b => enemy_move b = m) battles.

(** Example battle lists. *)
Definition all_lizard (n : nat) : list battle :=
  repeat {| our_move := "rock"; enemy_move := "lizard" |} n.

Definition all_rock (n : nat) : list battle :=
  repeat {| our_move := "scissor"; enemy_move := "rock" |} n.

(** The enemy plays the counter of our previous move while all three of
    its moves stay equally frequent. *)
Definition countered_cycle : list battle :=
  let cycle := [ {| our_move := "rock"; enemy_move := "rock" |};
                 {| our_move := "paper"; enemy_move := "paper" |};
                 {| our_move := "scissor"; enemy_move := "scissor" |} ] in
  (cycle ++ cycle ++ cycle ++ cycle ++ cycle ++ cycle ++ cycle)%list.

(** Twenty battles with evenly spread enemy moves against an observer move
    outside the move domain. *)
Definition spock_cycle : list battle :=
  let cycle := [ {| our_move := "spock"; enemy_move := "rock" |};
                 {| our_move := "spock"; enemy_move := "paper" |};
                 {| our_move := "spock"; enemy_move := "scissor" |} ] in
  (cycle ++ cycle ++ cycle ++ cycle ++ cycle ++ cycle
   ++ [ {| our_move := "spock"; enemy_move := "rock" |};
        {| our_move := "spock"; enemy_move := "paper" |} ])%list.

(** Twenty battles with evenly spread enemy moves in which the enemy plays
    the counter of our previous move in 10 of the 19 transitions and the
    move that loses to it in the other 9. *)
Definition half_countered : list battle :=
  map (fun oe => {| our_move := fst oe; enemy_move := snd oe |})
    [("rock", "rock"); ("paper", "paper"); ("scissor", "scissor");
     ("rock", "rock"); ("paper", "paper"); ("scissor", "scissor");
     ("rock", "rock"); ("paper", "paper"); ("scissor", "scissor");
     ("rock", "rock"); ("rock", "paper"); ("paper", "scissor");
     ("scissor", "rock"); ("rock", "paper"); ("paper", "scissor");
     ("scissor", "rock"); ("rock", "paper"); ("paper", "scissor");
     ("scissor", "rock"); ("rock", "paper")].

End Robust.

(** ** Markov-order detectors ([detect_markov_1], [detect_markov_3])

    A battle is the dictionary [{'move': m}]; the list of battles is the list
    of its moves. The detectors return a formatted message; the embedding
    returns the values the message is formatted from. *)

Module Markov.

(** [f"{prev}->{curr}"]. *)
Definition transition_key (prev curr : string) : string :=
  prev ++ "->" ++ curr.

(** [f"{a}-{b}-{c}"]. *)
Definition context_key (a b c : string) : string :=
  a ++ "-" ++ b ++ "-" ++ c.

(** [s.split('->')[0]]: the part of [s] before the first ["->"]. *)
Fixpoint split_head (s : string) : string :=
  match s with
  | EmptyString => EmptyString
  | String c s' =>
      if String.prefix "->" s then EmptyString else String c (split_head s')
  end.

(** [for i in range(1, len(battles))], counting [prev->curr]. *)
Fixpoint count_transitions (prev : string) (rest : list string)
    (transitions : Dict.t Z) : Dict.t Z :=
  match rest with
  | [] => transitions
  | curr :: rest' =>
      count_transitions curr rest'
        (Dict.incr transitions (transition_key prev curr))
  end.

Definition transitions_of (battles : list string) : Dict.t Z :=
  match battles with
  | [] => []
  | prev :: rest => count_transitions prev rest []
  end.

Record markov1_report : Type :=
  { transition : string; occurrences : Z; total_transitions : Z }.

Definition MARKOV1_THRESHOLD : Q := 4 # 10.
Definition MARKOV3_THRESHOLD : Q := 6 # 10.
Definition MIN_CONTEXT : Z := 5.

Definition detect_markov_1 (battles : list string)
  : res (option markov1_report) :=
  if len battles <? 10 then Ok None
  else
    let transitions := transitions_of battles in
    best_transition <- Dict.max_item transitions ;;
    let total := Dict.sum_values transitions in
    if Qgtb (fdiv (snd best_transition) total) MARKOV1_THRESHOLD then
      Ok (Some {| transition := fst best_transition;
                  occurrences := snd best_transition;
                  total_transitions := total |})
    else Ok None.

(** [for i in range(3, len(battles))], counting [a-b-c->next]. *)
Fixpoint count_patterns (a b c : string) (rest : list string)
    (patterns : Dict.t Z) : Dict.t Z :=
  match rest with
  | [] => patterns
  | next_move :: rest' =>
      count_patterns b c next_move rest'
        (Dict.incr patterns
           (transition_key (context_key a b c) next_move))
  end.

Definition patterns_of (battles : list string) : Dict.t Z :=
  match battles with
  | a :: b :: c :: rest => count_patterns a b c rest []
  | _ => []
  end.

(** [sum(c for p, c in patterns.items() if p.startswith(context))]. *)
Definition context_total (patterns : Dict.t Z) (context : string) : Z :=
  Dict.sum_where (String.prefix context) patterns.

(** One iteration of [for pattern, count in patterns.items()], on the
    state [(best_pattern, best_ratio)]. *)
Definition scan_pattern (patterns : Dict.t Z) (best : option string * Q)
    (item : string * Z) : option string * Q :=
  let context := split_head (fst item) in
  let total := context_total patterns context in
  if MIN_CONTEXT <=? total then
    let ratio := fdiv (snd item) total in
    if Qgtb ratio (snd best) then (Some (fst item), ratio) else best
  else best.

Definition best_pattern_of (patterns : Dict.t Z) : option string * Q :=
  fold_left (scan_pattern patterns) patterns (None, 0%Q).

Definition detect_markov_3 (battles : list string)
  : option (option string * Q) :=
  if len battles <? 30 then None
  else
    let '(best_pattern, best_ratio) := best_pattern_of (patterns_of battles) in
    if Qgtb best_ratio MARKOV3_THRESHOLD then Some (best_pattern, best_ratio)
    else None.

(** ** Reference counts

    The adjacent pairs and the four-move windows of a sequence, and the
    number of times a pair, a context or a window occurs among them. *)

Fixpoint pairs_from (prev : string) (rest : list string)
  : list (string * string) :=
  match rest with
  | [] => []
  | curr :: rest' => (prev, curr) :: pairs_from curr rest'
  end.

Definition pairs_of (battles : list string) : list (string * string) :=
  match battles with
  | [] => []
  | prev :: rest => pairs_from prev rest
  end.

Definition gram : Type := (string * string * string * string)%type.

Fixpoint grams_from (a b c : string) (rest : list string) : list gram :=
  match rest with
  | [] => []
  | d :: rest' => (a, b, c, d) :: grams_from b c d rest'
  end.

Definition grams_of (battles : list string) : list gram :=
  match battles with
  | a :: b :: c :: rest => grams_from a b c rest
  | _ => []
  end.

Definition pair_key (p : string * string) : string :=
  transition_key (fst p) (snd p).

Definition gram_key (g : gram) : string :=
  let '(a, b, c, d) := g in transition_key (context_key a b c) d.

Definition same_pair (p q : string * string) : bool :=
  String.eqb (fst p) (fst q) && String.eqb (snd p) (snd q).

Definition same_context (g h : gram) : bool :=
  let '(a, b, c, _) := g in
  let '(a', b', c', _) := h in
  String.eqb a a' && String.eqb b b' && String.eqb c c'.

Definition same_gram (g h : gram) : bool :=
  same_context g h && String.eqb (snd g) (snd h).

(** Occurrences of [prev] followed by [curr]. *)
Definition pair_count (p : string * string) (battles : list string) : Z :=
  len (filter (same_pair p) (pairs_of battles)).

(** Occurrences of [context] as the first move of a transition. *)
Definition context_count (context : string) (battles : list string) : Z :=
  len (filter (fun q => String.eqb context (fst q)) (pairs_of battles)).

(** Occurrences of a four-move window, and of its three-move context. *)
Definition gram_count (g : gram) (battles : list string) : Z :=
  len (filter (same_gram g) (grams_of battles)).

Definition gram_support (g : gram) (battles : list string) : Z :=
  len (filter (same_context g) (grams_of battles)).

Definition gram_ratio (g : gram) (battles : list string) : Q :=
  fdiv (gram_count g battles) (gram_support g battles).

Definition moves_valid (battles : list string) : Prop :=
  Forall (fun m => valid_move m = true) battles.

Definition valid_pair (p : string * string) : bool :=
  valid_move (fst p) && valid_move (snd p).

Definition valid_gram (g : gram) : bool :=
  let '(a, b, c, d) := g in
  valid_move a && valid_move b && valid_move c && valid_move d.

(** The conditional ratio of a stored 4-gram and the support of its
    context, as the scan of [detect_markov_3] computes them. *)
Definition support (patterns : Dict.t Z) (item : string * Z) : Z :=
  context_total patterns (split_head (fst item)).

Definition ratio (patterns : Dict.t Z) (item : string * Z) : Q :=
  fdiv (snd item) (support patterns item).

Definition eligible (patterns : Dict.t Z) (item : string * Z) : Prop :=
  In item patterns /\ MIN_CONTEXT <= support patterns item.

(** Ten moves in which rock is followed by paper four times. *)
Definition rock_paper_10 : list string :=
  ["rock"; "paper"; "rock"; "paper"; "rock"; "paper"; "rock"; "paper";
   "scissor"; "scissor"].

(** Thirteen moves: rock is followed by paper five times out of seven,
    paper by rock five times out of five. *)
Definition rock_paper_13 : list string :=
  ["rock"; "paper"; "rock"; "paper"; "rock"; "paper"; "rock"; "paper";
   "rock"; "paper"; "rock"; "rock"; "rock"].

(** Thirty moves of the cycle rock, paper, scissor. *)
Definition cycle_30 : list string :=
  let rps := ["rock"; "paper"; "scissor"] in
  (rps ++ rps ++ rps ++ rps ++ rps ++ rps ++ rps ++ rps ++ rps ++ rps)%list.

End Markov.

(** ** Reactive analysis per enemy ([deeper_reactive_analysis.main])

    The body of the loop over enemies, as a function of one enemy's battles.
    The tally of three-move sequences and the reactive score built from the
    rates are left out. *)

Module DeeperReactive.

Record tally : Type :=
  { counter_count : Z; copy_count : Z; opposite_count : Z;
    repeat_after_loss : Z; switch_after_loss : Z; total_losses : Z;
    repeat_after_win : Z; switch_after_win : Z; total_wins : Z }.

Definition empty_tally : tally :=
  {| counter_count := 0; copy_count := 0; opposite_count := 0;
     repeat_after_loss := 0; switch_after_loss := 0; total_losses := 0;
     repeat_after_win := 0; switch_after_win := 0; total_wins := 0 |}.

(** The three-way [if / elif / elif] on the enemy's current move. *)
Definition react (t : tally) (our_prev enemy_curr : string) : res tally :=
  c <- counter_map our_prev ;;
  if String.eqb enemy_curr c then
    Ok {| counter_count := counter_count t + 1; copy_count := copy_count t;
          opposite_count := opposite_count t;
          repeat_after_loss := repeat_after_loss t;
          switch_after_loss := switch_after_loss t;
          total_losses := total_losses t;
          repeat_after_win := repeat_after_win t;
          switch_after_win := switch_after_win t;
          total_wins := total_wins t |}
  else if String.eqb enemy_curr our_prev then
    Ok {| counter_count := counter_count t; copy_count := copy_count t + 1;
          opposite_count := opposite_count t;
          repeat_after_loss := repeat_after_loss t;
          switch_after_loss := switch_after_loss t;
          total_losses := total_losses t;
          repeat_after_win := repeat_after_win t;
          switch_after_win := switch_after_win t;
          total_wins := total_wins t |}
  else
    o <- opposite_map our_prev ;;
    if String.eqb enemy_curr o then
      Ok {| counter_count := counter_count t; copy_count := copy_count t;
            opposite_count := opposite_count t + 1;
            repeat_after_loss := repeat_after_loss t;
            switch_after_loss := switch_after_loss t;
            total_losses := total_losses t;
            repeat_after_win := repeat_after_win t;
            switch_after_win := switch_after_win t;
            total_wins := total_wins t |}
    else Ok t.

(** The [if / elif] on the previous result. *)
Definition after_result (t : tally) (prev_result enemy_prev enemy_curr : string)
  : tally :=
  if String.eqb prev_result "loss" then
    {| counter_count := counter_count t; copy_count := copy_count t;
       opposite_count := opposite_count t;
       repeat_after_loss :=
         if String.eqb enemy_curr enemy_prev then repeat_after_loss t + 1
         else repeat_after_loss t;
       switch_after_loss :=
         if String.eqb enemy_curr enemy_prev then switch_after_loss t
         else switch_after_loss t + 1;
       total_losses := total_losses t + 1;
       repeat_after_win := repeat_after_win t;
       switch_after_win := switch_after_win t;
       total_wins := total_wins t |}
  else if String.eqb prev_result "win" then
    {| counter_count := counter_count t; copy_count := copy_count t;
       opposite_count := opposite_count t;
       repeat_after_loss := repeat_after_loss t;
       switch_after_loss := switch_after_loss t;
       total_losses := total_losses t;
       repeat_after_win :=
         if String.eqb enemy_curr enemy_prev then repeat_after_win t + 1
         else repeat_after_win t;
       switch_after_win :=
         if String.eqb enemy_curr enemy_prev then switch_after_win t
         else switch_after_win t + 1;
       total_wins := total_wins t + 1 |}
  else t.

Definition body (t : tally) (prev_turn curr_turn : row) : res tally :=
  t' <- react t (player_move prev_turn) (enemy_move curr_turn) ;;
  Ok (after_result t' (result prev_turn) (enemy_move prev_turn)
        (enemy_move curr_turn)).

Definition tally_of (battles : list row) : res tally :=
  for_adjacent body battles empty_tally.

(** [count / total if total > 0 else 0]: a float. *)
Definition rate (count total : Z) : Q :=
  if 0 <? total then Float64.ratio count total else 0%Q.

Record evidence : Type :=
  { counter_rate : Q; copy_rate : Q; opposite_rate : Q;
    repeat_loss_rate : Q; switch_loss_rate : Q;
    repeat_win_rate : Q; switch_win_rate : Q }.

(** The rates computed after the loop. *)
Definition rates_of (battles : list row) : res evidence :=
  t <- tally_of battles ;;
  let total_transitions := len battles - 1 in
  Ok {| counter_rate := rate (counter_count t) total_transitions;
        copy_rate := rate (copy_count t) total_transitions;
        opposite_rate := rate (opposite_count t) total_transitions;
        repeat_loss_rate := rate (repeat_after_loss t) (total_losses t);
        switch_loss_rate := rate (switch_after_loss t) (total_losses t);
        repeat_win_rate := rate (repeat_after_win t) (total_wins t);
        switch_win_rate := rate (switch_after_win t) (total_wins t) |}.

(** The first query keeps the enemies [HAVING battles >= 20], counting
    the rows that the second query fetches for the enemy. *)
Definition MIN_ROWS : Z := 20.

(** One enemy: not among the enemies of the first query below 20 battles,
    skipped ([continue]) below 10. *)
Definition analyze (battles : list row) : res (option evidence) :=
  if len battles <? MIN_ROWS then Ok None
  else if len battles <? 10 then Ok None
  else e <- rates_of battles ;; Ok (Some e).



Definition our_moves_valid (battles : list row) : Prop :=
  Forall (fun b => valid_move (player_move b) = true) battles.



(** Twenty-nine battles in which we always play rock: the enemy answers
    with paper 9 times, with rock 18 times and with scissor once. *)
Definition nine_eighteen_one : list row :=
  let answer m := {| turn := 1; player_move := "rock"; enemy_move := m;
                     result := "tie" |} in
  (answer "rock" :: repeat (answer "paper") 9 ++ repeat (answer "rock") 18
   ++ [answer "scissor"])%list.

End DeeperReactive.

(** ** Adaptation analysis ([analyze_enemy_behavior.py]) *)

Module Behavior.

(** [get_distribution] of [analyze_enemy_behavior.py]. *)
Definition get_distribution (moves : list string) : distribution :=
  match moves with
  | [] => {| rock := 333 # 1000; paper := 333 # 1000; scissor := 334 # 1000 |}
  | _ :: _ => frequencies moves
  end.

(** A reactive pattern tag; the rate stands for its formatted percentage. *)
Inductive pattern : Type :=
| CountersOurMoves (rate : Q)
| CopiesOurMoves (rate : Q)
| AfterLoss (reaction : string) (rate : Q).

(** The dictionary returned by [detect_reaction_patterns]; the two rates
    are absent from the one returned for fewer than 10 battles. *)
Record reaction_analysis : Type :=
  { reactive : bool; patterns : list pattern;
    counter_rate : option Q; copy_rate : option Q }.

(** First loop: counter and copy reactions to our previous move. *)
Definition reaction_body (st : Z * Z) (prev cur : row) : res (Z * Z) :=
  let '(counter_reactions, copy_reactions) := st in
  let our_prev := player_move prev in
  let enemy_curr := enemy_move cur in
  c <- counter_map our_prev ;;
  let counter_reactions' :=
    if String.eqb enemy_curr c then counter_reactions + 1
    else counter_reactions in
  let copy_reactions' :=
    if String.eqb enemy_curr our_prev then copy_reactions + 1
    else copy_reactions in
  Ok (counter_reactions', copy_reactions').

(** Second loop: what the enemy does after losing. *)
Definition loss_body (st : Dict.t Z * Z) (prev cur : row)
  : res (Dict.t Z * Z) :=
  let '(loss_reactions, total_losses) := st in
  if String.eqb (result prev) "loss" then
    let enemy_prev := enemy_move prev in
    let enemy_curr := enemy_move cur in
    c <- counter_map enemy_prev ;;
    if String.eqb enemy_curr c then
      Ok (Dict.incr loss_reactions "switches_to_counter", total_losses + 1)
    else if String.eqb enemy_curr enemy_prev then
      Ok (Dict.incr loss_reactions "repeats_move", total_losses + 1)
    else Ok (Dict.incr loss_reactions "random_switch", total_losses + 1)
  else Ok st.

Definition REACTION_THRESHOLD : Q := 4 # 10.

(** [for reaction, count in loss_reactions.items()]. *)
Definition loss_patterns (loss_reactions : Dict.t Z) (total_losses : Z)
  : list pattern :=
  flat_map
    (fun rc =>
       let rate := fdiv (snd rc) total_losses in
       if Qgtb rate REACTION_THRESHOLD then [AfterLoss (fst rc) rate] else [])
    loss_reactions.

Definition detect_reaction_patterns (battles : list row)
  : res reaction_analysis :=
  if len battles <? 10 then
    Ok {| reactive := false; patterns := [];
          counter_rate := None; copy_rate := None |}
  else
    cc <- for_adjacent reaction_body battles (0, 0) ;;
    let '(counter_reactions, copy_reactions) := cc in
    let reaction_rate := fdiv counter_reactions (len battles - 1) in
    let copy_rate := fdiv copy_reactions (len battles - 1) in
    let patterns1 :=
      if Qgtb reaction_rate REACTION_THRESHOLD
      then [CountersOurMoves reaction_rate] else [] in
    let patterns2 :=
      if Qgtb copy_rate REACTION_THRESHOLD
      then [CopiesOurMoves copy_rate] else [] in
    lt <- for_adjacent loss_body battles ([], 0) ;;
    let '(loss_reactions, total_losses) := lt in
    let patterns3 :=
      if 5 <? total_losses then loss_patterns loss_reactions total_losses
      else [] in
    let patterns := (patterns1 ++ patterns2 ++ patterns3)%list in
    Ok {| reactive := 0 <? len patterns; patterns := patterns;
          counter_rate := Some reaction_rate; copy_rate := Some copy_rate |}.

(** An adaptation sign; a rate stands for its formatted percentage. The
    classification searches the printed list of signs for the substrings
    [becoming_unpredictable] and [improving_performance], which occur in
    the sign of that name and in no other. *)
Inductive sign : Type :=
| MoveChanged (move : string) (increased : bool) (amount : Q)
| BecomingUnpredictable
| BecomingPredictable
| ImprovingPerformance
| DecliningPerformance
| ShiftedFrom (first_dominant last_dominant : string).

Definition is_becoming_unpredictable (s : sign) : bool :=
  match s with BecomingUnpredictable => true | _ => false end.

Definition is_improving_performance (s : sign) : bool :=
  match s with ImprovingPerformance => true | _ => false end.

Inductive adaptation_type : Type :=
| Stable | Reactive | DefensiveRandomization | Learning
| ActivelyAdapting | GraduallyShifting.

Record period_analysis : Type :=
  { period : Z; distribution_of : distribution; entropy : Q; win_rate : Q;
    dominant_move : string; battles_in : Z }.

Record report : Type :=
  { enemy_id : Z; total_battles : Z; periods : list period_analysis;
    adaptation_signs : list sign; adaptation : adaptation_type;
    reactive_patterns : list pattern;
    report_counter_rate : Q; report_copy_rate : Q }.

Inductive analysis : Type :=
| InsufficientData (enemy_id : Z) (total_battles : Z)
| Analysis (r : report).

(** [battles[i:i+size]] for [i] in [range(0, len(battles), size)]; the
    recursion is bounded by the length of the list. *)
Fixpoint chunks {A : Type} (fuel size : nat) (l : list A) : list (list A) :=
  match fuel with
  | O => []
  | S fuel' =>
      match l with
      | [] => []
      | _ :: _ => firstn size l :: chunks fuel' size (skipn size l)
      end
  end.

(** [max(dist.items(), key=lambda x: x[1])[0]]. *)
Definition dominant_of (dist : distribution) : string :=
  let best := ("rock", rock dist) in
  let best := if Qltb (snd best) (paper dist) then ("paper", paper dist)
              else best in
  let best := if Qltb (snd best) (scissor dist) then ("scissor", scissor dist)
              else best in
  fst best.

(** The literal [0.15]. *)
Definition DRIFT : Q := Float64.of_Q (15 # 100).

(** One round of [for move in ['rock', 'paper', 'scissor']], on the two
    entries of the distributions: the difference is one of floats. *)
Definition move_sign (move : string) (first_p last_p : Q) : list sign :=
  let change := Float64.sub (Float64.of_Q last_p) (Float64.of_Q first_p) in
  if Qgtb (Qabs change) DRIFT
  then [MoveChanged move (Qgtb change 0) (Qabs change)] else [].

Section WithLog2.

(** [math.log2]; the analysis is parametric in it. *)
Variable log2 : Q -> Q.

(** [math.log2] of a float, a float. *)
Definition flog2 (x : Q) : Q := Float64.of_Q (log2 x).

(** [entropy -= prob * math.log2(prob)] for an entry [prob > 0]. *)
Definition entropy_step (acc prob : Q) : Q :=
  let p := Float64.of_Q prob in
  if Qgtb p 0 then Float64.sub acc (Float64.mul p (flog2 p)) else acc.

Definition calculate_entropy (dist : distribution) : Q :=
  let e := entropy_step (entropy_step (entropy_step 0 (rock dist))
                           (paper dist)) (scissor dist) in
  Float64.div e (flog2 3).

Definition analyze_period (i : Z) (period_battles : list row)
  : period_analysis :=
  let dist := get_distribution (map enemy_move period_battles) in
  let results := map result period_battles in
  let enemy_wins := count_token "loss" results in
  {| period := i + 1;
     distribution_of := dist;
     entropy := calculate_entropy dist;
     win_rate := match results with
                 | [] => 0%Q
                 | _ :: _ => fdiv enemy_wins (len results)
                 end;
     dominant_move := dominant_of dist;
     battles_in := len period_battles |}.

Fixpoint analyze_periods (i : Z) (periods : list (list row))
  : list period_analysis :=
  match periods with
  | [] => []
  | p :: periods' => analyze_period i p :: analyze_periods (i + 1) periods'
  end.

Definition signs_between (first_p last_p : period_analysis) : list sign :=
  let first_dist := distribution_of first_p in
  let last_dist := distribution_of last_p in
  let moved :=
    (move_sign "rock" (rock first_dist) (rock last_dist)
     ++ move_sign "paper" (paper first_dist) (paper last_dist)
     ++ move_sign "scissor" (scissor first_dist) (scissor last_dist))%list in
  let entropy_change := Float64.sub (entropy last_p) (entropy first_p) in
  let by_entropy :=
    if Qgtb entropy_change DRIFT then [BecomingUnpredictable]
    else if Qltb entropy_change (- DRIFT) then [BecomingPredictable]
    else [] in
  let win_rate_change :=
    Float64.sub (Float64.of_Q (win_rate last_p))
                (Float64.of_Q (win_rate first_p)) in
  let by_win_rate :=
    if Qgtb win_rate_change DRIFT then [ImprovingPerformance]
    else if Qltb win_rate_change (- DRIFT) then [DecliningPerformance]
    else [] in
  let shifted :=
    if String.eqb (dominant_move first_p) (dominant_move last_p) then []
    else [ShiftedFrom (dominant_move first_p) (dominant_move last_p)] in
  (moved ++ by_entropy ++ by_win_rate ++ shifted)%list.

Definition signs_of (period_analyses : list period_analysis) : list sign :=
  match period_analyses with
  | first_p :: _ :: _ =>
      signs_between first_p (last period_analyses first_p)
  | _ => []
  end.

(** The [if / elif] chain that picks the adaptation type. *)
Definition classify (reaction : reaction_analysis) (signs : list sign)
  : adaptation_type :=
  if reactive reaction then Reactive
  else if existsb is_becoming_unpredictable signs
  then DefensiveRandomization
  else if existsb is_improving_performance signs && (2 <=? len signs)
  then Learning
  else if 3 <=? len signs then ActivelyAdapting
  else if 1 <=? len signs then GraduallyShifting
  else Stable.

Definition getitem (key : string) (field : option Q) : res Q :=
  match field with
  | Some v => Ok v
  | None => Raise (KeyError key)
  end.

Definition analyze_enemy_adaptation (id : Z) (battles : list row)
  : res analysis :=
  if len battles <? 15 then Ok (InsufficientData id (len battles))
  else
    let period_size := Z.max 10 (len battles / 4) in
    let periods :=
      chunks (List.length battles) (Z.to_nat period_size) battles in
    let period_analyses := analyze_periods 0 periods in
    let signs := signs_of period_analyses in
    reaction <- detect_reaction_patterns battles ;;
    let adaptation := classify reaction signs in
    cr <- getitem "counter_rate" (counter_rate reaction) ;;
    cp <- getitem "copy_rate" (copy_rate reaction) ;;
    Ok (Analysis
          {| enemy_id := id; total_battles := len battles;
             periods := period_analyses; adaptation_signs := signs;
             adaptation := adaptation;
             reactive_patterns := patterns reaction;
             report_counter_rate := cr; report_copy_rate := cp |}).

End WithLog2.


(** A stand-in for [math.log2] to run the analysis on examples: the
    piecewise-linear interpolation of the logarithm between consecutive
    powers of two. *)
Definition log2_linear (q : Q) : Q :=
  let k0 := Z.log2 (Qnum q) - Z.log2 (QDen q) in
  let k := if Qltb q (2 ^ k0) then k0 - 1 else k0 in
  (inject_Z k + (q / 2 ^ k - 1))%Q.


End Behavior.

(** ** The ungated detector ([OverfittedDetector]) *)

Module Overfitted.

Import Robust.

Definition MIN_BATTLES : Z := 5.
Definition BIAS_THRESHOLD : Q := 4 # 10.
Definition COUNTER_THRESHOLD : Q := 35 # 100.
Definition COUNTER_CONFIDENCE : Q := 8 # 10.

(** The loop [for i in range(1, len(battles))] counting counters only. *)
Fixpoint count_counters (prev : battle) (rest : list battle)
    (counter_count : Z) : res Z :=
  match rest with
  | [] => Ok counter_count
  | cur :: rest' =>
      c <- counter_map (our_move prev) ;;
      count_counters cur rest'
        (if String.eqb (enemy_move cur) c then counter_count + 1
         else counter_count)
  end.

Definition counter_transitions (battles : list battle) : res Z :=
  match battles with
  | [] => Ok 0
  | b :: rest => count_counters b rest 0
  end.

Definition detect_pattern (battles : list battle) : res (option detection) :=
  if len battles <? MIN_BATTLES then Ok None
  else
    let counts := move_counts battles in
    let total := len battles in
    item <- Dict.max_item counts ;;
    let dominant := fst item in
    let '(cd, _) := Dict.getitem_default counts dominant in
    if Qgtb (fdiv cd total) BIAS_THRESHOLD then
      Ok (Some (Bias dominant (fdiv cd total) total))
    else if 10 <=? len battles then
      counter_count <- counter_transitions battles ;;
      if Qgtb (fdiv counter_count (len battles - 1)) COUNTER_THRESHOLD then
        Ok (Some (Counter (fdiv counter_count (len battles - 1))
                          COUNTER_CONFIDENCE (len battles)))
      else Ok None
    else Ok None.

(** Our previous moves, the ones the counter loops look up: every move but
    the last. *)
Definition previous_moves_valid (battles : list battle) : Prop :=
  Forall (fun b => valid_move (our_move b) = true) (removelast battles).

End Overfitted.

(** ** Randomness

    The [random] module is a source of draws consumed in order: the i-th
    call is answered by the i-th draw, read as a float by [random.random()]
    and as a position by [random.choice]. A computation threads the number
    of draws consumed so far and may raise. *)

Record source : Type := { uniform : nat -> Q; position : nat -> nat }.

Definition rand (A : Type) : Type := nat -> res (A * nat).

Definition rret {A : Type} (a : A) : rand A := fun i => Ok (a, i).

Definition rbind {A B : Type} (r : rand A) (k : A -> rand B) : rand B :=
  fun i => match r i with
           | Ok (a, j) => k a j
           | Raise e => Raise e
           end.

Definition lift {A : Type} (r : res A) : rand A :=
  fun i => match r with
           | Ok a => Ok (a, i)
           | Raise e => Raise e
           end.

Notation "x <~ r ;; k" := (rbind r (fun x => k))
  (at level 61, r at next level, right associativity).

(** [random.random()]. *)
Definition random_random (src : source) : rand Q :=
  fun i => Ok (uniform src i, S i).

(** [random.choice(seq)] on the non-empty sequence [first :: others]. *)
Definition random_choice (src : source) (first : string)
    (others : list string) : rand string :=
  fun i => Ok (nth (position src i mod List.length (first :: others))
                   (first :: others) first, S i).

(** ** The detection simulation ([simulate_detection_effectiveness.py]) *)

Module Simulation.

(** An entry of [enemy_profiles], by its ['type']. *)
Inductive profile : Type :=
| Fixed (pattern : string)
| Counter (counter_rate : Q)
| Copier (copy_rate : Q)
| LossRepeater (repeat_rate : Q)
| Adaptive.

Definition get_counter (move : string) : res string := counter_map move.

Definition get_result (our_move enemy_move : string) : res string :=
  if String.eqb our_move enemy_move then Ok "tie"
  else
    c <- get_counter enemy_move ;;
    if String.eqb c our_move then Ok "win" else Ok "loss".

(** Truth value of a last move or result: [None] and the empty string are
    false. *)
Definition truthy (o : option string) : bool :=
  match o with
  | Some s => negb (String.eqb s "")
  | None => false
  end.

Definition is_result (o : option string) (r : string) : bool :=
  match o with
  | Some s => String.eqb s r
  | None => false
  end.

Definition the (o : option string) : string :=
  match o with
  | Some s => s
  | None => ""
  end.

Section WithSource.

Variable src : source.

(** [random.choice(moves)]. *)
Definition choose_move : rand string :=
  random_choice src "rock" ["paper"; "scissor"].

Definition simulate_enemy (p : profile)
    (our_last_move enemy_last_move last_result : option string)
    (battle_num : Z) : rand string :=
  match p with
  | Fixed pattern => rret pattern
  | Counter counter_rate =>
      if truthy our_last_move then
        r <~ random_random src ;;
        if Qltb r counter_rate then lift (get_counter (the our_last_move))
        else choose_move
      else choose_move
  | Copier copy_rate =>
      if truthy our_last_move then
        r <~ random_random src ;;
        if Qltb r copy_rate then rret (the our_last_move)
        else choose_move
      else choose_move
  | LossRepeater repeat_rate =>
      if is_result last_result "loss" && truthy enemy_last_move then
        r <~ random_random src ;;
        if Qltb r repeat_rate then rret (the enemy_last_move)
        else choose_move
      else choose_move
  | Adaptive => choose_move
  end.

Definition detection_system_move (p : profile)
    (our_last_move enemy_last_move last_result : option string)
    (detection_delay : Z) : rand string :=
  match p with
  | Fixed pattern =>
      if detection_delay <=? 3 then lift (get_counter pattern)
      else choose_move
  | Counter _ =>
      if detection_delay <=? 0 then
        if truthy our_last_move then
          lift (their_expected <- get_counter (the our_last_move) ;;
                get_counter their_expected)
        else choose_move
      else choose_move
  | Copier _ =>
      if detection_delay <=? 0 then
        if truthy our_last_move then lift (get_counter (the our_last_move))
        else choose_move
      else choose_move
  | LossRepeater _ =>
      if detection_delay <=? 0 then
        if is_result last_result "win" && truthy enemy_last_move
        then lift (get_counter (the enemy_last_move))
        else choose_move
      else choose_move
  | Adaptive => choose_move
  end.

(** The variables a simulation loop carries from battle to battle. *)
Record progress : Type :=
  { results : Dict.t Z; our_last : option string;
    enemy_last : option string; last_result : option string }.

Definition start : progress :=
  {| results := []; our_last := None; enemy_last := None;
     last_result := None |}.

Definition record_battle (st : progress) (our_move enemy_move : string)
  : rand progress :=
  result <~ lift (get_result our_move enemy_move) ;;
  rret {| results := Dict.incr (results st) result;
          our_last := Some our_move; enemy_last := Some enemy_move;
          last_result := Some result |}.

(** One battle of the loop without detection. *)
Definition battle_without (p : profile) (st : progress) (i : Z)
  : rand progress :=
  our_move <~ choose_move ;;
  enemy_move <~ simulate_enemy p (our_last st) (enemy_last st)
                  (last_result st) i ;;
  record_battle st our_move enemy_move.

(** One battle of the loop with detection. *)
Definition battle_with (p : profile) (st : progress) (i : Z)
  : rand progress :=
  let detection_delay := Z.max 0 (10 - i) in
  our_move <~ detection_system_move p (our_last st) (enemy_last st)
                (last_result st) detection_delay ;;
  enemy_move <~ simulate_enemy p (our_last st) (enemy_last st)
                  (last_result st) i ;;
  record_battle st our_move enemy_move.

(** [for i in range(...)], with [count] iterations left from [i] on. *)
Fixpoint battles_from (body : progress -> Z -> rand progress)
    (count : nat) (i : Z) (st : progress) : rand progress :=
  match count with
  | O => rret st
  | S count' =>
      st' <~ body st i ;;
      battles_from body count' (i + 1) st'
  end.

Definition simulate_battles (p : profile) (num_battles : Z)
  : rand (Dict.t Z * Dict.t Z) :=
  without <~ battles_from (battle_without p) (Z.to_nat num_battles) 0 start ;;
  with_detection <~
    battles_from (battle_with p) (Z.to_nat num_battles) 0 start ;;
  rret (results without, results with_detection).

End WithSource.

(** What [calculate_survival_rate] returns: the number 0 when there is no
    result, the pair of percentages otherwise. *)
Inductive survival : Type :=
| Zero
| Rates (survival_rate weighted_score : Q).

(** The literal [1.3]. *)
Definition WIN_WEIGHT : Q := Float64.of_Q (13 # 10).

Definition calculate_survival_rate (results : Dict.t Z) : survival :=
  let '(wins, results1) := Dict.getitem_default results "win" in
  let '(ties, results2) := Dict.getitem_default results1 "tie" in
  let total := Dict.sum_values results2 in
  if total =? 0 then Zero
  else
    let survival := Float64.ratio (wins + ties) total in
    let weighted_score :=
      Float64.div
        (Float64.add (Float64.mul (Float64.of_Z wins) WIN_WEIGHT)
                     (Float64.mul (Float64.of_Z ties) 1))
        (Float64.mul (Float64.of_Z total) WIN_WEIGHT) in
    Rates (Float64.mul survival 100) (Float64.mul weighted_score 100).

Definition valid_profile (p : profile) : bool :=
  match p with
  | Fixed pattern => valid_move pattern
  | _ => true
  end.

(** A last move that is a move, when there is one. *)
Definition known_valid (o : option string) : Prop :=
  match o with
  | Some s => valid_move s = true
  | None => True
  end.

(** The state of a simulation loop after [k] battles. *)
Definition tally_ok (k : Z) (st : progress) : Prop :=
  Dict.sum_values (results st) = k /\
  known_valid (our_last st) /\ known_valid (enemy_last st) /\
  0 <= Dict.get0 (results st) "win".

(** A source of draws for examples. *)
Definition sample_source : source :=
  {| uniform := fun i => Z.of_nat (i mod 10) # 10; position := fun i => i |}.

End Simulation.

(** ** Adaptation over periods ([analyze_enemy_adaptation.py])

    Its [get_distribution] is the one of [analyze_enemy_patterns.py], word
    for word; its [calculate_entropy] is the entropy without the
    normalisation by [log2(3)]. *)

Module Adaptation.

(** A pattern tag; the numbers stand for their formatted text. The
    classification searches the printed list of tags for the names of the
    four tags without arguments, which occur in no [StrategyShift] text. *)
Inductive pattern : Type :=
| ConvergingToNash
| IncreasingRandomness
| BecomingPredictable
| StrategyShift (period : Z) (changed_move : option string)
    (increased : bool) (max_change : Q)
| CyclingStrategy.

Definition is_tag (t p : pattern) : bool :=
  match t, p with
  | ConvergingToNash, ConvergingToNash => true
  | IncreasingRandomness, IncreasingRandomness => true
  | BecomingPredictable, BecomingPredictable => true
  | CyclingStrategy, CyclingStrategy => true
  | _, _ => false
  end.

Inductive adaptation_type : Type :=
| NashConvergence | Cycling | AdaptiveRandomization | SettlingIntoPattern
| ActivelyAdapting | Stable.

Record analysis : Type :=
  { total_battles : Z; periods_analyzed : Z;
    distributions : list distribution; entropies : list Q;
    patterns : list pattern; adaptation : adaptation_type }.

Inductive outcome : Type :=
| InsufficientData (battles : Z)
| Analysis (a : analysis).

(** [dist.get(move, 0)] for a move, [None] included. *)
Definition prob (dist : distribution) (move : option string) : Q :=
  match move with
  | Some m =>
      if String.eqb m "rock" then rock dist
      else if String.eqb m "paper" then paper dist
      else if String.eqb m "scissor" then scissor dist
      else 0%Q
  | None => 0%Q
  end.

Definition period_size (total_battles : Z) : Z :=
  Z.max 10 (total_battles / 5).

(** The loop that cuts the moves into periods. *)
Definition periods_of (moves : list (Z * string)) : list (list string) :=
  map (map snd)
    (Behavior.chunks (List.length moves)
       (Z.to_nat (period_size (len moves))) moves).

(** [sum(abs(latest_dist.get(m, 0) - 0.333) for m in ...)], with the empty
    dictionary when there is no distribution. *)
Definition deviation (dists : list distribution) : Q :=
  let get m :=
    match dists with
    | [] => 0%Q
    | d :: _ => prob (last dists d) (Some m)
    end in
  (0 + Qabs (get "rock" - (333 # 1000))
     + Qabs (get "paper" - (333 # 1000))
     + Qabs (get "scissor" - (333 # 1000)))%Q.

(** The inner loop over the three moves: the biggest change so far. *)
Definition bigger_change (prev curr : distribution)
    (best : Q * option string) (move : string) : Q * option string :=
  let change := Qabs (prob curr (Some move) - prob prev (Some move)) in
  if Qgtb change (fst best) then (change, Some move) else best.

Definition biggest_change (prev curr : distribution) : Q * option string :=
  fold_left (bigger_change prev curr) ["rock"; "paper"; "scissor"]
    (0%Q, None).

(** [for i in range(1, len(distributions))]. *)
Fixpoint shifts_from (i : Z) (prev : distribution)
    (rest : list distribution) : list pattern :=
  match rest with
  | [] => []
  | curr :: rest' =>
      let '(max_change, changed_move) := biggest_change prev curr in
      (if Qgtb max_change (2 # 10)
       then [StrategyShift i changed_move
               (Qgtb (prob curr changed_move) (prob prev changed_move))
               max_change]
       else [])
      ++ shifts_from (i + 1) curr rest'
  end%list.

Definition shifts (dists : list distribution) : list pattern :=
  match dists with
  | prev :: (_ :: _) as rest => shifts_from 1 prev rest
  | _ => []
  end.

(** [Counter(period).most_common(1)[0][0] if counter else None]. *)
Definition dominant (period : list string) : option string :=
  match Dict.max_item (fold_left Dict.incr period []) with
  | Ok item => Some (fst item)
  | Raise _ => None
  end.

(** [cycle.get(move)]. *)
Definition cycle_get (move : option string) : option string :=
  match move with
  | Some m =>
      match counter_map m with
      | Ok c => Some c
      | Raise _ => None
      end
  | None => None
  end.

Definition same_move (a b : option string) : bool :=
  match a, b with
  | Some x, Some y => String.eqb x y
  | None, None => true
  | _, _ => false
  end.

Fixpoint cycling_from (prev : option string) (rest : list (option string))
    (cycling : Z) : Z :=
  match rest with
  | [] => cycling
  | curr :: rest' =>
      cycling_from curr rest'
        (if same_move curr (cycle_get prev) then cycling + 1 else cycling)
  end.

Definition cycling_count (dominants : list (option string)) : Z :=
  match dominants with
  | [] => 0
  | prev :: rest => cycling_from prev rest 0
  end.

Definition has_tag (t : pattern) (ps : list pattern) : bool :=
  existsb (is_tag t) ps.

(** The [if / elif] chain on the printed patterns. *)
Definition classify (ps : list pattern) : adaptation_type :=
  if has_tag ConvergingToNash ps then NashConvergence
  else if has_tag CyclingStrategy ps then Cycling
  else if has_tag IncreasingRandomness ps then AdaptiveRandomization
  else if has_tag BecomingPredictable ps then SettlingIntoPattern
  else if 2 <? len ps then ActivelyAdapting
  else Stable.

Section WithLog2.

Variable log2 : Q -> Q.

Definition entropy_step (acc p : Q) : Q :=
  if Qgtb p 0 then (acc - p * log2 p)%Q else acc.

Definition calculate_entropy (dist : distribution) : Q :=
  entropy_step (entropy_step (entropy_step 0 (rock dist)) (paper dist))
    (scissor dist).

Definition entropy_patterns (ents : list Q) : list pattern :=
  match ents with
  | first_e :: _ =>
      if 3 <=? len ents then
        let last_e := last ents first_e in
        if Qgtb last_e (first_e + (2 # 10)) then [IncreasingRandomness]
        else if Qltb last_e (first_e - (2 # 10)) then [BecomingPredictable]
        else []
      else []
  | [] => []
  end.

Definition cycling_patterns (periods : list (list string)) : list pattern :=
  if 3 <=? len periods then
    let dominant_per_period := map dominant periods in
    let cycling := cycling_count dominant_per_period in
    if Qltb (inject_Z cycling) (inject_Z (len dominant_per_period) * (5 # 10))
    then [] else [CyclingStrategy]
  else [].

Definition patterns_of (periods : list (list string)) : list pattern :=
  let dists := map Patterns.get_distribution periods in
  let ents := map calculate_entropy dists in
  ((if Qltb (deviation dists) (1 # 10) then [ConvergingToNash] else [])
   ++ entropy_patterns ents
   ++ shifts dists
   ++ cycling_patterns periods)%list.

Definition analyze_adaptation (moves : list (Z * string)) : outcome :=
  if len moves <? 10 then InsufficientData (len moves)
  else
    let periods := periods_of moves in
    let dists := map Patterns.get_distribution periods in
    let ps := patterns_of periods in
    Analysis {| total_battles := len moves;
                periods_analyzed := len periods;
                distributions := dists;
                entropies := map calculate_entropy dists;
                patterns := ps;
                adaptation := classify ps |}.

End WithLog2.

(** Twelve moves: ten of rock, then two of paper. *)
Definition twelve_moves : list (Z * string) :=
  (map (fun i => (i, "rock")) [1; 2; 3; 4; 5; 6; 7; 8; 9; 10]
   ++ [(11, "paper"); (12, "paper")])%list.

End Adaptation.

(** ** The reactive score ([deeper_reactive_analysis.py])

    The rest of the analysis of one enemy: the three-move sequences
    counted in the loop of the tally, and the score that adds up the
    evidence. A rate in a reason stands for its formatted percentage. *)

Module ReactiveScore.
Import DeeperReactive.




















End ReactiveScore.

(** ** Periods and failures of the behaviour analysis
    ([analyze_enemy_behavior.py]) *)

Module BehaviorSupport.
Import Behavior.

(** Reference counts for the reactions to our previous move: the pairs of
    consecutive battles, those in which the enemy plays the counter of our
    previous move and those in which the enemy plays that move itself, and
    their shares of the transitions. *)
Fixpoint consecutive (battles : list row) : list (row * row) :=
  match battles with
  | [] => []
  | prev :: rest =>
      match rest with
      | [] => []
      | cur :: _ => (prev, cur) :: consecutive rest
      end
  end.

Definition counters_previous (p : row * row) : bool :=
  match counter_map (player_move (fst p)) with
  | Ok c => String.eqb (enemy_move (snd p)) c
  | Raise _ => false
  end.

Definition copies_previous (p : row * row) : bool :=
  String.eqb (enemy_move (snd p)) (player_move (fst p)).

Definition counter_share (battles : list row) : Q :=
  fdiv (len (filter counters_previous (consecutive battles)))
       (len battles - 1).

Definition copy_share (battles : list row) : Q :=
  fdiv (len (filter copies_previous (consecutive battles)))
       (len battles - 1).


(** A battle that the two loops of [detect_reaction_patterns] can have as
    the previous one: our move is a key of [counter], and so is the
    enemy's if the enemy lost. *)
Definition previous_ok (b : row) : Prop :=
  valid_move (player_move b) = true /\
  (result b = "loss" -> valid_move (enemy_move b) = true).

(** The [KeyError] that a battle causes as the previous one: our move in
    the first loop, the enemy's move after a loss in the second. *)
Definition fails_at (b : row) (e : exn) : Prop :=
  (e = KeyError (player_move b) /\ valid_move (player_move b) = false) \/
  (e = KeyError (enemy_move b) /\ result b = "loss" /\
   valid_move (enemy_move b) = false).

(** Fifteen battles with moves of no meaning in the last one and in the
    enemy's column of a battle the enemy won. *)
Definition odd_tokens : list row :=
  let r := {| turn := 1; player_move := "rock"; enemy_move := "spock";
              result := "win" |} in
  let z := {| turn := 1; player_move := "lizard"; enemy_move := "lizard";
              result := "loss" |} in
  [r; r; r; r; r; r; r; r; r; r; r; r; r; r; z].

End BehaviorSupport.

(** ** Patterns and evolution ([analyze_enemy_patterns.py])

    Its [calculate_entropy] is the one of [analyze_enemy_adaptation.py],
    word for word. *)

Module Evolution.

(** ['-'.join(l)]. *)
Fixpoint join (sep : string) (l : list string) : string :=
  match l with
  | [] => ""
  | x :: rest =>
      match rest with
      | [] => x
      | _ :: _ => x ++ sep ++ join sep rest
      end
  end.

(** [l[a:b]] for indices that are not negative. *)
Definition slice {A : Type} (a b : Z) (l : list A) : list A :=
  firstn (Z.to_nat (b - a)) (skipn (Z.to_nat a) l).

(** [moves[i:i+seq_len]] for [i] in [range(len(moves) - seq_len + 1)]. *)
Definition windows (seq_len : Z) (moves : list string) : list (list string) :=
  map (fun i => slice (Z.of_nat i) (Z.of_nat i + seq_len) moves)
    (seq 0 (Z.to_nat (len moves - seq_len + 1))).

Definition sequence_counts (seq_len : Z) (moves : list string) : Dict.t Z :=
  fold_left Dict.incr (map (join "-") (windows seq_len moves)) [].

(** [sorted(items, key=lambda x: x[1], reverse=True)]: by descending
    count, items of equal count in their original order. *)
Fixpoint insert_desc (kv : string * Z) (sorted : list (string * Z))
  : list (string * Z) :=
  match sorted with
  | [] => [kv]
  | x :: rest =>
      if snd kv <? snd x then x :: insert_desc kv rest else kv :: x :: rest
  end.

Definition sorted_desc (items : list (string * Z)) : list (string * Z) :=
  fold_right insert_desc [] items.

(** Counts that do not increase along a list of items. *)
Fixpoint descending (l : list (string * Z)) : Prop :=
  match l with
  | [] => True
  | x :: rest => (forall y, In y rest -> snd y <= snd x) /\ descending rest
  end.

Record sequence_report : Type :=
  { pattern : string; count : Z; frequency : Q }.

(** One round of [for seq_len in [2, 3, 4]]. *)
Definition sequences_for (seq_len : Z) (moves : list string)
  : list sequence_report :=
  if seq_len * 2 <=? len moves then
    let sequences := sequence_counts seq_len moves in
    flat_map
      (fun sc =>
         if 2 <=? snd sc
         then [{| pattern := fst sc; count := snd sc;
                  frequency := fdiv (snd sc) (len moves - seq_len + 1) |}]
         else [])
      (firstn 3 (sorted_desc sequences))
  else [].

Inductive cycle_tag : Type := ForwardCycle | ReverseCycle.

(** A bias tag; the probability stands for its formatted percentage. *)
Inductive bias_tag : Type :=
| HeavyBias (move : string) (prob : Q)
| Avoids (move : string) (prob : Q).

(** [cur == d.get(prev)] for a dictionary [d] of moves. *)
Definition follows (d : string -> res string) (prev cur : string) : bool :=
  match d prev with
  | Ok next => String.eqb cur next
  | Raise _ => false
  end.

(** [for i in range(1, len(moves))], on [(cycle_count, counter_cycle)]. *)
Fixpoint count_cycles (prev : string) (rest : list string) (st : Z * Z)
  : Z * Z :=
  match rest with
  | [] => st
  | cur :: rest' =>
      count_cycles cur rest'
        (if follows counter_map prev cur then fst st + 1 else fst st,
         if follows opposite_map prev cur then snd st + 1 else snd st)
  end.

Definition cycle_counts (moves : list string) : Z * Z :=
  match moves with
  | [] => (0, 0)
  | prev :: rest => count_cycles prev rest (0, 0)
  end.

Definition HEAVY : Q := 45 # 100.
Definition AVOIDED : Q := 20 # 100.

Definition bias_of (move : string) (prob : Q) : list bias_tag :=
  if Qgtb prob HEAVY then [HeavyBias move prob]
  else if Qltb prob AVOIDED then [Avoids move prob]
  else [].

Record found : Type :=
  { sequences : list sequence_report; cycles : list cycle_tag;
    biases : list bias_tag }.

Definition detect_patterns (moves : list string) : found :=
  if len moves <? 3 then {| sequences := []; cycles := []; biases := [] |}
  else
    let counts := cycle_counts moves in
    let limit := (inject_Z (len moves) * (4 # 10))%Q in
    let dist := Patterns.get_distribution moves in
    {| sequences :=
         (sequences_for 2 moves ++ sequences_for 3 moves
          ++ sequences_for 4 moves)%list;
       cycles :=
         ((if Qgtb (inject_Z (fst counts)) limit then [ForwardCycle] else [])
          ++ (if Qgtb (inject_Z (snd counts)) limit then [ReverseCycle]
              else []))%list;
       biases :=
         (bias_of "rock" (rock dist) ++ bias_of "paper" (paper dist)
          ++ bias_of "scissor" (scissor dist))%list |}.

Definition is_heavy (b : bias_tag) : bool :=
  match b with HeavyBias _ _ => true | Avoids _ _ => false end.

Definition is_avoided (b : bias_tag) : bool :=
  match b with HeavyBias _ _ => false | Avoids _ _ => true end.

(** An adaptation sign; the amount stands for its formatted percentage.
    The classification searches the printed list of signs for the names
    of the two signs without arguments, which occur in no other sign. *)
Inductive sign : Type :=
| Shifted (move : string) (increased : bool) (early_to_mid : bool)
    (amount : Q)
| BecomingMoreRandom
| BecomingMorePredictable.

Definition is_more_random (s : sign) : bool :=
  match s with BecomingMoreRandom => true | _ => false end.

Definition is_more_predictable (s : sign) : bool :=
  match s with BecomingMorePredictable => true | _ => false end.


Definition SHIFT : Q := 15 # 100.
Definition TREND : Q := 3 # 10.

(** One round of [for move in ['rock', 'paper', 'scissor']]. *)
Definition shift_signs (move : string) (early middle late : Q) : list sign :=
  let early_to_mid := (middle - early)%Q in
  let mid_to_late := (late - middle)%Q in
  ((if Qgtb (Qabs early_to_mid) SHIFT
    then [Shifted move (Qgtb early_to_mid 0) true (Qabs early_to_mid)]
    else [])
   ++ (if Qgtb (Qabs mid_to_late) SHIFT
       then [Shifted move (Qgtb mid_to_late 0) false (Qabs mid_to_late)]
       else []))%list.

Definition trend_signs (window_entropies : list Q) : list sign :=
  match window_entropies with
  | first_e :: _ =>
      if 3 <=? len window_entropies then
        let entropy_trend := (last window_entropies first_e - first_e)%Q in
        if Qgtb entropy_trend TREND then [BecomingMoreRandom]
        else if Qltb entropy_trend (- TREND) then [BecomingMorePredictable]
        else []
      else []
  | [] => []
  end.

Inductive adaptation_type : Type :=
| Stable | DefensiveAdaptation | SettlingPattern | ActiveAdaptation
| MinorAdjustment.

(** The [if / elif] chain on the signs. *)
Definition classify (signs : list sign) : adaptation_type :=
  if len signs =? 0 then Stable
  else if existsb is_more_random signs then DefensiveAdaptation
  else if existsb is_more_predictable signs then SettlingPattern
  else if 2 <=? len signs then ActiveAdaptation
  else MinorAdjustment.

Record report : Type :=
  { enemy_id : Z; total_moves : Z;
    early : distribution; middle : distribution; late : distribution;
    early_entropy : Q; middle_entropy : Q; late_entropy : Q;
    increasing : bool;
    early_patterns : found; late_patterns : found;
    adaptation_signs : list sign; adaptation : adaptation_type }.

Inductive outcome : Type :=
| InsufficientData (enemy_id : Z) (total_moves : Z)
| Report (r : report).

(** A row [(turn, enemy_move, player_move)]; [m[1]] is the enemy's move. *)
Definition move_row : Type := (Z * string * string)%type.

Definition move_of (m : move_row) : string := snd (fst m).

Definition third_of (moves : list move_row) : Z := len moves / 3.

Definition early_moves (moves : list move_row) : list string :=
  map move_of (slice 0 (third_of moves) moves).

Definition middle_moves (moves : list move_row) : list string :=
  map move_of (slice (third_of moves) (third_of moves * 2) moves).

Definition late_moves (moves : list move_row) : list string :=
  map move_of (skipn (Z.to_nat (third_of moves * 2)) moves).

(** The windows of ten moves. *)
Definition windows_of (moves : list move_row) : list (list string) :=
  map (map move_of) (Behavior.chunks (List.length moves) 10 moves).

Section WithLog2.

Variable log2 : Q -> Q.

Definition signs_of (early_dist middle_dist late_dist : distribution)
    (window_entropies : list Q) : list sign :=
  (shift_signs "rock" (rock early_dist) (rock middle_dist) (rock late_dist)
   ++ shift_signs "paper" (paper early_dist) (paper middle_dist)
        (paper late_dist)
   ++ shift_signs "scissor" (scissor early_dist) (scissor middle_dist)
        (scissor late_dist)
   ++ trend_signs window_entropies)%list.

Definition analyze_enemy_evolution (id : Z) (moves : list move_row)
  : outcome :=
  if len moves <? 10 then InsufficientData id (len moves)
  else
    let early_dist := Patterns.get_distribution (early_moves moves) in
    let middle_dist := Patterns.get_distribution (middle_moves moves) in
    let late_dist := Patterns.get_distribution (late_moves moves) in
    let window_entropies :=
      map (fun w => Adaptation.calculate_entropy log2
                      (Patterns.get_distribution w)) (windows_of moves) in
    let signs := signs_of early_dist middle_dist late_dist window_entropies in
    Report
      {| enemy_id := id; total_moves := len moves;
         early := early_dist; middle := middle_dist; late := late_dist;
         early_entropy := Adaptation.calculate_entropy log2 early_dist;
         middle_entropy := Adaptation.calculate_entropy log2 middle_dist;
         late_entropy := Adaptation.calculate_entropy log2 late_dist;
         increasing :=
           match window_entropies with
           | [] => false
           | first_e :: _ => Qgtb (last window_entropies first_e) first_e
           end;
         early_patterns := detect_patterns (early_moves moves);
         late_patterns := detect_patterns (late_moves moves);
         adaptation_signs := signs;
         adaptation := classify signs |}.

End WithLog2.

(** Eleven moves: rock four times, paper four times, scissor three
    times. *)
Definition eleven_moves : list move_row :=
  map (fun m => (1, m, "rock"))
    ["rock"; "rock"; "rock"; "rock"; "paper"; "paper"; "paper"; "paper";
     "scissor"; "scissor"; "scissor"].

(** Rock and paper in turn, eight moves. *)
Definition rock_paper_8 : list string :=
  ["rock"; "paper"; "rock"; "paper"; "rock"; "paper"; "rock"; "paper"].

End Evolution.

(** * Properties *)

(** ** Comparisons and the error monad *)

Lemma Qltb_lt (x y : Q) : Qltb x y = true <-> (x < y)%Q.
Proof. unfold Qltb, Qlt. apply Z.ltb_lt. Qed.

Lemma Qltb_ge (x y : Q) : Qltb x y = false <-> (y <= x)%Q.
Proof. unfold Qltb, Qle. apply Z.ltb_ge. Qed.

Lemma Qgtb_gt (x y : Q) : Qgtb x y = true <-> (y < x)%Q.
Proof. unfold Qgtb. apply Qltb_lt. Qed.

Lemma Qgtb_le (x y : Q) : Qgtb x y = false <-> (x <= y)%Q.
Proof. unfold Qgtb. apply Qltb_ge. Qed.

Lemma py_min_Qmin (a b : Q) : (py_min a b == Qmin a b)%Q.
Proof.
  unfold py_min.
  destruct (Q.min_spec a b) as [[Hlt Heq] | [Hle Heq]]; rewrite Heq.
  - destruct (Qltb b a) eqn:E; [| reflexivity].
    apply Qltb_lt in E. lra.
  - destruct (Qltb b a) eqn:E; [reflexivity |].
    apply Qltb_ge in E. lra.
Qed.

Lemma bind_Ok {A B : Type} (r : res A) (k : A -> res B) (b : B) :
  bind r k = Ok b -> exists a, r = Ok a /\ k a = Ok b.
Proof. destruct r as [a | e]; simpl; [eauto | discriminate]. Qed.

Lemma len_nonneg {A : Type} (l : list A) : 0 <= len l.
Proof. unfold len. lia. Qed.

Lemma len_cons {A : Type} (a : A) (l : list A) : len (a :: l) = len l + 1.
Proof. unfold len. simpl List.length. lia. Qed.

Lemma fdiv_nonneg (a b : Z) : 0 <= a -> 0 < b -> (0 <= fdiv a b)%Q.
Proof.
  intros Ha Hb. unfold fdiv.
  apply Qle_shift_div_l.
  - replace 0%Q with (inject_Z 0) by reflexivity. rewrite <- Zlt_Qlt. exact Hb.
  - rewrite Qmult_0_l. replace 0%Q with (inject_Z 0) by reflexivity.
    rewrite <- Zle_Qle. exact Ha.
Qed.

Lemma fdiv_le_1 (a b : Z) : a <= b -> 0 < b -> (fdiv a b <= 1)%Q.
Proof.
  intros Hab Hb. unfold fdiv.
  apply Qle_shift_div_r.
  - replace 0%Q with (inject_Z 0) by reflexivity. rewrite <- Zlt_Qlt. exact Hb.
  - rewrite Qmult_1_l. rewrite <- Zle_Qle. exact Hab.
Qed.

Lemma inject_Z_nonzero (a : Z) : a <> 0 -> ~ (inject_Z a == 0)%Q.
Proof. intros Ha H. unfold Qeq in H. simpl in H. lia. Qed.

Lemma fdiv_self (a : Z) : 0 < a -> (fdiv a a == 1)%Q.
Proof.
  intros Ha. unfold fdiv. field. apply inject_Z_nonzero. lia.
Qed.

(** ** Rounding to binary64 *)

Module Float64Facts.
Import Float64.




















End Float64Facts.

(** ** Dictionaries *)

Section DictFacts.

Context {V : Type}.
Implicit Types (d : Dict.t V) (k : string) (v : V).

Lemma get_set_same d k v : Dict.get (Dict.set d k v) k = Some v.
Proof.
  induction d as [| [k' v'] d IH]; simpl.
  - rewrite String.eqb_refl. reflexivity.
  - destruct (String.eqb k' k) eqn:E; simpl; rewrite E; auto.
Qed.

Lemma get_set_other d k k' v :
  k' <> k -> Dict.get (Dict.set d k v) k' = Dict.get d k'.
Proof.
  intros Hne. induction d as [| [k0 v0] d IH]; simpl.
  - destruct (String.eqb k k') eqn:E; [| reflexivity].
    apply String.eqb_eq in E. congruence.
  - destruct (String.eqb k0 k) eqn:E; simpl.
    + apply String.eqb_eq in E. subst k0.
      destruct (String.eqb k k') eqn:E'; [| reflexivity].
      apply String.eqb_eq in E'. congruence.
    + rewrite IH. reflexivity.
Qed.

Lemma get_None_not_key d k : Dict.get d k = None -> ~ In k (Dict.keys d).
Proof.
  induction d as [| [k' v'] d IH]; simpl; [tauto |].
  destruct (String.eqb k' k) eqn:E; [discriminate |].
  apply String.eqb_neq in E. intros H [H' | H']; [congruence | tauto].
Qed.

Lemma get_Some_In d k v : Dict.get d k = Some v -> In (k, v) d.
Proof.
  induction d as [| [k' v'] d IH]; simpl; [discriminate |].
  destruct (String.eqb k' k) eqn:E.
  - apply String.eqb_eq in E. intros [= ->]. left. congruence.
  - auto.
Qed.

Lemma In_get_unique d k v :
  NoDup (Dict.keys d) -> In (k, v) d -> Dict.get d k = Some v.
Proof.
  induction d as [| [k' v'] d IH]; simpl; [tauto |].
  intros Hnd [H | H].
  - injection H as -> ->. rewrite String.eqb_refl. reflexivity.
  - inversion Hnd as [| ? ? Hnot Hnd']; subst.
    destruct (String.eqb k' k) eqn:E; [| auto].
    apply String.eqb_eq in E. subst k'. exfalso. apply Hnot.
    change k with (fst (k, v)). apply in_map. exact H.
Qed.

Lemma keys_set d k v :
  Dict.keys (Dict.set d k v) =
  match Dict.get d k with
  | Some _ => Dict.keys d
  | None => (Dict.keys d ++ [k])%list
  end.
Proof.
  unfold Dict.keys.
  induction d as [| [k' v'] d IH]; simpl; [reflexivity |].
  destruct (String.eqb k' k) eqn:E; simpl; [reflexivity |].
  rewrite IH. destruct (Dict.get d k); reflexivity.
Qed.

Lemma NoDup_keys_set d k v :
  NoDup (Dict.keys d) -> NoDup (Dict.keys (Dict.set d k v)).
Proof.
  intros Hnd. rewrite keys_set.
  destruct (Dict.get d k) eqn:E; [exact Hnd |].
  apply get_None_not_key in E.
  apply NoDup_app; [exact Hnd | repeat constructor; simpl; tauto |].
  intros x Hx [<- | []]. tauto.
Qed.

End DictFacts.

Section CounterFacts.

Implicit Types (d : Dict.t Z) (k : string).

Lemma get0_incr_same d k : Dict.get0 (Dict.incr d k) k = Dict.get0 d k + 1.
Proof. unfold Dict.incr, Dict.get0 at 1. rewrite get_set_same. reflexivity. Qed.

Lemma get0_incr_other d k k' :
  k' <> k -> Dict.get0 (Dict.incr d k) k' = Dict.get0 d k'.
Proof.
  intros Hne. unfold Dict.incr, Dict.get0 at 1.
  rewrite get_set_other by exact Hne. reflexivity.
Qed.

Lemma count_token_cons k k' l :
  count_token k (k' :: l) =
  (if String.eqb k' k then 1 else 0) + count_token k l.
Proof.
  unfold count_token. simpl.
  destruct (string_dec k' k) as [-> | Hne].
  - rewrite String.eqb_refl. lia.
  - apply String.eqb_neq in Hne. rewrite Hne. lia.
Qed.

Lemma count_token_nonneg k l : 0 <= count_token k l.
Proof. unfold count_token. lia. Qed.

Lemma count_token_le_len k l : count_token k l <= len l.
Proof. unfold count_token, len. pose proof (count_occ_bound string_dec k l). lia. Qed.

Lemma getitem_default_fst d k :
  fst (Dict.getitem_default d k) = Dict.get0 d k.
Proof. unfold Dict.getitem_default, Dict.get0. destruct (Dict.get d k); reflexivity. Qed.

Lemma getitem_default_get0 d k k' :
  Dict.get0 (snd (Dict.getitem_default d k)) k' = Dict.get0 d k'.
Proof.
  unfold Dict.getitem_default.
  destruct (Dict.get d k) eqn:E; simpl; [reflexivity |].
  unfold Dict.get0. destruct (string_dec k' k) as [-> | Hne].
  - rewrite get_set_same, E. reflexivity.
  - rewrite get_set_other by exact Hne. reflexivity.
Qed.

Lemma getitem_default_NoDup d k :
  NoDup (Dict.keys d) -> NoDup (Dict.keys (snd (Dict.getitem_default d k))).
Proof.
  unfold Dict.getitem_default.
  destruct (Dict.get d k); simpl; [tauto | apply NoDup_keys_set].
Qed.

Lemma getitem_default_nonempty d k : snd (Dict.getitem_default d k) <> [].
Proof.
  unfold Dict.getitem_default.
  destruct (Dict.get d k) eqn:E; simpl.
  - destruct d; [discriminate | discriminate].
  - destruct d as [| [k' v'] d]; simpl; [discriminate |].
    destruct (String.eqb k' k); discriminate.
Qed.

Lemma max_from_In (best : string * Z) d : In (Dict.max_from best d) (best :: d).
Proof.
  revert best. induction d as [| kv d IH]; intros best; simpl; [auto |].
  specialize (IH (if snd best <? snd kv then kv else best)).
  destruct IH as [H | H]; [| auto].
  rewrite <- H. destruct (snd best <? snd kv); auto.
Qed.

Lemma max_from_best_le d : forall best : string * Z,
  snd best <= snd (Dict.max_from best d).
Proof.
  induction d as [| x d IH]; intros best; simpl; [lia |].
  destruct (snd best <? snd x) eqn:E.
  - apply Z.ltb_lt in E. specialize (IH x). lia.
  - apply IH.
Qed.

Lemma max_from_ge d : forall (best kv : string * Z),
  In kv (best :: d) -> snd kv <= snd (Dict.max_from best d).
Proof.
  induction d as [| x d IH]; intros best kv H.
  - destruct H as [<- | []]. simpl. lia.
  - change (Dict.max_from best (x :: d))
      with (Dict.max_from (if snd best <? snd x then x else best) d).
    pose proof (max_from_best_le d (if snd best <? snd x then x else best)) as Hle.
    destruct H as [<- | [<- | H]].
    + destruct (snd best <? snd x) eqn:E; [apply Z.ltb_lt in E |]; simpl in *; lia.
    + destruct (snd best <? snd x) eqn:E; [| apply Z.ltb_ge in E]; simpl in *; lia.
    + apply IH. right. exact H.
Qed.

Lemma max_item_spec d item :
  Dict.max_item d = Ok item ->
  In item d /\ forall kv, In kv d -> snd kv <= snd item.
Proof.
  destruct d as [| kv0 d]; simpl; [discriminate |].
  intros [= <-]. split.
  - apply max_from_In.
  - intros kv H. apply max_from_ge. exact H.
Qed.

Lemma max_item_nonempty d : d <> [] -> exists item, Dict.max_item d = Ok item.
Proof. destruct d; [congruence | simpl; eauto]. Qed.

End CounterFacts.

(** ** Tallies: a dictionary filled by counting a list of keys *)

Section TallyFacts.

Implicit Types (d : Dict.t Z) (k : string) (keys : list string).

Lemma tally_get0 keys : forall d k,
  Dict.get0 (fold_left Dict.incr keys d) k = Dict.get0 d k + count_token k keys.
Proof.
  induction keys as [| x keys IH]; intros d k; simpl.
  - unfold count_token. simpl. lia.
  - rewrite IH, count_token_cons.
    destruct (String.eqb x k) eqn:E.
    + apply String.eqb_eq in E. subst k. rewrite get0_incr_same. lia.
    + apply String.eqb_neq in E. rewrite get0_incr_other by congruence. lia.
Qed.

Lemma tally_NoDup keys : forall d,
  NoDup (Dict.keys d) -> NoDup (Dict.keys (fold_left Dict.incr keys d)).
Proof.
  induction keys as [| x keys IH]; intros d Hd; simpl; [exact Hd |].
  apply IH. apply NoDup_keys_set. exact Hd.
Qed.

Lemma tally_keys keys : forall d k,
  In k (Dict.keys (fold_left Dict.incr keys d)) ->
  In k (Dict.keys d) \/ In k keys.
Proof.
  induction keys as [| x keys IH]; intros d k H; simpl in *; [auto |].
  apply IH in H. destruct H as [H | H]; [| auto].
  unfold Dict.incr in H. rewrite keys_set in H.
  destruct (Dict.get d x); [auto |].
  apply in_app_or in H. destruct H as [H | [H | []]]; auto.
Qed.

Lemma count_token_In k keys : In k keys <-> 0 < count_token k keys.
Proof.
  unfold count_token. rewrite (count_occ_In string_dec). lia.
Qed.

(** The entries of a tally are the keys that occur, with their counts. *)
Lemma tally_In keys k (v : Z) :
  In (k, v) (fold_left Dict.incr keys []) <->
  In k keys /\ v = count_token k keys.
Proof.
  pose proof (tally_NoDup keys [] (NoDup_nil _)) as Hnd.
  pose proof (tally_get0 keys [] k) as Hget. simpl in Hget.
  split.
  - intros Hin. split.
    + assert (Hk : In k (Dict.keys (fold_left Dict.incr keys []))).
      { change k with (fst (k, v)). apply in_map. exact Hin. }
      apply tally_keys in Hk. destruct Hk as [[] | Hk]. exact Hk.
    + rewrite <- Hget. unfold Dict.get0.
      rewrite (In_get_unique _ _ _ Hnd Hin). reflexivity.
  - intros [Hin ->]. apply count_token_In in Hin.
    apply get_Some_In. unfold Dict.get0 in Hget.
    destruct (Dict.get (fold_left Dict.incr keys []) k) as [v |]; [| lia].
    rewrite Hget. reflexivity.
Qed.

Lemma sum_where_from (test : string -> bool) d : forall acc,
  fold_left (fun acc kv => if test (fst kv) then acc + snd kv else acc) d acc
  = acc + Dict.sum_where test d.
Proof.
  unfold Dict.sum_where.
  induction d as [| kv d IH]; intros acc; simpl; [lia |].
  rewrite IH, (IH (if test (fst kv) then snd kv else 0)).
  destruct (test (fst kv)); lia.
Qed.

Lemma sum_where_cons (test : string -> bool) (kv : string * Z) d :
  Dict.sum_where test (kv :: d) =
  (if test (fst kv) then snd kv else 0) + Dict.sum_where test d.
Proof.
  unfold Dict.sum_where at 1. simpl. rewrite sum_where_from.
  destruct (test (fst kv)); lia.
Qed.

Lemma sum_where_incr (test : string -> bool) d k :
  Dict.sum_where test (Dict.incr d k) =
  Dict.sum_where test d + (if test k then 1 else 0).
Proof.
  unfold Dict.incr, Dict.get0.
  induction d as [| [k' v'] d IH]; simpl.
  - rewrite sum_where_cons. simpl. unfold Dict.sum_where. simpl.
    destruct (test k); lia.
  - destruct (String.eqb k' k) eqn:E.
    + apply String.eqb_eq in E. subst k'.
      rewrite !sum_where_cons. simpl. destruct (test k); lia.
    + rewrite !sum_where_cons, IH. simpl. lia.
Qed.

(** Summing a tally over the keys that pass a test counts the listed keys
    that pass it. *)
Lemma sum_where_tally (test : string -> bool) keys : forall d,
  Dict.sum_where test (fold_left Dict.incr keys d) =
  Dict.sum_where test d + len (filter test keys).
Proof.
  induction keys as [| x keys IH]; intros d; simpl.
  - unfold len. simpl. lia.
  - rewrite IH, sum_where_incr.
    destruct (test x); [rewrite len_cons |]; lia.
Qed.

End TallyFacts.

(** ** The gated detector *)

Module RobustFacts.
Import Robust.

Lemma fold_incr_get0 (bs : list battle) : forall (d : Dict.t Z) (k : string),
  Dict.get0 (fold_left (fun c b => Dict.incr c (enemy_move b)) bs d) k =
  Dict.get0 d k + count_token k (map enemy_move bs).
Proof.
  induction bs as [| b bs IH]; intros d k; simpl.
  - unfold count_token. simpl. lia.
  - rewrite IH, count_token_cons.
    destruct (String.eqb (enemy_move b) k) eqn:E.
    + apply String.eqb_eq in E. subst k. rewrite get0_incr_same. lia.
    + apply String.eqb_neq in E. rewrite get0_incr_other by congruence. lia.
Qed.

Lemma fold_incr_NoDup (bs : list battle) : forall d : Dict.t Z,
  NoDup (Dict.keys d) ->
  NoDup (Dict.keys (fold_left (fun c b => Dict.incr c (enemy_move b)) bs d)).
Proof.
  induction bs as [| b bs IH]; intros d Hd; simpl; [exact Hd |].
  apply IH. apply NoDup_keys_set. exact Hd.
Qed.

Lemma move_counts_get0 battles k :
  Dict.get0 (move_counts battles) k = observed k battles.
Proof. unfold move_counts, observed. rewrite fold_incr_get0. reflexivity. Qed.

Lemma move_counts_NoDup battles : NoDup (Dict.keys (move_counts battles)).
Proof. apply fold_incr_NoDup. constructor. Qed.

Lemma chi_square_fst counts expected :
  fst (chi_square counts expected) =
  (0 + chi_term (Dict.get0 counts "rock") expected
     + chi_term (Dict.get0 counts "paper") expected
     + chi_term (Dict.get0 counts "scissor") expected)%Q.
Proof.
  unfold chi_square.
  destruct (Dict.getitem_default counts "rock") as [cr c1] eqn:E1.
  destruct (Dict.getitem_default c1 "paper") as [cp c2] eqn:E2.
  destruct (Dict.getitem_default c2 "scissor") as [cs c3] eqn:E3.
  simpl.
  replace cr with (fst (Dict.getitem_default counts "rock")) by (rewrite E1; reflexivity).
  replace cp with (fst (Dict.getitem_default c1 "paper")) by (rewrite E2; reflexivity).
  replace cs with (fst (Dict.getitem_default c2 "scissor")) by (rewrite E3; reflexivity).
  rewrite !getitem_default_fst.
  replace c2 with (snd (Dict.getitem_default c1 "paper")) by (rewrite E2; reflexivity).
  rewrite getitem_default_get0.
  replace c1 with (snd (Dict.getitem_default counts "rock")) by (rewrite E1; reflexivity).
  rewrite !getitem_default_get0. reflexivity.
Qed.

Lemma chi_square_snd counts expected :
  let counts' := snd (chi_square counts expected) in
  (forall k, Dict.get0 counts' k = Dict.get0 counts k) /\
  (NoDup (Dict.keys counts) -> NoDup (Dict.keys counts')) /\
  counts' <> [].
Proof.
  unfold chi_square.
  destruct (Dict.getitem_default counts "rock") as [cr c1] eqn:E1.
  destruct (Dict.getitem_default c1 "paper") as [cp c2] eqn:E2.
  destruct (Dict.getitem_default c2 "scissor") as [cs c3] eqn:E3.
  simpl.
  assert (H1 : c1 = snd (Dict.getitem_default counts "rock")) by (rewrite E1; reflexivity).
  assert (H2 : c2 = snd (Dict.getitem_default c1 "paper")) by (rewrite E2; reflexivity).
  assert (H3 : c3 = snd (Dict.getitem_default c2 "scissor")) by (rewrite E3; reflexivity).
  repeat split.
  - intros k. rewrite H3, getitem_default_get0, H2, getitem_default_get0, H1.
    apply getitem_default_get0.
  - intros Hnd. rewrite H3. apply getitem_default_NoDup.
    rewrite H2. apply getitem_default_NoDup.
    rewrite H1. apply getitem_default_NoDup. exact Hnd.
  - rewrite H3. apply getitem_default_nonempty.
Qed.

Lemma chi_square_is_statistic battles :
  fst (chi_square (move_counts battles) (fdiv (len battles) 3)) =
  chi_square_statistic battles.
Proof.
  rewrite chi_square_fst, !move_counts_get0. reflexivity.
Qed.

Lemma counted_get0 battles k : Dict.get0 (counted battles) k = observed k battles.
Proof.
  unfold counted.
  destruct (chi_square_snd (move_counts battles) (fdiv (len battles) 3)) as [H _].
  rewrite H. apply move_counts_get0.
Qed.

Lemma counted_NoDup battles : NoDup (Dict.keys (counted battles)).
Proof.
  unfold counted.
  destruct (chi_square_snd (move_counts battles) (fdiv (len battles) 3)) as [_ [H _]].
  apply H, move_counts_NoDup.
Qed.

Lemma counted_nonempty battles : counted battles <> [].
Proof.
  unfold counted.
  destruct (chi_square_snd (move_counts battles) (fdiv (len battles) 3)) as [_ [_ H]].
  exact H.
Qed.

Lemma observed_nonneg k battles : 0 <= observed k battles.
Proof. apply count_token_nonneg. Qed.

(** [max] over the counting dictionary returns a dominant token together
    with its observed count. *)
Lemma max_item_counted battles :
  exists m, Dict.max_item (counted battles) = Ok (m, observed m battles) /\
            is_dominant m battles.
Proof.
  destruct (max_item_nonempty _ (counted_nonempty battles)) as [[m v] Hmax].
  destruct (max_item_spec _ _ Hmax) as [Hin Hge].
  assert (Hv : v = observed m battles).
  { rewrite <- counted_get0. unfold Dict.get0.
    rewrite (In_get_unique _ _ _ (counted_NoDup battles) Hin). reflexivity. }
  exists m. split; [rewrite Hmax, Hv; reflexivity |].
  intros k. rewrite <- Hv, <- (counted_get0 battles k). unfold Dict.get0.
  destruct (Dict.get (counted battles) k) as [v' |] eqn:E.
  - apply get_Some_In in E. apply (Hge _ E).
  - rewrite Hv. apply observed_nonneg.
Qed.

Lemma dominant_unique_count m m' battles :
  is_dominant m battles -> is_dominant m' battles ->
  observed m battles = observed m' battles.
Proof. intros H H'. specialize (H m'). specialize (H' m). lia. Qed.

(** The bias branch, read over the reference statistics. *)
Lemma bias_test_spec battles :
  exists m, is_dominant m battles /\
    bias_test battles =
    if Qgtb (chi_square_statistic battles) CHI_CRITICAL then
      if Qgtb (share m battles) EFFECT_FLOOR then
        Ok (Some (Bias m (py_min BIAS_CAP (share m battles)) (len battles)))
      else Ok None
    else Ok None.
Proof.
  destruct (max_item_counted battles) as [m [Hmax Hdom]].
  exists m. split; [exact Hdom |].
  unfold bias_test.
  pose proof (chi_square_is_statistic battles) as Hchi.
  fold (counted battles) in Hmax.
  unfold counted in Hmax.
  destruct (chi_square (move_counts battles) (fdiv (len battles) 3))
    as [chi counts'] eqn:E.
  simpl in Hchi, Hmax. subst chi.
  destruct (Qgtb (chi_square_statistic battles) CHI_CRITICAL); [| reflexivity].
  rewrite Hmax. simpl.
  assert (Hget : fst (Dict.getitem_default counts' m) = observed m battles).
  { rewrite getitem_default_fst. rewrite <- counted_get0. unfold counted.
    rewrite E. reflexivity. }
  destruct (Dict.getitem_default counts' m) as [cd d']. simpl in Hget. subst cd.
  reflexivity.
Qed.

Lemma bias_test_inv battles d :
  bias_test battles = Ok (Some d) ->
  exists m, d = Bias m (py_min BIAS_CAP (share m battles)) (len battles) /\
    is_dominant m battles /\
    (CHI_CRITICAL < chi_square_statistic battles)%Q /\
    (EFFECT_FLOOR < share m battles)%Q.
Proof.
  destruct (bias_test_spec battles) as [m [Hdom ->]].
  destruct (Qgtb (chi_square_statistic battles) CHI_CRITICAL) eqn:E1; [| discriminate].
  destruct (Qgtb (share m battles) EFFECT_FLOOR) eqn:E2; [| discriminate].
  intros [= <-]. exists m. repeat split; auto; apply Qgtb_gt; assumption.
Qed.

Lemma bias_test_accepts battles m :
  is_dominant m battles ->
  (CHI_CRITICAL < chi_square_statistic battles)%Q ->
  (EFFECT_FLOOR < share m battles)%Q ->
  exists m', is_dominant m' battles /\
    bias_test battles =
    Ok (Some (Bias m' (py_min BIAS_CAP (share m' battles)) (len battles))).
Proof.
  intros Hdom Hchi Hshare.
  destruct (bias_test_spec battles) as [m' [Hdom' ->]].
  exists m'. split; [exact Hdom' |].
  apply Qgtb_gt in Hchi. rewrite Hchi.
  assert (Hs : share m' battles = share m battles).
  { unfold share. rewrite (dominant_unique_count m' m battles); auto. }
  rewrite Hs. apply Qgtb_gt in Hshare. rewrite Hshare. reflexivity.
Qed.

Lemma bias_test_total battles : exists o, bias_test battles = Ok o.
Proof.
  destruct (bias_test_spec battles) as [m [_ ->]].
  destruct (Qgtb _ _); [destruct (Qgtb _ _) |]; eauto.
Qed.

Lemma gate_true count n :
  gate count n = true <->
  (fdiv n 3 < inject_Z count)%Q /\ (p_value count n < SIGNIFICANCE)%Q.
Proof.
  unfold gate. rewrite andb_true_iff, Qgtb_gt, Qltb_lt. reflexivity.
Qed.

Lemma reactive_test_inv battles d :
  reactive_test battles = Ok (Some d) ->
  20 <= len battles /\
  exists counter_count copy_count,
    transition_counts battles = Ok (counter_count, copy_count) /\
    let n := len battles - 1 in
    (gate counter_count n = true /\
     d = Counter (fdiv counter_count n) REACTIVE_CONFIDENCE (len battles)) \/
    (gate counter_count n = false /\ gate copy_count n = true /\
     d = Copier (fdiv copy_count n) REACTIVE_CONFIDENCE (len battles)).
Proof.
  unfold reactive_test.
  destruct (20 <=? len battles) eqn:Elen; [| discriminate].
  apply Z.leb_le in Elen. intros H. split; [exact Elen |].
  apply bind_Ok in H. destruct H as [[cc cp] [Htc H]].
  exists cc, cp. split; [exact Htc |].
  fold (p_value cc (len battles - 1)) in H.
  fold (p_value cp (len battles - 1)) in H.
  fold (gate cc (len battles - 1)) in H.
  fold (gate cp (len battles - 1)) in H.
  simpl.
  destruct (gate cc (len battles - 1)).
  - left. injection H as <-. auto.
  - destruct (gate cp (len battles - 1)); [| discriminate].
    right. injection H as <-. auto.
Qed.

Lemma reactive_test_not_bias battles m c n :
  reactive_test battles <> Ok (Some (Bias m c n)).
Proof.
  intros H. apply reactive_test_inv in H.
  destruct H as [_ [cc [cp [_ [[_ H] | [_ [_ H]]]]]]]; discriminate.
Qed.

Lemma detect_pattern_inv battles d :
  detect_pattern battles = Ok (Some d) ->
  MIN_SAMPLES <= len battles /\
  (bias_test battles = Ok (Some d) \/
   (bias_test battles = Ok None /\ reactive_test battles = Ok (Some d))).
Proof.
  unfold detect_pattern.
  destruct (len battles <? MIN_SAMPLES) eqn:E; [discriminate |].
  apply Z.ltb_ge in E. intros H. split; [exact E |].
  apply bind_Ok in H. destruct H as [[d' |] [Hb H]].
  - injection H as <-. left. exact Hb.
  - right. split; assumption.
Qed.

(** C1. The detector returns a bias detection exactly when the list has at
    least 15 battles, the chi-square statistic of the three move counts
    against the uniform expectation exceeds 5.991 and the share of a
    dominant move exceeds 0.45; the confidence it then reports is
    [min(0.9, share)] of the reported move, which is dominant. *)
Theorem bias_detection_iff (battles : list battle) :
  ((exists m c n, detect_pattern battles = Ok (Some (Bias m c n))) <->
   (MIN_SAMPLES <= len battles /\
    (CHI_CRITICAL < chi_square_statistic battles)%Q /\
    exists m, is_dominant m battles /\ (EFFECT_FLOOR < share m battles)%Q))
  /\
  (forall m c n, detect_pattern battles = Ok (Some (Bias m c n)) ->
     is_dominant m battles /\
     c = py_min BIAS_CAP (share m battles) /\
     (c == Qmin (9 # 10) (share m battles))%Q).
Proof.
  split; [split |].
  - intros [m [c [n H]]].
    apply detect_pattern_inv in H. destruct H as [Hlen [H | [_ H]]].
    + apply bias_test_inv in H. destruct H as [m' [_ [Hdom [Hchi Hshare]]]].
      eauto 6.
    + exfalso. exact (reactive_test_not_bias _ _ _ _ H).
  - intros [Hlen [Hchi [m [Hdom Hshare]]]].
    destruct (bias_test_accepts battles m Hdom Hchi Hshare) as [m' [_ Hb]].
    exists m', (py_min BIAS_CAP (share m' battles)), (len battles).
    unfold detect_pattern.
    apply Z.ltb_ge in Hlen. rewrite Hlen, Hb. reflexivity.
  - intros m c n H.
    apply detect_pattern_inv in H. destruct H as [_ [H | [_ H]]].
    + apply bias_test_inv in H. destruct H as [m' [Heq [Hdom _]]].
      injection Heq as -> -> _. repeat split; auto.
      apply py_min_Qmin.
    + exfalso. exact (reactive_test_not_bias _ _ _ _ H).
Qed.

Lemma bias_detection_iff_witness :
  MIN_SAMPLES <= len (all_rock 15) /\
  (CHI_CRITICAL < chi_square_statistic (all_rock 15))%Q /\
  is_dominant "rock" (all_rock 15) /\
  (9 # 10 == Qmin (9 # 10) (share "rock" (all_rock 15)))%Q.
Proof.
  assert (H : detect_pattern (all_rock 15) = Ok (Some (Bias "rock" (9 # 10) 15)))
    by reflexivity.
  destruct (bias_detection_iff (all_rock 15)) as [[Hiff _] Hconf].
  destruct (Hiff (ex_intro _ _ (ex_intro _ _ (ex_intro _ _ H))))
    as [Hlen [Hchi _]].
  destruct (Hconf _ _ _ H) as [Hdom [_ Hc]].
  repeat split; assumption.
Defined.

(** C2. With at least 20 battles, a counter (copier) detection is returned
    only when the counter (copy) transition count exceeds a third of the
    transitions and the one-sided binomial p-value against 1/3 is below
    0.05, always with confidence 0.7; a signal whose p-value is not below
    0.05 is never returned, whatever its rate. *)
Theorem reactive_detection_gated (battles : list battle) :
  20 <= len battles ->
  let n := len battles - 1 in
  (forall rate c k, detect_pattern battles = Ok (Some (Counter rate c k)) ->
     exists counter_count copy_count,
       transition_counts battles = Ok (counter_count, copy_count) /\
       (fdiv n 3 < inject_Z counter_count)%Q /\
       (p_value counter_count n < 5 # 100)%Q /\
       rate = fdiv counter_count n /\ c = 7 # 10) /\
  (forall rate c k, detect_pattern battles = Ok (Some (Copier rate c k)) ->
     exists counter_count copy_count,
       transition_counts battles = Ok (counter_count, copy_count) /\
       (fdiv n 3 < inject_Z copy_count)%Q /\
       (p_value copy_count n < 5 # 100)%Q /\
       rate = fdiv copy_count n /\ c = 7 # 10) /\
  (forall counter_count copy_count,
     transition_counts battles = Ok (counter_count, copy_count) ->
     (~ (p_value counter_count n < 5 # 100)%Q ->
      forall rate c k, detect_pattern battles <> Ok (Some (Counter rate c k))) /\
     (~ (p_value copy_count n < 5 # 100)%Q ->
      forall rate c k, detect_pattern battles <> Ok (Some (Copier rate c k)))).
Proof.
  intros Hlen n.
  assert (Hcounter : forall rate c k,
    detect_pattern battles = Ok (Some (Counter rate c k)) ->
    exists counter_count copy_count,
      transition_counts battles = Ok (counter_count, copy_count) /\
      (fdiv n 3 < inject_Z counter_count)%Q /\
      (p_value counter_count n < 5 # 100)%Q /\
      rate = fdiv counter_count n /\ c = 7 # 10).
  { intros rate c k H.
    apply detect_pattern_inv in H. destruct H as [_ [H | [_ H]]].
    - apply bias_test_inv in H. destruct H as [m [H _]]. discriminate.
    - apply reactive_test_inv in H.
      destruct H as [_ [cc [cp [Htc [[Hg H] | [_ [_ H]]]]]]]; [| discriminate].
      injection H as -> -> _. apply gate_true in Hg. destruct Hg as [Hg1 Hg2].
      exists cc, cp. repeat split; auto. }
  assert (Hcopier : forall rate c k,
    detect_pattern battles = Ok (Some (Copier rate c k)) ->
    exists counter_count copy_count,
      transition_counts battles = Ok (counter_count, copy_count) /\
      (fdiv n 3 < inject_Z copy_count)%Q /\
      (p_value copy_count n < 5 # 100)%Q /\
      rate = fdiv copy_count n /\ c = 7 # 10).
  { intros rate c k H.
    apply detect_pattern_inv in H. destruct H as [_ [H | [_ H]]].
    - apply bias_test_inv in H. destruct H as [m [H _]]. discriminate.
    - apply reactive_test_inv in H.
      destruct H as [_ [cc [cp [Htc [[_ H] | [_ [Hg H]]]]]]]; [discriminate |].
      injection H as -> -> _. apply gate_true in Hg. destruct Hg as [Hg1 Hg2].
      exists cc, cp. repeat split; auto. }
  split; [exact Hcounter | split; [exact Hcopier |]].
  intros cc cp Htc. split; intros Hp rate c k H.
  - destruct (Hcounter _ _ _ H) as [cc' [cp' [Htc' [_ [Hp' _]]]]].
    rewrite Htc in Htc'. injection Htc' as <- <-. exact (Hp Hp').
  - destruct (Hcopier _ _ _ H) as [cc' [cp' [Htc' [_ [Hp' _]]]]].
    rewrite Htc in Htc'. injection Htc' as <- <-. exact (Hp Hp').
Qed.

Lemma reactive_detection_gated_witness :
  (20 <= len countered_cycle /\
   exists counter_count copy_count,
     transition_counts countered_cycle = Ok (counter_count, copy_count) /\
     (fdiv 20 3 < inject_Z counter_count)%Q /\
     (p_value counter_count 20 < 5 # 100)%Q /\
     fdiv 20 20 = fdiv counter_count 20 /\ 7 # 10 = 7 # 10) /\
  (transition_counts half_countered = Ok (10, 0) /\
   (1 # 2 < fdiv 10 19)%Q /\
   forall rate c k,
     detect_pattern half_countered <> Ok (Some (Counter rate c k))).
Proof.
  assert (Hlen : 20 <= len countered_cycle) by (vm_compute; discriminate).
  assert (Hlen' : 20 <= len half_countered) by (vm_compute; discriminate).
  split; [split; [exact Hlen |] | split; [reflexivity | split; [reflexivity |]]].
  - destruct (reactive_detection_gated countered_cycle Hlen) as [H _].
    apply (H (fdiv 20 20) (7 # 10) 21). reflexivity.
  - destruct (reactive_detection_gated half_countered Hlen') as [_ [_ H]].
    destruct (H 10 0 eq_refl) as [H' _]. apply H'.
    vm_compute. discriminate.
Defined.

(** The exact tail of the binomial law: all of its mass lies at or above
    zero successes. *)
Lemma binom_test_greater_total :
  (binom_test_greater 0 19 (1 # 3) == 1)%Q /\
  (binom_test_greater 0 20 (1 # 3) == 1)%Q.
Proof. split; vm_compute; reflexivity. Qed.

(** *** A fixed opponent *)

Lemma observed_fixed m battles k :
  fixed_opponent m battles ->
  observed k battles = if String.eqb m k then len battles else 0.
Proof.
  unfold observed. induction 1 as [| b bs Hb _ IH]; simpl.
  - destruct (String.eqb m k); reflexivity.
  - rewrite count_token_cons, IH, Hb, len_cons.
    destruct (String.eqb m k); lia.
Qed.

Lemma chi_term_all (n : Z) :
  0 < n -> (chi_term n (fdiv n 3) == (4 # 3) * inject_Z n)%Q.
Proof.
  intros Hn. unfold chi_term, fdiv. simpl Qpower. field.
  apply inject_Z_nonzero. lia.
Qed.

Lemma chi_term_none (n : Z) :
  0 < n -> (chi_term 0 (fdiv n 3) == (1 # 3) * inject_Z n)%Q.
Proof.
  intros Hn. unfold chi_term, fdiv. simpl Qpower. field.
  apply inject_Z_nonzero. lia.
Qed.

Lemma fixed_statistic m battles :
  fixed_opponent m battles -> MIN_SAMPLES <= len battles ->
  (CHI_CRITICAL < chi_square_statistic battles)%Q.
Proof.
  intros Hfix Hlen. unfold MIN_SAMPLES in Hlen.
  assert (Hn : 0 < len battles) by lia.
  assert (Hq : (15 <= inject_Z (len battles))%Q).
  { replace 15%Q with (inject_Z 15) by reflexivity. rewrite <- Zle_Qle. exact Hlen. }
  pose proof (chi_term_all _ Hn) as Hall.
  pose proof (chi_term_none _ Hn) as Hnone.
  unfold chi_square_statistic, CHI_CRITICAL.
  rewrite !(observed_fixed m battles _ Hfix).
  destruct (String.eqb m "rock") eqn:Er;
    [apply String.eqb_eq in Er; subst m; simpl String.eqb |].
  { rewrite Hall, Hnone. lra. }
  destruct (String.eqb m "paper") eqn:Ep;
    [apply String.eqb_eq in Ep; subst m; simpl String.eqb |].
  { rewrite Hall, Hnone. lra. }
  destruct (String.eqb m "scissor") eqn:Es.
  { rewrite Hall, Hnone. lra. }
  rewrite Hnone. lra.
Qed.

Lemma fixed_share m battles :
  fixed_opponent m battles -> 0 < len battles -> (share m battles == 1)%Q.
Proof.
  intros Hfix Hn. unfold share.
  rewrite (observed_fixed m battles m Hfix), String.eqb_refl.
  apply fdiv_self. exact Hn.
Qed.

Lemma fixed_dominant m battles m' :
  fixed_opponent m battles -> 0 < len battles ->
  is_dominant m' battles -> m' = m.
Proof.
  intros Hfix Hn Hdom. specialize (Hdom m).
  rewrite !(observed_fixed m battles _ Hfix), String.eqb_refl in Hdom.
  destruct (String.eqb m m') eqn:E; [apply String.eqb_eq in E; congruence | lia].
Qed.

(** C3, as the code has it. Against an opponent that plays the same move
    on every turn, the detector reports nothing while it has seen fewer
    than 15 battles, and from 15 battles on it reports a bias detection
    for that move with confidence 0.9. *)
Theorem fixed_opponent_detected (m : string) (battles : list battle) :
  fixed_opponent m battles ->
  (len battles < 15 -> detect_pattern battles = Ok None) /\
  (15 <= len battles ->
   detect_pattern battles = Ok (Some (Bias m (9 # 10) (len battles)))).
Proof.
  intros Hfix. split; intros Hlen.
  - unfold detect_pattern, MIN_SAMPLES.
    apply Z.ltb_lt in Hlen. rewrite Hlen. reflexivity.
  - assert (Hn : 0 < len battles) by lia.
    pose proof (fixed_statistic m battles Hfix Hlen) as Hchi.
    pose proof (fixed_share m battles Hfix Hn) as Hshare.
    assert (Hdom : is_dominant m battles).
    { intros k. rewrite !(observed_fixed m battles _ Hfix), String.eqb_refl.
      destruct (String.eqb m k); lia. }
    assert (Hfloor : (EFFECT_FLOOR < share m battles)%Q).
    { rewrite Hshare. reflexivity. }
    destruct (bias_test_accepts battles m Hdom Hchi Hfloor) as [m' [Hdom' Hb]].
    rewrite (fixed_dominant m battles m' Hfix Hn Hdom') in Hb.
    unfold detect_pattern, MIN_SAMPLES.
    apply Z.ltb_ge in Hlen. rewrite Hlen, Hb. simpl.
    unfold py_min.
    assert (Hcap : Qltb (share m battles) BIAS_CAP = false).
    { apply Qltb_ge. rewrite Hshare. discriminate. }
    rewrite Hcap. reflexivity.
Qed.

Lemma fixed_opponent_detected_witness :
  detect_pattern (all_rock 20) = Ok (Some (Bias "rock" (9 # 10) 20)).
Proof.
  assert (Hfix : fixed_opponent "rock" (all_rock 20)).
  { unfold fixed_opponent, all_rock. apply Forall_forall.
    intros b Hb. apply repeat_spec in Hb. subst b. reflexivity. }
  apply (proj2 (fixed_opponent_detected "rock" (all_rock 20) Hfix)).
  vm_compute. discriminate.
Defined.

(** C3 as stated fails: after each of the first five turns against an
    opponent that always plays rock, the detector reports nothing. *)
Lemma fixed_opponent_not_detected_in_5 :
  fixed_opponent "rock" (all_rock 5) /\
  Forall (fun turns => detect_pattern (firstn turns (all_rock 5)) = Ok None)
         [1; 2; 3; 4; 5]%nat.
Proof.
  split.
  - repeat constructor.
  - repeat constructor.
Qed.

(** C10. One call returns at most one detection, and the bias branch is
    taken first: when the bias test accepts, its detection is the result,
    also when the reactive test on the same battles would accept; a counter
    or copier detection is returned only after the bias test has declined,
    and a copier detection only after the counter gate has declined too. *)
Theorem bias_checked_first :
  (forall battles d d',
     detect_pattern battles = Ok (Some d) ->
     detect_pattern battles = Ok (Some d') -> d = d') /\
  (forall battles d,
     MIN_SAMPLES <= len battles -> bias_test battles = Ok (Some d) ->
     detect_pattern battles = Ok (Some d) /\
     exists m c n, d = Bias m c n) /\
  (forall battles d,
     detect_pattern battles = Ok (Some d) ->
     (exists rate c n, d = Counter rate c n \/ d = Copier rate c n) ->
     bias_test battles = Ok None /\ reactive_test battles = Ok (Some d)) /\
  (forall battles rate c n,
     detect_pattern battles = Ok (Some (Copier rate c n)) ->
     exists counter_count copy_count,
       transition_counts battles = Ok (counter_count, copy_count) /\
       gate counter_count (len battles - 1) = false /\
       gate copy_count (len battles - 1) = true) /\
  (exists battles rate,
     reactive_test battles = Ok (Some (Counter rate (7 # 10) (len battles))) /\
     detect_pattern battles = Ok (Some (Bias "rock" (9 # 10) (len battles)))).
Proof.
  split; [| split; [| split; [| split]]].
  - intros battles d d' H H'. congruence.
  - intros battles d Hlen Hb. split.
    + unfold detect_pattern. apply Z.ltb_ge in Hlen. rewrite Hlen, Hb. reflexivity.
    + apply bias_test_inv in Hb. destruct Hb as [m [-> _]]. eauto.
  - intros battles d H [rate [c [n Hd]]].
    apply detect_pattern_inv in H. destruct H as [_ [H | H]]; [| exact H].
    apply bias_test_inv in H. destruct H as [m [-> _]].
    destruct Hd; discriminate.
  - intros battles rate c n H.
    apply detect_pattern_inv in H. destruct H as [_ [H | [_ H]]].
    + apply bias_test_inv in H. destruct H as [m [H _]]. discriminate.
    + apply reactive_test_inv in H.
      destruct H as [_ [cc [cp [Htc [[_ H] | [Hg [Hg' _]]]]]]]; [discriminate |].
      eauto.
  - exists (all_rock 20), (fdiv 19 19). split; reflexivity.
Qed.

Lemma bias_checked_first_witness :
  detect_pattern (all_rock 20) = Ok (Some (Bias "rock" (9 # 10) 20)) /\
  exists m c n, Bias "rock" (9 # 10) 20 = Bias m c n.
Proof.
  destruct bias_checked_first as [_ [H _]].
  apply (H (all_rock 20)).
  - vm_compute. discriminate.
  - reflexivity.
Defined.

End RobustFacts.

(** ** The Markov-order detectors *)

Module MarkovFacts.
Import Markov.

Lemma sum_values_from (d : Dict.t Z) : forall acc,
  fold_left (fun acc kv => acc + snd kv) d acc = acc + Dict.sum_values d.
Proof.
  unfold Dict.sum_values.
  induction d as [| kv d IH]; intros acc; simpl; [lia |].
  rewrite IH, (IH (snd kv)). lia.
Qed.

Lemma sum_values_cons (kv : string * Z) (d : Dict.t Z) :
  Dict.sum_values (kv :: d) = snd kv + Dict.sum_values d.
Proof. unfold Dict.sum_values at 1. simpl. apply sum_values_from. Qed.

Lemma sum_values_incr (d : Dict.t Z) (k : string) :
  Dict.sum_values (Dict.incr d k) = Dict.sum_values d + 1.
Proof.
  unfold Dict.incr, Dict.get0.
  induction d as [| [k' v'] d IH]; simpl.
  - reflexivity.
  - destruct (String.eqb k' k) eqn:E.
    + rewrite !sum_values_cons. simpl. lia.
    + rewrite !sum_values_cons, IH. simpl. lia.
Qed.

Lemma incr_nonempty (d : Dict.t Z) (k : string) : Dict.incr d k <> [].
Proof.
  unfold Dict.incr. destruct d as [| [k' v'] d]; simpl; [discriminate |].
  destruct (String.eqb k' k); discriminate.
Qed.

Lemma count_transitions_sum (rest : list string) : forall prev d,
  Dict.sum_values (count_transitions prev rest d) = Dict.sum_values d + len rest.
Proof.
  induction rest as [| curr rest IH]; intros prev d; simpl.
  - unfold len. simpl. lia.
  - rewrite IH, sum_values_incr, len_cons. lia.
Qed.

Lemma count_transitions_nonempty (rest : list string) : forall prev d,
  d <> [] \/ rest <> [] -> count_transitions prev rest d <> [].
Proof.
  induction rest as [| curr rest IH]; intros prev d H; simpl.
  - destruct H; congruence.
  - apply IH. left. apply incr_nonempty.
Qed.

(** The transition counts add up to the number of adjacent pairs. *)
Lemma transitions_total (battles : list string) :
  1 <= len battles ->
  Dict.sum_values (transitions_of battles) = len battles - 1.
Proof.
  destruct battles as [| prev rest]; unfold transitions_of.
  - unfold len. simpl. lia.
  - intros _. rewrite count_transitions_sum, len_cons.
    unfold Dict.sum_values. simpl. lia.
Qed.

Lemma transitions_nonempty (battles : list string) :
  2 <= len battles -> transitions_of battles <> [].
Proof.
  destruct battles as [| prev [| curr rest]]; unfold len; simpl; try lia.
  intros _. apply (count_transitions_nonempty rest curr). left.
  apply incr_nonempty.
Qed.

(** *** Keys of valid moves *)

Lemma append_assoc (a b c : string) : (a ++ b) ++ c = a ++ (b ++ c).
Proof. induction a as [| x a IH]; simpl; [reflexivity | rewrite IH; reflexivity]. Qed.

Lemma valid_move_cases (m : string) :
  valid_move m = true -> m = "rock" \/ m = "paper" \/ m = "scissor".
Proof.
  unfold valid_move. rewrite !orb_true_iff, !String.eqb_eq. tauto.
Qed.

(** No move is the beginning of another move followed by more text. *)
Lemma valid_append_inj (a a' s s' : string) :
  valid_move a = true -> valid_move a' = true ->
  a ++ s = a' ++ s' -> a = a' /\ s = s'.
Proof.
  intros Ha Ha' H.
  destruct (valid_move_cases a Ha) as [-> | [-> | ->]];
    destruct (valid_move_cases a' Ha') as [-> | [-> | ->]];
    simpl in H; try discriminate H; injection H as H; auto.
Qed.

Lemma pair_key_inj (p q : string * string) :
  valid_move (fst p) = true -> valid_move (fst q) = true ->
  pair_key p = pair_key q -> p = q.
Proof.
  destruct p as [a b], q as [a' b']. unfold pair_key, transition_key. simpl.
  intros Ha Ha' H.
  destruct (valid_append_inj _ _ _ _ Ha Ha' H) as [-> H'].
  injection H' as ->. reflexivity.
Qed.

Lemma gram_key_flat (a b c d : string) :
  gram_key (a, b, c, d) =
  a ++ String "-" (b ++ String "-" (c ++ String "-" (String ">" d))).
Proof.
  unfold gram_key, transition_key, context_key.
  rewrite append_assoc. simpl. rewrite append_assoc. simpl. reflexivity.
Qed.

Lemma gram_key_inj (g h : gram) :
  valid_gram g = true -> valid_gram h = true ->
  gram_key g = gram_key h -> g = h.
Proof.
  destruct g as [[[a b] c] d], h as [[[a' b'] c'] d'].
  unfold valid_gram. rewrite !andb_true_iff.
  intros [[[Ha Hb] Hc] _] [[[Ha' Hb'] Hc'] _] H.
  rewrite !gram_key_flat in H.
  destruct (valid_append_inj _ _ _ _ Ha Ha' H) as [-> H1].
  injection H1 as H1.
  destruct (valid_append_inj _ _ _ _ Hb Hb' H1) as [-> H2].
  injection H2 as H2.
  destruct (valid_append_inj _ _ _ _ Hc Hc' H2) as [-> H3].
  injection H3 as ->. reflexivity.
Qed.

Lemma same_pair_eq (p q : string * string) : same_pair p q = true <-> p = q.
Proof.
  destruct p as [a b], q as [a' b']. unfold same_pair. simpl.
  rewrite andb_true_iff, !String.eqb_eq.
  split; [intros [-> ->]; reflexivity | intros [= -> ->]; auto].
Qed.

Lemma same_context_eq (g h : gram) :
  same_context g h = true <-> fst g = fst h.
Proof.
  destruct g as [[[a b] c] d], h as [[[a' b'] c'] d']. unfold same_context. simpl.
  rewrite !andb_true_iff, !String.eqb_eq.
  split; [intros [[-> ->] ->]; reflexivity | intros [= -> -> ->]; auto].
Qed.

Lemma same_gram_eq (g h : gram) : same_gram g h = true <-> g = h.
Proof.
  unfold same_gram. rewrite andb_true_iff, same_context_eq, String.eqb_eq.
  destruct g as [x d], h as [x' d']. simpl.
  split; [intros [-> ->]; reflexivity | intros [= -> ->]; auto].
Qed.

Lemma pair_key_eqb (p q : string * string) :
  valid_move (fst p) = true -> valid_move (fst q) = true ->
  String.eqb (pair_key q) (pair_key p) = same_pair p q.
Proof.
  intros Hp Hq. destruct (same_pair p q) eqn:E.
  - apply same_pair_eq in E. subst q. apply String.eqb_refl.
  - apply String.eqb_neq. intros H. apply pair_key_inj in H; auto.
    subst q. assert (Ht : same_pair p p = true) by (apply same_pair_eq; reflexivity).
    congruence.
Qed.

Lemma gram_key_eqb (g h : gram) :
  valid_gram g = true -> valid_gram h = true ->
  String.eqb (gram_key h) (gram_key g) = same_gram g h.
Proof.
  intros Hg Hh. destruct (same_gram g h) eqn:E.
  - apply same_gram_eq in E. subst h. apply String.eqb_refl.
  - apply String.eqb_neq. intros H. apply gram_key_inj in H; auto.
    subst h. assert (Ht : same_gram g g = true) by (apply same_gram_eq; reflexivity).
    congruence.
Qed.

Lemma prefix_app (x y : string) :
  String.prefix x y = true <-> exists s, y = x ++ s.
Proof.
  revert y. induction x as [| c x IH]; intros y.
  - split; [intros _; exists y; reflexivity | intros _; destruct y; reflexivity].
  - destruct y as [| c' y]; simpl;
      [split; [discriminate | intros [s H]; discriminate] |].
    destruct (Ascii.ascii_dec c c') as [-> | Hne].
    + rewrite IH. split; intros [s H]; exists s; [rewrite H; reflexivity |].
      injection H as ->. reflexivity.
    + split; [discriminate |]. intros [s H]. injection H as H _. congruence.
Qed.

(** On keys of valid moves, [startswith(context)] selects the windows of
    that context. *)
Lemma context_prefix (g h : gram) :
  valid_gram g = true -> valid_gram h = true ->
  String.prefix (split_head (gram_key g)) (gram_key h) = same_context g h.
Proof.
  intros Hg Hh.
  assert (Hhead : split_head (gram_key g) =
                  let '(a, b, c, _) := g in context_key a b c).
  { destruct g as [[[a b] c] d]. unfold valid_gram in Hg.
    rewrite !andb_true_iff in Hg. destruct Hg as [[[Ha Hb] Hc] _].
    destruct (valid_move_cases a Ha) as [-> | [-> | ->]];
      destruct (valid_move_cases b Hb) as [-> | [-> | ->]];
      destruct (valid_move_cases c Hc) as [-> | [-> | ->]];
      destruct d; reflexivity. }
  rewrite Hhead.
  destruct g as [[[a b] c] d], h as [[[a' b'] c'] d'].
  unfold valid_gram in Hg, Hh. rewrite !andb_true_iff in Hg, Hh.
  destruct Hg as [[[Ha Hb] Hc] _], Hh as [[[Ha' Hb'] Hc'] _].
  destruct (same_context (a, b, c, d) (a', b', c', d')) eqn:E.
  - apply same_context_eq in E. simpl in E. injection E as <- <- <-.
    apply prefix_app. exists ("->" ++ d'). reflexivity.
  - destruct (String.prefix (context_key a b c) (gram_key (a', b', c', d'))) eqn:P;
      [| reflexivity].
    apply prefix_app in P. destruct P as [s P].
    rewrite gram_key_flat in P. unfold context_key in P.
    rewrite append_assoc in P. simpl in P. rewrite append_assoc in P. simpl in P.
    symmetry in P.
    destruct (valid_append_inj _ _ _ _ Ha Ha' P) as [-> P1].
    injection P1 as P1.
    destruct (valid_append_inj _ _ _ _ Hb Hb' P1) as [-> P2].
    injection P2 as P2.
    destruct (valid_append_inj _ _ _ _ Hc Hc' P2) as [-> _].
    assert (Ht : same_context (a', b', c', d) (a', b', c', d') = true)
      by (apply same_context_eq; reflexivity).
    congruence.
Qed.

(** *** The dictionaries as tallies of pairs and windows *)

Lemma count_transitions_tally (rest : list string) : forall prev d,
  count_transitions prev rest d =
  fold_left Dict.incr (map pair_key (pairs_from prev rest)) d.
Proof.
  induction rest as [| curr rest IH]; intros prev d; simpl; [reflexivity |].
  apply IH.
Qed.

Lemma count_patterns_tally (rest : list string) : forall a b c d,
  count_patterns a b c rest d =
  fold_left Dict.incr (map gram_key (grams_from a b c rest)) d.
Proof.
  induction rest as [| x rest IH]; intros a b c d; simpl; [reflexivity |].
  apply IH.
Qed.

Lemma transitions_tally (battles : list string) :
  transitions_of battles = fold_left Dict.incr (map pair_key (pairs_of battles)) [].
Proof.
  destruct battles as [| prev rest]; [reflexivity |].
  apply count_transitions_tally.
Qed.

Lemma patterns_tally (battles : list string) :
  patterns_of battles = fold_left Dict.incr (map gram_key (grams_of battles)) [].
Proof.
  destruct battles as [| a [| b [| c rest]]]; try reflexivity.
  apply count_patterns_tally.
Qed.

Lemma pairs_from_valid (rest : list string) : forall prev,
  valid_move prev = true -> moves_valid rest ->
  Forall (fun p => valid_pair p = true) (pairs_from prev rest).
Proof.
  induction rest as [| curr rest IH]; intros prev Hp Hrest; simpl; constructor.
  - inversion Hrest; subst. unfold valid_pair. simpl.
    apply andb_true_iff. split; assumption.
  - inversion Hrest; subst. apply IH; assumption.
Qed.

Lemma pairs_valid (battles : list string) :
  moves_valid battles -> Forall (fun p => valid_pair p = true) (pairs_of battles).
Proof.
  destruct battles as [| prev rest]; intros H; [constructor |].
  inversion H; subst. apply pairs_from_valid; assumption.
Qed.

Lemma grams_from_valid (rest : list string) : forall a b c,
  valid_move a = true -> valid_move b = true -> valid_move c = true ->
  moves_valid rest ->
  Forall (fun g => valid_gram g = true) (grams_from a b c rest).
Proof.
  induction rest as [| d rest IH]; intros a b c Ha Hb Hc Hrest; simpl; constructor.
  - inversion Hrest; subst. unfold valid_gram.
    rewrite !andb_true_iff. auto.
  - inversion Hrest; subst. apply IH; assumption.
Qed.

Lemma grams_valid (battles : list string) :
  moves_valid battles -> Forall (fun g => valid_gram g = true) (grams_of battles).
Proof.
  destruct battles as [| a [| b [| c rest]]]; intros H; try constructor.
  inversion H as [| ? ? Ha H1]; subst.
  inversion H1 as [| ? ? Hb H2]; subst.
  inversion H2 as [| ? ? Hc H3]; subst.
  apply grams_from_valid; assumption.
Qed.

Lemma count_token_map {A : Type} (f : A -> string) (same : A -> A -> bool)
    (x : A) (l : list A) :
  (forall y, In y l -> String.eqb (f y) (f x) = same x y) ->
  count_token (f x) (map f l) = len (filter (same x) l).
Proof.
  induction l as [| y l IH]; intros H; simpl.
  - reflexivity.
  - rewrite count_token_cons, IH by (intros z Hz; apply H; right; exact Hz).
    rewrite (H y) by (left; reflexivity).
    destruct (same x y); [rewrite len_cons |]; lia.
Qed.

Lemma filter_map_len {A : Type} (f : A -> string) (test : string -> bool)
    (l : list A) :
  len (filter test (map f l)) = len (filter (fun y => test (f y)) l).
Proof.
  induction l as [| y l IH]; simpl; [reflexivity |].
  destruct (test (f y)); [rewrite !len_cons |]; lia.
Qed.

Lemma filter_positive {A : Type} (test : A -> bool) (l : list A) :
  0 < len (filter test l) -> exists y, In y l /\ test y = true.
Proof.
  destruct (filter test l) as [| y l'] eqn:E; [unfold len; simpl; lia |].
  intros _. exists y. apply filter_In. rewrite E. left. reflexivity.
Qed.

Lemma valid_pair_fst (p : string * string) :
  valid_pair p = true -> valid_move (fst p) = true.
Proof. unfold valid_pair. rewrite andb_true_iff. tauto. Qed.

(** The stored transitions are the pairs that occur, with their counts. *)
Lemma transitions_entries (battles : list string) (k : string) (v : Z) :
  moves_valid battles ->
  (In (k, v) (transitions_of battles) <->
   exists p, In p (pairs_of battles) /\ k = pair_key p /\
             v = pair_count p battles).
Proof.
  intros Hv. pose proof (pairs_valid battles Hv) as Hp.
  rewrite Forall_forall in Hp.
  rewrite transitions_tally, tally_In, in_map_iff.
  assert (Hcount : forall p, In p (pairs_of battles) ->
            count_token (pair_key p) (map pair_key (pairs_of battles))
            = pair_count p battles).
  { intros p Hin. apply count_token_map. intros q Hq.
    apply pair_key_eqb; apply valid_pair_fst, Hp; assumption. }
  split.
  - intros [[p [<- Hin]] ->]. exists p. rewrite Hcount by exact Hin. auto.
  - intros [p [Hin [-> ->]]]. rewrite Hcount by exact Hin. eauto.
Qed.

(** The stored patterns are the windows that occur, with their counts. *)
Lemma patterns_entries (battles : list string) (k : string) (v : Z) :
  moves_valid battles ->
  (In (k, v) (patterns_of battles) <->
   exists g, In g (grams_of battles) /\ k = gram_key g /\
             v = gram_count g battles).
Proof.
  intros Hv. pose proof (grams_valid battles Hv) as Hg.
  rewrite Forall_forall in Hg.
  rewrite patterns_tally, tally_In, in_map_iff.
  assert (Hcount : forall g, In g (grams_of battles) ->
            count_token (gram_key g) (map gram_key (grams_of battles))
            = gram_count g battles).
  { intros g Hin. apply count_token_map. intros h Hh.
    apply gram_key_eqb; apply Hg; assumption. }
  split.
  - intros [[g [<- Hin]] ->]. exists g. rewrite Hcount by exact Hin. auto.
  - intros [g [Hin [-> ->]]]. rewrite Hcount by exact Hin. eauto.
Qed.

(** The support the scan computes for a stored window is the number of
    windows with the same context. *)
Lemma support_spec (battles : list string) (g : gram) (v : Z) :
  moves_valid battles -> In g (grams_of battles) ->
  support (patterns_of battles) (gram_key g, v) = gram_support g battles.
Proof.
  intros Hv Hin. pose proof (grams_valid battles Hv) as Hg.
  rewrite Forall_forall in Hg.
  unfold support, context_total, gram_support. simpl fst.
  rewrite patterns_tally, sum_where_tally, filter_map_len.
  unfold Dict.sum_where. simpl.
  f_equal. apply filter_ext_in. intros h Hh.
  apply context_prefix; apply Hg; assumption.
Qed.

(** *** The scan of [detect_markov_3] *)

Lemma scan_pattern_step (P : Dict.t Z) (st : option string * Q) (item : string * Z) :
  let st' := scan_pattern P st item in
  (snd st <= snd st')%Q /\
  (MIN_CONTEXT <= support P item -> (ratio P item <= snd st')%Q) /\
  (st' = st \/
   (MIN_CONTEXT <= support P item /\ st' = (Some (fst item), ratio P item))).
Proof.
  unfold scan_pattern. fold (support P item). fold (ratio P item).
  destruct (MIN_CONTEXT <=? support P item) eqn:E.
  - apply Z.leb_le in E.
    destruct (Qgtb (ratio P item) (snd st)) eqn:G; simpl.
    + apply Qgtb_gt in G. repeat split; [lra | intros _; lra | right; auto].
    + apply Qgtb_le in G. repeat split; [lra | intros _; exact G | left; auto].
  - apply Z.leb_gt in E. simpl. repeat split; [lra | lia | left; auto].
Qed.

Lemma scan_fold (P : Dict.t Z) (l : list (string * Z)) :
  forall st : option string * Q,
  let st' := fold_left (scan_pattern P) l st in
  (snd st <= snd st')%Q /\
  (forall item, In item l -> MIN_CONTEXT <= support P item ->
                (ratio P item <= snd st')%Q) /\
  (st' = st \/
   exists item, In item l /\ MIN_CONTEXT <= support P item /\
                st' = (Some (fst item), ratio P item)).
Proof.
  induction l as [| x l IH]; intros st; simpl.
  - repeat split; [lra | intros ? [] | left; reflexivity].
  - destruct (scan_pattern_step P st x) as [H1 [H2 H3]].
    destruct (IH (scan_pattern P st x)) as [I1 [I2 I3]].
    repeat split.
    + lra.
    + intros item [<- | Hin] Hsup.
      * specialize (H2 Hsup). lra.
      * apply I2; assumption.
    + destruct I3 as [I3 | [item [Hin [Hsup I3]]]].
      * rewrite I3. destruct H3 as [H3 | [Hsup H3]]; [left; exact H3 |].
        right. exists x. auto.
      * right. exists item. auto.
Qed.

Lemma best_pattern_spec (P : Dict.t Z) :
  let st := best_pattern_of P in
  (forall item, eligible P item -> (ratio P item <= snd st)%Q) /\
  (st = (None, 0%Q) \/
   exists item, eligible P item /\ st = (Some (fst item), ratio P item)).
Proof.
  unfold best_pattern_of, eligible.
  destruct (scan_fold P P (None, 0%Q)) as [_ [H2 H3]].
  split.
  - intros item [Hin Hsup]. apply H2; assumption.
  - destruct H3 as [H3 | [item [Hin [Hsup H3]]]]; [left; exact H3 |].
    right. exists item. auto.
Qed.

(** The order-1 detector compares the share of the first most frequent
    stored transition with 0.4. *)
Lemma detect_markov_1_spec (battles : list string) :
  10 <= len battles ->
  exists key count,
    In (key, count) (transitions_of battles) /\
    (forall kv, In kv (transitions_of battles) -> snd kv <= count) /\
    detect_markov_1 battles =
    if Qgtb (fdiv count (len battles - 1)) MARKOV1_THRESHOLD
    then Ok (Some {| transition := key; occurrences := count;
                     total_transitions := len battles - 1 |})
    else Ok None.
Proof.
  intros Hlen.
  assert (Hne : transitions_of battles <> []) by (apply transitions_nonempty; lia).
  destruct (max_item_nonempty _ Hne) as [[key count] Hmax].
  destruct (max_item_spec _ _ Hmax) as [Hin Hge].
  exists key, count. split; [exact Hin | split; [exact Hge |]].
  unfold detect_markov_1.
  assert (Hlt : (len battles <? 10) = false) by (apply Z.ltb_ge; lia).
  rewrite Hlt, Hmax. simpl.
  rewrite transitions_total by lia. reflexivity.
Qed.

(** What the order-3 detector reports is a stored pattern with enough
    support whose ratio exceeds 0.6 and is the highest. *)
Lemma detect_markov_3_inv (battles : list string) (best : option string) (r : Q) :
  detect_markov_3 battles = Some (best, r) ->
  30 <= len battles /\ (6 # 10 < r)%Q /\
  exists item,
    best = Some (fst item) /\ eligible (patterns_of battles) item /\
    r = ratio (patterns_of battles) item /\
    forall item', eligible (patterns_of battles) item' ->
                  (ratio (patterns_of battles) item' <= r)%Q.
Proof.
  unfold detect_markov_3.
  destruct (len battles <? 30) eqn:Hlen; [discriminate |].
  apply Z.ltb_ge in Hlen.
  destruct (best_pattern_spec (patterns_of battles)) as [Hmax Hst].
  destruct (best_pattern_of (patterns_of battles)) as [bp br].
  destruct (Qgtb br MARKOV3_THRESHOLD) eqn:G; [| discriminate].
  intros [= <- <-]. apply Qgtb_gt in G. unfold MARKOV3_THRESHOLD in G.
  split; [exact Hlen | split; [exact G |]].
  destruct Hst as [Hst | [item [Hel Hst]]].
  - injection Hst as _ ->. exfalso. revert G. apply Qle_not_lt. discriminate.
  - injection Hst as -> ->. exists item. auto.
Qed.

Lemma detect_markov_3_reports (battles : list string) (item : string * Z) :
  30 <= len battles -> eligible (patterns_of battles) item ->
  (6 # 10 < ratio (patterns_of battles) item)%Q ->
  detect_markov_3 battles <> None.
Proof.
  intros Hlen Hel Hr. unfold detect_markov_3.
  assert (Hlt : (len battles <? 30) = false) by (apply Z.ltb_ge; lia).
  rewrite Hlt.
  destruct (best_pattern_spec (patterns_of battles)) as [Hmax _].
  specialize (Hmax item Hel).
  destruct (best_pattern_of (patterns_of battles)) as [bp br].
  simpl in Hmax.
  assert (G : Qgtb br MARKOV3_THRESHOLD = true).
  { apply Qgtb_gt. unfold MARKOV3_THRESHOLD. lra. }
  rewrite G. discriminate.
Qed.

Lemma pair_count_max (battles : list string) (p q : string * string) :
  moves_valid battles ->
  (forall kv, In kv (transitions_of battles) -> snd kv <= pair_count p battles) ->
  pair_count q battles <= pair_count p battles.
Proof.
  intros Hv Hge.
  destruct (Z_lt_le_dec 0 (pair_count q battles)) as [Hpos | Hzero].
  - apply filter_positive in Hpos. destruct Hpos as [y [Hin Hy]].
    apply same_pair_eq in Hy. subst y.
    apply (Hge (pair_key q, pair_count q battles)).
    apply transitions_entries; [exact Hv | eauto].
  - pose proof (len_nonneg (filter (same_pair p) (pairs_of battles))).
    unfold pair_count in *. lia.
Qed.

(** C4, as the code has it. Neither detector reports on a short sequence
    (fewer than 10 moves for order 1, fewer than 30 for order 3). With at
    least 10 moves the order-1 detector takes a most frequent transition and
    reports it exactly when its share of all transitions exceeds 0.4; the
    occurrences of its context and the conditional probability play no
    part. The order-3 detector reports a four-move window only when its
    three-move context occurs at least 5 times and its conditional ratio
    exceeds 0.6 and is the highest among the windows whose context occurs at
    least 5 times, and it does report whenever some such window has a ratio
    above 0.6. *)
Theorem markov_detectors :
  (forall battles, len battles < 10 -> detect_markov_1 battles = Ok None) /\
  (forall battles, len battles < 30 -> detect_markov_3 battles = None) /\
  (forall battles, 10 <= len battles -> moves_valid battles ->
     exists p,
       In p (pairs_of battles) /\
       (forall q, pair_count q battles <= pair_count p battles) /\
       let total := len battles - 1 in
       ((4 # 10 < fdiv (pair_count p battles) total)%Q ->
        detect_markov_1 battles =
        Ok (Some {| transition := pair_key p;
                    occurrences := pair_count p battles;
                    total_transitions := total |})) /\
       ((fdiv (pair_count p battles) total <= 4 # 10)%Q ->
        detect_markov_1 battles = Ok None)) /\
  (forall battles best r,
     moves_valid battles -> detect_markov_3 battles = Some (best, r) ->
     30 <= len battles /\ (6 # 10 < r)%Q /\
     exists g,
       In g (grams_of battles) /\ best = Some (gram_key g) /\
       5 <= gram_support g battles /\ r = gram_ratio g battles /\
       forall h, In h (grams_of battles) -> 5 <= gram_support h battles ->
                 (gram_ratio h battles <= r)%Q) /\
  (forall battles g,
     moves_valid battles -> 30 <= len battles ->
     In g (grams_of battles) -> 5 <= gram_support g battles ->
     (6 # 10 < gram_ratio g battles)%Q ->
     detect_markov_3 battles <> None).
Proof.
  split; [| split; [| split; [| split]]].
  - intros battles H. unfold detect_markov_1.
    apply Z.ltb_lt in H. rewrite H. reflexivity.
  - intros battles H. unfold detect_markov_3.
    apply Z.ltb_lt in H. rewrite H. reflexivity.
  - intros battles Hlen Hv.
    destruct (detect_markov_1_spec battles Hlen) as [key [count [Hin [Hge Hd]]]].
    apply (transitions_entries battles key count Hv) in Hin.
    destruct Hin as [p [Hp [-> ->]]].
    exists p. split; [exact Hp |].
    split; [intros q; apply pair_count_max; assumption |].
    simpl. rewrite Hd. unfold MARKOV1_THRESHOLD.
    split; intros H.
    + apply Qgtb_gt in H. rewrite H. reflexivity.
    + apply Qgtb_le in H. rewrite H. reflexivity.
  - intros battles best r Hv H.
    apply detect_markov_3_inv in H.
    destruct H as [Hlen [Hr [[k v] [Hbest [[Hin Hsup] [Hratio Hmax]]]]]].
    split; [exact Hlen | split; [exact Hr |]].
    apply (patterns_entries battles k v Hv) in Hin.
    destruct Hin as [g [Hg [-> ->]]].
    exists g. split; [exact Hg | split; [exact Hbest |]].
    unfold MIN_CONTEXT in Hsup.
    rewrite (support_spec battles g _ Hv Hg) in Hsup.
    split; [exact Hsup |].
    assert (Hrg : ratio (patterns_of battles) (gram_key g, gram_count g battles)
                  = gram_ratio g battles).
    { unfold ratio. rewrite (support_spec battles g _ Hv Hg). reflexivity. }
    split; [rewrite Hratio; exact Hrg |].
    intros h Hh Hsh.
    assert (Hrh : ratio (patterns_of battles) (gram_key h, gram_count h battles)
                  = gram_ratio h battles).
    { unfold ratio. rewrite (support_spec battles h _ Hv Hh). reflexivity. }
    rewrite <- Hrh. apply Hmax. split.
    + apply patterns_entries; [exact Hv | eauto].
    + unfold MIN_CONTEXT. rewrite (support_spec battles h _ Hv Hh). exact Hsh.
  - intros battles g Hv Hlen Hg Hsup Hr.
    apply (detect_markov_3_reports battles (gram_key g, gram_count g battles)).
    + exact Hlen.
    + split.
      * apply patterns_entries; [exact Hv | eauto].
      * unfold MIN_CONTEXT. rewrite (support_spec battles g _ Hv Hg). exact Hsup.
    + unfold ratio. rewrite (support_spec battles g _ Hv Hg). exact Hr.
Qed.

Lemma markov_detectors_witness :
  (exists p,
     In p (pairs_of rock_paper_10) /\
     (forall q, pair_count q rock_paper_10 <= pair_count p rock_paper_10) /\
     ((4 # 10 < fdiv (pair_count p rock_paper_10) 9)%Q ->
      detect_markov_1 rock_paper_10 =
      Ok (Some {| transition := pair_key p;
                  occurrences := pair_count p rock_paper_10;
                  total_transitions := 9 |})) /\
     ((fdiv (pair_count p rock_paper_10) 9 <= 4 # 10)%Q ->
      detect_markov_1 rock_paper_10 = Ok None)) /\
  (30 <= len cycle_30 /\ (6 # 10 < 9 # 9)%Q).
Proof.
  destruct markov_detectors as [_ [_ [H1 [H3 _]]]].
  split.
  - apply (H1 rock_paper_10).
    + vm_compute. discriminate.
    + unfold moves_valid, rock_paper_10. repeat constructor.
  - destruct (H3 cycle_30 (Some "rock-paper-scissor->rock") (9 # 9))
      as [Hlen [Hr _]].
    + unfold moves_valid, cycle_30. simpl. repeat constructor.
    + reflexivity.
    + split; assumption.
Defined.

(** C4 as stated fails for the order-1 detector. It reports the transition
    rock->paper of [rock_paper_10] although the context rock occurs only
    4 times; and in [rock_paper_13] it reports rock->paper, which follows
    rock 5 times out of 7, although rock follows paper 5 times out of 5. *)
Lemma markov1_ignores_context_support :
  (detect_markov_1 rock_paper_10 =
     Ok (Some {| transition := "rock->paper"; occurrences := 4;
                 total_transitions := 9 |}) /\
   context_count "rock" rock_paper_10 = 4 /\ 4 < MIN_CONTEXT) /\
  (detect_markov_1 rock_paper_13 =
     Ok (Some {| transition := "rock->paper"; occurrences := 5;
                 total_transitions := 12 |}) /\
   pair_count ("rock", "paper") rock_paper_13 = 5 /\
   context_count "rock" rock_paper_13 = 7 /\
   pair_count ("paper", "rock") rock_paper_13 = 5 /\
   context_count "paper" rock_paper_13 = 5).
Proof. repeat split. Qed.

End MarkovFacts.

(** ** Move distributions *)

Module DistributionFacts.

Lemma valid_count_cons (m : string) (moves : list string) :
  valid_count (m :: moves) =
  (if valid_move m then 1 else 0) + valid_count moves.
Proof.
  unfold valid_count, valid_move. rewrite !count_token_cons.
  destruct (String.eqb m "rock") eqn:Er, (String.eqb m "paper") eqn:Ep,
    (String.eqb m "scissor") eqn:Es;
    cbv beta iota delta [orb]; try lia;
    rewrite ?String.eqb_eq in *; congruence.
Qed.

Lemma valid_count_bounds (moves : list string) :
  0 <= valid_count moves <= len moves.
Proof.
  induction moves as [| m moves IH].
  - unfold valid_count, count_token, len. simpl. lia.
  - rewrite valid_count_cons, len_cons. destruct (valid_move m); lia.
Qed.

Lemma valid_count_full (moves : list string) :
  valid_count moves = len moves <-> forallb valid_move moves = true.
Proof.
  induction moves as [| m moves IH].
  - unfold valid_count, count_token, len. simpl. tauto.
  - rewrite valid_count_cons, len_cons. simpl forallb.
    pose proof (valid_count_bounds moves) as Hb.
    destruct (valid_move m); cbv beta iota delta [andb].
    + rewrite <- IH. lia.
    + split; [lia | discriminate].
Qed.

Lemma frequencies_sum (moves : list string) :
  0 < len moves ->
  (distribution_sum (frequencies moves) == fdiv (valid_count moves) (len moves))%Q.
Proof.
  intros Hn. unfold distribution_sum, frequencies, valid_count, fdiv. simpl.
  rewrite !inject_Z_plus. field. apply inject_Z_nonzero. lia.
Qed.


(** C5, as the code has it. On the empty list both versions of
    [get_distribution] return a fixed distribution that sums to 1 and is
    uniform only up to rounding: 0.33, 0.33, 0.34 in
    [analyze_enemy_patterns], 0.333, 0.333, 0.334 in
    [analyze_enemy_behavior]; every entry is within 0.01 of 1/3. *)
Theorem empty_distribution_near_uniform :
  Patterns.get_distribution [] =
    {| rock := 33 # 100; paper := 33 # 100; scissor := 34 # 100 |} /\
  Behavior.get_distribution [] =
    {| rock := 333 # 1000; paper := 333 # 1000; scissor := 334 # 1000 |} /\
  (distribution_sum (Patterns.get_distribution []) == 1)%Q /\
  (distribution_sum (Behavior.get_distribution []) == 1)%Q /\
  Forall (fun d =>
            (Qabs (rock d - (1 # 3)) < 1 # 100)%Q /\
            (Qabs (paper d - (1 # 3)) < 1 # 100)%Q /\
            (Qabs (scissor d - (1 # 3)) < 1 # 100)%Q)
         [Patterns.get_distribution []; Behavior.get_distribution []].
Proof.
  repeat split; repeat constructor.
Qed.

(** C5 as stated fails: no entry of the empty-list distribution is 1/3. *)
Lemma empty_distribution_not_uniform :
  (rock (Patterns.get_distribution []) < 1 # 3)%Q /\
  (paper (Patterns.get_distribution []) < 1 # 3)%Q /\
  (1 # 3 < scissor (Patterns.get_distribution []))%Q /\
  (rock (Behavior.get_distribution []) < 1 # 3)%Q /\
  (paper (Behavior.get_distribution []) < 1 # 3)%Q /\
  (1 # 3 < scissor (Behavior.get_distribution []))%Q.
Proof. repeat split. Qed.




End DistributionFacts.

(** ** Loops over adjacent battles *)

Section AdjacentFacts.

Context {S : Type} (body : S -> row -> row -> res S).





End AdjacentFacts.

Lemma counter_map_valid (m : string) :
  valid_move m = true -> exists c, counter_map m = Ok c.
Proof.
  unfold valid_move, counter_map.
  destruct (String.eqb m "rock"); [eauto |].
  destruct (String.eqb m "paper"); [eauto |].
  destruct (String.eqb m "scissor"); [eauto | discriminate].
Qed.

Lemma opposite_map_valid (m : string) :
  valid_move m = true -> exists o, opposite_map m = Ok o.
Proof.
  unfold valid_move, opposite_map.
  destruct (String.eqb m "rock"); [eauto |].
  destruct (String.eqb m "paper"); [eauto |].
  destruct (String.eqb m "scissor"); [eauto | discriminate].
Qed.

(** ** Reactive analysis per enemy *)

Module DeeperReactiveFacts.
Import DeeperReactive.




Lemma body_ok (t : tally) (prev cur : row) :
  valid_move (player_move prev) = true -> exists t', body t prev cur = Ok t'.
Proof.
  intros Hv. unfold body, react.
  destruct (counter_map_valid _ Hv) as [c ->].
  destruct (opposite_map_valid _ Hv) as [o ->]. simpl.
  destruct (String.eqb (enemy_move cur) c); simpl; [eauto |].
  destruct (String.eqb (enemy_move cur) (player_move prev)); simpl; [eauto |].
  destruct (String.eqb (enemy_move cur) o); simpl; eauto.
Qed.








(** C8 as stated fails: of 28 transitions the enemy counters 9, copies 18
    and plays the opposite once; the three rates recorded, floats, add up
    to more than 1, both as numbers and when added as floats. *)
Lemma rates_sum_above_one :
  our_moves_valid nine_eighteen_one /\ len nine_eighteen_one = 29 /\
  exists e,
    analyze nine_eighteen_one = Ok (Some e) /\
    counter_rate e = Float64.ratio 9 28 /\
    copy_rate e = Float64.ratio 18 28 /\
    opposite_rate e = Float64.ratio 1 28 /\
    (1 < counter_rate e + copy_rate e + opposite_rate e)%Q /\
    (1 < Float64.add (Float64.add (counter_rate e) (copy_rate e))
                     (opposite_rate e))%Q.
Proof.
  split; [unfold our_moves_valid, nine_eighteen_one; repeat constructor |].
  split; [reflexivity |].
  eexists. split; [vm_compute; reflexivity |].
  repeat split; vm_compute; reflexivity.
Qed.

End DeeperReactiveFacts.

(** ** Outcome-conditioned rates *)

Module OutcomeRateFacts.
Import DeeperReactive.







End OutcomeRateFacts.

(** ** The adaptation classifier *)

Module BehaviorFacts.
Import Behavior.






(** The bound on the recursion of [chunks] is enough: the periods are the
    battles, cut in order. *)
Lemma chunks_concat {A : Type} (size : nat) : forall (fuel : nat) (l : list A),
  (0 < size)%nat -> (List.length l <= fuel)%nat ->
  List.concat (chunks fuel size l) = l.
Proof.
  induction fuel as [| fuel IH]; intros l Hsize Hlen.
  - destruct l; [reflexivity | simpl in Hlen; lia].
  - destruct l as [| x l]; [reflexivity |].
    change (chunks (S fuel) size (x :: l))
      with (firstn size (x :: l) :: chunks fuel size (skipn size (x :: l))).
    cbv zeta.
    simpl List.concat. rewrite IH.
    + apply firstn_skipn.
    + exact Hsize.
    + rewrite length_skipn.
      change (List.length (x :: l)) with (S (List.length l)) in *. lia.
Qed.


Section WithLog2.

Variable log2 : Q -> Q.


End WithLog2.


End BehaviorFacts.


(** * Further properties of the code *)

Local Open Scope list_scope.
Local Open Scope Z_scope.

(** ** Dictionaries with appended zero entries *)

Section ZeroEntries.

Implicit Types (d z : Dict.t Z) (k : string).

Lemma set_missing {V : Type} (d : Dict.t V) k (v : V) :
  Dict.get d k = None -> Dict.set d k v = (d ++ [(k, v)])%list.
Proof.
  induction d as [| [k' v'] d IH]; simpl; [reflexivity |].
  destruct (String.eqb k' k); [discriminate |].
  intros H. rewrite IH by exact H. reflexivity.
Qed.

Lemma getitem_default_app d k :
  exists z, snd (Dict.getitem_default d k) = (d ++ z)%list /\ Dict.zero_entries z.
Proof.
  unfold Dict.getitem_default. destruct (Dict.get d k) eqn:E; simpl.
  - exists []. split; [symmetry; apply app_nil_r | constructor].
  - exists [(k, 0)]. split; [apply set_missing; exact E | repeat constructor].
Qed.

Lemma max_from_app d z : forall best : string * Z,
  Dict.max_from best (d ++ z)%list = Dict.max_from (Dict.max_from best d) z.
Proof.
  induction d as [| kv d IH]; intros best; simpl; [reflexivity | apply IH].
Qed.

Lemma max_from_zeros z : forall best : string * Z,
  0 <= snd best -> Dict.zero_entries z -> Dict.max_from best z = best.
Proof.
  induction z as [| kv z IH]; intros best Hb Hz; simpl; [reflexivity |].
  inversion Hz as [| ? ? Hkv Hz']; subst.
  assert (E : (snd best <? snd kv) = false) by (apply Z.ltb_ge; lia).
  rewrite E. apply IH; assumption.
Qed.

(** Appending zero counts to a dictionary of non-negative counts does not
    change what [max] finds. *)
Lemma max_item_app_zeros d z :
  d <> [] -> Forall (fun kv => 0 <= snd kv) d -> Dict.zero_entries z ->
  Dict.max_item (d ++ z)%list = Dict.max_item d.
Proof.
  intros Hne Hpos Hz. destruct d as [| kv d]; [congruence |].
  simpl. f_equal. rewrite max_from_app. apply max_from_zeros; [| exact Hz].
  pose proof (max_from_best_le d kv). inversion Hpos; subst. lia.
Qed.

End ZeroEntries.

(** ** The ungated detector *)

Module OverfittedFacts.
Import Robust.

Lemma move_counts_tally (battles : list battle) :
  move_counts battles = fold_left Dict.incr (map enemy_move battles) [].
Proof.
  unfold move_counts. generalize (@nil (string * Z)).
  induction battles as [| b battles IH]; intros d; simpl; [reflexivity | apply IH].
Qed.

Lemma move_counts_nonneg (battles : list battle) :
  Forall (fun kv => 0 <= snd kv) (move_counts battles).
Proof.
  apply Forall_forall. intros [k v] Hin. rewrite move_counts_tally in Hin.
  apply tally_In in Hin. destruct Hin as [_ ->]. apply count_token_nonneg.
Qed.

Lemma move_counts_nonempty (battles : list battle) :
  battles <> [] -> move_counts battles <> [].
Proof.
  destruct battles as [| b battles]; [congruence |]. intros _ H.
  assert (Hin : In (enemy_move b,
                    count_token (enemy_move b) (map enemy_move (b :: battles)))
                   (move_counts (b :: battles))).
  { rewrite move_counts_tally. apply tally_In. split; [left |]; reflexivity. }
  rewrite H in Hin. destruct Hin.
Qed.

Lemma counted_app (battles : list battle) :
  exists z, counted battles = (move_counts battles ++ z)%list /\
            Dict.zero_entries z.
Proof.
  unfold counted, chi_square.
  destruct (getitem_default_app (move_counts battles) "rock") as [z1 [H1 Hz1]].
  destruct (Dict.getitem_default (move_counts battles) "rock") as [cr c1].
  simpl in H1. subst c1.
  destruct (getitem_default_app (move_counts battles ++ z1) "paper")
    as [z2 [H2 Hz2]].
  destruct (Dict.getitem_default (move_counts battles ++ z1) "paper") as [cp c2].
  simpl in H2. subst c2.
  destruct (getitem_default_app ((move_counts battles ++ z1) ++ z2) "scissor")
    as [z3 [H3 Hz3]].
  destruct (Dict.getitem_default ((move_counts battles ++ z1) ++ z2) "scissor")
    as [cs c3].
  simpl in H3. subst c3. simpl.
  exists (z1 ++ z2 ++ z3)%list. split.
  - rewrite <- !app_assoc. reflexivity.
  - unfold Dict.zero_entries in *. rewrite !Forall_app. auto.
Qed.

(** Both detectors find the same dominant move: the keys that the
    chi-square sum inserts with count zero never win the [max]. *)
Lemma max_item_move_counts (battles : list battle) :
  battles <> [] ->
  Dict.max_item (move_counts battles) = Dict.max_item (counted battles).
Proof.
  intros Hne. destruct (counted_app battles) as [z [-> Hz]].
  symmetry. apply max_item_app_zeros.
  - apply move_counts_nonempty. exact Hne.
  - apply move_counts_nonneg.
  - exact Hz.
Qed.

Lemma len_positive_nonempty {A : Type} (l : list A) : 0 < len l -> l <> [].
Proof. destruct l; [unfold len; simpl; lia | discriminate]. Qed.

(** The ungated detector, read over the reference statistics. *)
Lemma detect_pattern_spec (battles : list battle) :
  Overfitted.MIN_BATTLES <= len battles ->
  exists m,
    is_dominant m battles /\
    Dict.max_item (counted battles) = Ok (m, observed m battles) /\
    Overfitted.detect_pattern battles =
    if Qgtb (share m battles) Overfitted.BIAS_THRESHOLD then
      Ok (Some (Bias m (share m battles) (len battles)))
    else if 10 <=? len battles then
      counter_count <- Overfitted.counter_transitions battles ;;
      if Qgtb (fdiv counter_count (len battles - 1)) Overfitted.COUNTER_THRESHOLD
      then Ok (Some (Counter (fdiv counter_count (len battles - 1))
                             Overfitted.COUNTER_CONFIDENCE (len battles)))
      else Ok None
    else Ok None.
Proof.
  intros Hlen. unfold Overfitted.MIN_BATTLES in Hlen.
  destruct (RobustFacts.max_item_counted battles) as [m [Hmax Hdom]].
  exists m. split; [exact Hdom | split; [exact Hmax |]].
  unfold Overfitted.detect_pattern, Overfitted.MIN_BATTLES.
  assert (Hlt : (len battles <? 5) = false) by (apply Z.ltb_ge; exact Hlen).
  rewrite Hlt.
  rewrite max_item_move_counts by (apply len_positive_nonempty; lia).
  rewrite Hmax. simpl.
  assert (Hget : fst (Dict.getitem_default (move_counts battles) m)
                 = observed m battles).
  { rewrite getitem_default_fst. apply RobustFacts.move_counts_get0. }
  destruct (Dict.getitem_default (move_counts battles) m) as [cd d'].
  simpl in Hget. subst cd. reflexivity.
Qed.

(** *** The counter loops and their [KeyError] *)

Lemma counter_map_raise (m : string) (e : exn) :
  counter_map m = Raise e -> e = KeyError m /\ valid_move m = false.
Proof.
  unfold counter_map, valid_move.
  destruct (String.eqb m "rock"); [discriminate |].
  destruct (String.eqb m "paper"); [discriminate |].
  destruct (String.eqb m "scissor"); [discriminate |].
  intros [= <-]. auto.
Qed.

Lemma counter_map_invalid (m : string) :
  valid_move m = false -> counter_map m = Raise (KeyError m).
Proof.
  unfold counter_map, valid_move.
  destruct (String.eqb m "rock"); [discriminate |].
  destruct (String.eqb m "paper"); [discriminate |].
  destruct (String.eqb m "scissor"); [discriminate | reflexivity].
Qed.

Lemma reactive_counts_Ok (rest : list battle) : forall prev a b r,
  reactive_counts prev rest a b = Ok r ->
  a <= fst r <= a + len rest /\ b <= snd r <= b + len rest /\
  Forall (fun x => valid_move (our_move x) = true) (removelast (prev :: rest)).
Proof.
  induction rest as [| cur rest IH]; intros prev a b r H.
  - simpl in H. injection H as <-. unfold len. simpl.
    repeat split; try lia. constructor.
  - simpl in H. apply bind_Ok in H. destruct H as [c [Hc H]].
    apply IH in H. destruct H as [Ha [Hb Hv]].
    rewrite len_cons.
    change (removelast (prev :: cur :: rest))
      with (prev :: removelast (cur :: rest)).
    repeat split.
    + destruct (String.eqb (enemy_move cur) c); lia.
    + destruct (String.eqb (enemy_move cur) c); lia.
    + destruct (String.eqb (enemy_move cur) (our_move prev)); lia.
    + destruct (String.eqb (enemy_move cur) (our_move prev)); lia.
    + constructor; [| exact Hv].
      destruct (valid_move (our_move prev)) eqn:E; [reflexivity |].
      rewrite (counter_map_invalid _ E) in Hc. discriminate.
Qed.

Lemma reactive_counts_Raise (rest : list battle) : forall prev a b e,
  reactive_counts prev rest a b = Raise e ->
  exists x, In x (removelast (prev :: rest)) /\
            e = KeyError (our_move x) /\ valid_move (our_move x) = false.
Proof.
  induction rest as [| cur rest IH]; intros prev a b e H.
  - discriminate.
  - change (removelast (prev :: cur :: rest))
      with (prev :: removelast (cur :: rest)).
    simpl in H. destruct (counter_map (our_move prev)) as [c | e'] eqn:Hc.
    + simpl in H. apply IH in H. destruct H as [x [Hin Hx]].
      exists x. split; [right; exact Hin | exact Hx].
    + simpl in H. injection H as <-. apply counter_map_raise in Hc.
      exists prev. split; [left; reflexivity | exact Hc].
Qed.

Lemma reactive_counts_valid (rest : list battle) : forall prev a b,
  Forall (fun x => valid_move (our_move x) = true) (removelast (prev :: rest)) ->
  exists r, reactive_counts prev rest a b = Ok r.
Proof.
  intros prev a b Hv.
  destruct (reactive_counts prev rest a b) as [r | e] eqn:H; [eauto |].
  apply reactive_counts_Raise in H. destruct H as [x [Hin [_ Hx]]].
  rewrite Forall_forall in Hv. rewrite (Hv x Hin) in Hx. discriminate.
Qed.

(** The counter loop of the ungated detector is the counter half of the
    loop of the gated one. *)
Lemma count_counters_reactive (rest : list battle) : forall prev a b,
  Overfitted.count_counters prev rest a =
  (r <- reactive_counts prev rest a b ;; Ok (fst r)).
Proof.
  induction rest as [| cur rest IH]; intros prev a b; simpl; [reflexivity |].
  destruct (counter_map (our_move prev)) as [c | e]; simpl; [| reflexivity].
  apply IH.
Qed.

Lemma counter_transitions_reactive (battles : list battle) :
  Overfitted.counter_transitions battles =
  (r <- transition_counts battles ;; Ok (fst r)).
Proof.
  destruct battles as [| b rest]; [reflexivity |].
  apply count_counters_reactive.
Qed.

Lemma transition_counts_Ok (battles : list battle) (r : Z * Z) :
  transition_counts battles = Ok r ->
  0 <= fst r <= Z.max 0 (len battles - 1) /\
  0 <= snd r <= Z.max 0 (len battles - 1) /\
  Overfitted.previous_moves_valid battles.
Proof.
  unfold Overfitted.previous_moves_valid.
  destruct battles as [| b rest]; unfold transition_counts.
  - intros [= <-]. unfold len. simpl. repeat split; try lia. constructor.
  - intros H. apply reactive_counts_Ok in H.
    rewrite len_cons. pose proof (len_nonneg rest).
    destruct H as [Ha [Hb Hv]]. repeat split; try lia. exact Hv.
Qed.

Lemma transition_counts_Raise (battles : list battle) (e : exn) :
  transition_counts battles = Raise e ->
  exists x, In x (removelast battles) /\
            e = KeyError (our_move x) /\ valid_move (our_move x) = false.
Proof.
  destruct battles as [| b rest]; [discriminate |].
  apply reactive_counts_Raise.
Qed.

Lemma transition_counts_valid (battles : list battle) :
  Overfitted.previous_moves_valid battles ->
  exists r, transition_counts battles = Ok r.
Proof.
  destruct battles as [| b rest]; [simpl; eauto |].
  apply reactive_counts_valid.
Qed.

Lemma bias_test_dominant (battles : list battle) (m : string) (c : Q) (n : Z) :
  bias_test battles = Ok (Some (Bias m c n)) ->
  exists v, Dict.max_item (counted battles) = Ok (m, v).
Proof.
  unfold bias_test, counted.
  destruct (chi_square (move_counts battles) (fdiv (len battles) 3))
    as [chi counts']. simpl.
  destruct (Qgtb chi CHI_CRITICAL); [| discriminate].
  intros H. apply bind_Ok in H. destruct H as [[k v] [Hmax H]]. simpl in H.
  destruct (Dict.getitem_default counts' k) as [cd d'].
  destruct (Qgtb (fdiv cd (len battles)) EFFECT_FLOOR); [| discriminate].
  injection H as -> _ _. eauto.
Qed.

(** X1. [OverfittedDetector.detect_pattern] returns a bias detection exactly
    when there are at least 5 battles and a most frequent enemy move has a
    share above 0.4; the move it reports is a most frequent one and the
    confidence is that share, uncapped. *)
Theorem overfitted_bias_iff (battles : list battle) :
  ((exists m c n,
      Overfitted.detect_pattern battles = Ok (Some (Bias m c n))) <->
   (5 <= len battles /\
    exists m, is_dominant m battles /\ (4 # 10 < share m battles)%Q))
  /\
  (forall m c n,
     Overfitted.detect_pattern battles = Ok (Some (Bias m c n)) ->
     is_dominant m battles /\ c = share m battles /\ n = len battles).
Proof.
  destruct (Z_lt_le_dec (len battles) 5) as [Hshort | Hlen].
  - assert (Hnone : Overfitted.detect_pattern battles = Ok None).
    { unfold Overfitted.detect_pattern, Overfitted.MIN_BATTLES.
      apply Z.ltb_lt in Hshort. rewrite Hshort. reflexivity. }
    rewrite Hnone. split; [split |].
    + intros [m [c [n H]]]. discriminate.
    + intros [H _]. lia.
    + intros m c n H. discriminate.
  - destruct (detect_pattern_spec battles Hlen) as [m0 [Hdom [_ Hd]]].
    rewrite Hd. unfold Overfitted.BIAS_THRESHOLD.
    destruct (Qgtb (share m0 battles) (4 # 10)) eqn:G.
    + apply Qgtb_gt in G. split; [split |].
      * intros _. split; [exact Hlen | eauto].
      * intros _. eauto.
      * intros m c n [= <- <- <-]. auto.
    + apply Qgtb_le in G.
      assert (Hno : forall m c n,
                (if 10 <=? len battles
                 then counter_count <- Overfitted.counter_transitions battles ;;
                      (if Qgtb (fdiv counter_count (len battles - 1))
                               Overfitted.COUNTER_THRESHOLD
                       then Ok (Some (Counter (fdiv counter_count (len battles - 1))
                                              Overfitted.COUNTER_CONFIDENCE
                                              (len battles)))
                       else Ok None)
                 else Ok None) <> Ok (Some (Bias m c n))).
      { intros m c n H. destruct (10 <=? len battles); [| discriminate].
        apply bind_Ok in H. destruct H as [cc [_ H]].
        destruct (Qgtb _ _) in H; discriminate. }
      split; [split |].
      * intros [m [c [n H]]]. exfalso. exact (Hno _ _ _ H).
      * intros [_ [m [Hm Hs]]]. exfalso.
        unfold share in *.
        rewrite (RobustFacts.dominant_unique_count m m0 battles Hm Hdom) in Hs.
        lra.
      * intros m c n H. exfalso. exact (Hno _ _ _ H).
Qed.

Lemma overfitted_bias_iff_witness :
  5 <= len (all_rock 5) /\
  exists m, is_dominant m (all_rock 5) /\ (4 # 10 < share m (all_rock 5))%Q.
Proof.
  apply (proj1 (overfitted_bias_iff (all_rock 5))).
  exists "rock", (fdiv 5 5), 5. reflexivity.
Defined.

(** X2. Every bias detection of the gated detector is also one of the ungated
    detector, for the same move; the gated confidence is the ungated one
    capped at 0.9. *)
Theorem robust_bias_implies_overfitted_bias
    (battles : list battle) (m : string) (c : Q) (n : Z) :
  Robust.detect_pattern battles = Ok (Some (Bias m c n)) ->
  Overfitted.detect_pattern battles =
    Ok (Some (Bias m (share m battles) n)) /\
  c = py_min (9 # 10) (share m battles) /\
  (c <= share m battles)%Q.
Proof.
  intros H. apply RobustFacts.detect_pattern_inv in H.
  destruct H as [Hlen [H | [_ H]]];
    [| exfalso; exact (RobustFacts.reactive_test_not_bias _ _ _ _ H)].
  unfold MIN_SAMPLES in Hlen.
  destruct (bias_test_dominant _ _ _ _ H) as [v Hmax].
  apply RobustFacts.bias_test_inv in H.
  destruct H as [m' [Heq [_ [_ Hshare]]]].
  injection Heq as <- -> ->.
  destruct (detect_pattern_spec battles) as [m0 [_ [Hmax0 Hd]]];
    [unfold Overfitted.MIN_BATTLES; lia |].
  rewrite Hmax in Hmax0. injection Hmax0 as <- _.
  unfold EFFECT_FLOOR in Hshare.
  assert (G : Qgtb (share m battles) Overfitted.BIAS_THRESHOLD = true).
  { apply Qgtb_gt. unfold Overfitted.BIAS_THRESHOLD. lra. }
  rewrite G in Hd. split; [exact Hd | split; [reflexivity |]].
  rewrite py_min_Qmin. apply Q.le_min_r.
Qed.

Lemma robust_bias_implies_overfitted_bias_witness :
  Overfitted.detect_pattern (all_rock 15) =
    Ok (Some (Bias "rock" (share "rock" (all_rock 15)) 15)) /\
  9 # 10 = py_min (9 # 10) (share "rock" (all_rock 15)) /\
  (9 # 10 <= share "rock" (all_rock 15))%Q.
Proof.
  apply (robust_bias_implies_overfitted_bias (all_rock 15) "rock" (9 # 10) 15).
  reflexivity.
Defined.

(** X3. Against an opponent that plays the same move on every turn the ungated
    detector reports nothing below 5 battles and, from 5 battles on, a bias
    detection for that move with confidence 1. *)
Theorem overfitted_fixed_opponent (m : string) (battles : list battle) :
  fixed_opponent m battles ->
  (len battles < 5 -> Overfitted.detect_pattern battles = Ok None) /\
  (5 <= len battles ->
   exists c, Overfitted.detect_pattern battles
             = Ok (Some (Bias m c (len battles))) /\ (c == 1)%Q).
Proof.
  intros Hfix. split; intros Hlen.
  - unfold Overfitted.detect_pattern, Overfitted.MIN_BATTLES.
    apply Z.ltb_lt in Hlen. rewrite Hlen. reflexivity.
  - assert (Hn : 0 < len battles) by lia.
    destruct (detect_pattern_spec battles Hlen) as [m0 [Hdom [_ Hd]]].
    rewrite (RobustFacts.fixed_dominant m battles m0 Hfix Hn Hdom) in Hd.
    pose proof (RobustFacts.fixed_share m battles Hfix Hn) as Hshare.
    assert (G : Qgtb (share m battles) Overfitted.BIAS_THRESHOLD = true).
    { apply Qgtb_gt. rewrite Hshare. reflexivity. }
    rewrite G in Hd. exists (share m battles). split; assumption.
Qed.

Lemma overfitted_fixed_opponent_witness :
  exists c, Overfitted.detect_pattern (all_rock 5)
            = Ok (Some (Bias "rock" c (len (all_rock 5)))) /\ (c == 1)%Q.
Proof.
  assert (Hfix : fixed_opponent "rock" (all_rock 5)).
  { unfold fixed_opponent, all_rock. repeat constructor. }
  apply (proj2 (overfitted_fixed_opponent "rock" (all_rock 5) Hfix)).
  vm_compute. discriminate.
Defined.

(** X4. The ungated detector reads our moves only after the bias test has
    declined and only from 10 battles on. It returns whenever our previous
    moves are moves; a counter detection has confidence 0.8, a rate above
    0.35 and at most 1, and comes only when no move has a share above 0.4;
    the only failure is the [KeyError] of a previous move of ours that is
    not a move. *)
Theorem overfitted_counter_and_errors (battles : list battle) :
  (Overfitted.previous_moves_valid battles ->
   exists o, Overfitted.detect_pattern battles = Ok o) /\
  (forall rate c n,
     Overfitted.detect_pattern battles = Ok (Some (Counter rate c n)) ->
     10 <= len battles /\ c = 8 # 10 /\ n = len battles /\
     (35 # 100 < rate)%Q /\ (rate <= 1)%Q /\
     forall m, is_dominant m battles -> (share m battles <= 4 # 10)%Q) /\
  (forall e,
     Overfitted.detect_pattern battles = Raise e ->
     10 <= len battles /\
     (forall m, is_dominant m battles -> (share m battles <= 4 # 10)%Q) /\
     exists x, In x (removelast battles) /\
               e = KeyError (our_move x) /\ valid_move (our_move x) = false).
Proof.
  destruct (Z_lt_le_dec (len battles) 5) as [Hshort | Hlen].
  { assert (Hnone : Overfitted.detect_pattern battles = Ok None).
    { unfold Overfitted.detect_pattern, Overfitted.MIN_BATTLES.
      apply Z.ltb_lt in Hshort. rewrite Hshort. reflexivity. }
    rewrite Hnone. repeat split; eauto; discriminate. }
  destruct (detect_pattern_spec battles Hlen) as [m0 [Hdom [_ Hd]]].
  rewrite Hd. unfold Overfitted.BIAS_THRESHOLD.
  destruct (Qgtb (share m0 battles) (4 # 10)) eqn:G.
  { repeat split; eauto; discriminate. }
  apply Qgtb_le in G.
  assert (Hall : forall m, is_dominant m battles -> (share m battles <= 4 # 10)%Q).
  { intros m Hm. unfold share in *.
    rewrite (RobustFacts.dominant_unique_count m m0 battles Hm Hdom). exact G. }
  destruct (10 <=? len battles) eqn:E10.
  2: { repeat split; eauto; discriminate. }
  apply Z.leb_le in E10.
  rewrite counter_transitions_reactive.
  split; [| split].
  - intros Hv. destruct (transition_counts_valid battles Hv) as [r ->]. simpl.
    destruct (Qgtb (fdiv (fst r) (len battles - 1)) Overfitted.COUNTER_THRESHOLD);
      eauto.
  - intros rate c n H. apply bind_Ok in H. destruct H as [cc [Hcc H]].
    apply bind_Ok in Hcc. destruct Hcc as [r [Hr Hcc]]. injection Hcc as <-.
    apply transition_counts_Ok in Hr. destruct Hr as [[Hlo Hhi] _].
    destruct (Qgtb (fdiv (fst r) (len battles - 1)) Overfitted.COUNTER_THRESHOLD)
      eqn:Gc; [| discriminate].
    injection H as <- <- <-. apply Qgtb_gt in Gc.
    repeat split; auto.
    apply fdiv_le_1; lia.
  - intros e H.
    destruct (transition_counts battles) as [r | e'] eqn:Hr.
    + simpl in H.
      destruct (Qgtb (fdiv (fst r) (len battles - 1)) Overfitted.COUNTER_THRESHOLD)
        in H; discriminate.
    + simpl in H. injection H as <-.
      apply transition_counts_Raise in Hr. auto.
Qed.

Lemma overfitted_counter_and_errors_witness :
  (exists o, Overfitted.detect_pattern half_countered = Ok o) /\
  (10 <= len half_countered /\ (35 # 100 < fdiv 10 19)%Q) /\
  (exists x, In x (removelast spock_cycle) /\
             KeyError "spock" = KeyError (our_move x) /\
             valid_move (our_move x) = false).
Proof.
  split; [| split].
  - apply (proj1 (overfitted_counter_and_errors half_countered)).
    unfold Overfitted.previous_moves_valid, half_countered. simpl.
    repeat constructor.
  - destruct (proj1 (proj2 (overfitted_counter_and_errors half_countered))
                (fdiv 10 19) (8 # 10) 20 eq_refl) as [H10 [_ [_ [Hr _]]]].
    split; assumption.
  - destruct (proj2 (proj2 (overfitted_counter_and_errors spock_cycle))
                (KeyError "spock") eq_refl) as [_ [_ H]].
    exact H.
Defined.

(** X5. The gated detector fails only in its reactive test: it returns whenever
    our previous moves are moves, whenever there are fewer than 20 battles and
    whenever the bias test accepts; it raises exactly when, with at least 20
    battles and no bias detection, a previous move of ours is not a move,
    and the error is the [KeyError] of such a move. *)
Theorem robust_failure_only_by_invalid_observer_move (battles : list battle) :
  (Overfitted.previous_moves_valid battles ->
   exists o, Robust.detect_pattern battles = Ok o) /\
  (len battles < 20 -> exists o, Robust.detect_pattern battles = Ok o) /\
  (forall e,
     Robust.detect_pattern battles = Raise e ->
     20 <= len battles /\ bias_test battles = Ok None /\
     exists x, In x (removelast battles) /\
               e = KeyError (our_move x) /\ valid_move (our_move x) = false) /\
  (20 <= len battles -> bias_test battles = Ok None ->
   ~ Overfitted.previous_moves_valid battles ->
   exists e, Robust.detect_pattern battles = Raise e).
Proof.
  unfold Robust.detect_pattern, MIN_SAMPLES.
  destruct (len battles <? 15) eqn:E15.
  { apply Z.ltb_lt in E15. repeat split; eauto; try discriminate. lia. }
  apply Z.ltb_ge in E15.
  destruct (RobustFacts.bias_test_total battles) as [[d |] Hb]; rewrite Hb; simpl.
  { repeat split; eauto; discriminate. }
  unfold reactive_test.
  destruct (20 <=? len battles) eqn:E20.
  2: { apply Z.leb_gt in E20. repeat split; eauto; try discriminate. lia. }
  apply Z.leb_le in E20.
  destruct (transition_counts battles) as [[cc cp] | e'] eqn:Hr; simpl.
  - assert (Hok : exists o,
              (if Qgtb (inject_Z cc) (fdiv (len battles - 1) 3)
                  && Qltb (binom_test_greater cc (len battles - 1) (1 # 3))
                       SIGNIFICANCE
               then Ok (Some (Counter (fdiv cc (len battles - 1))
                                      REACTIVE_CONFIDENCE (len battles)))
               else if Qgtb (inject_Z cp) (fdiv (len battles - 1) 3)
                       && Qltb (binom_test_greater cp (len battles - 1) (1 # 3))
                            SIGNIFICANCE
               then Ok (Some (Copier (fdiv cp (len battles - 1))
                                     REACTIVE_CONFIDENCE (len battles)))
               else Ok None) = Ok o).
    { destruct (_ && _); [eauto |]. destruct (_ && _); eauto. }
    destruct Hok as [o Ho]. rewrite Ho.
    repeat split; eauto; try discriminate.
    intros _ _ Hnv. exfalso. apply Hnv.
    apply transition_counts_Ok in Hr. tauto.
  - apply transition_counts_Raise in Hr.
    repeat split.
    + intros Hv. destruct Hr as [x [Hin [_ Hx]]].
      unfold Overfitted.previous_moves_valid in Hv.
      rewrite Forall_forall in Hv. rewrite (Hv x Hin) in Hx. discriminate.
    + intros Hlt. lia.
    + exact E20.
    + injection H as <-. exact Hr.
    + eauto.
Qed.

Lemma robust_failure_only_by_invalid_observer_move_witness :
  (exists o, Robust.detect_pattern half_countered = Ok o) /\
  (exists o, Robust.detect_pattern (all_lizard 15) = Ok o) /\
  (exists x, In x (removelast spock_cycle) /\
             KeyError "spock" = KeyError (our_move x) /\
             valid_move (our_move x) = false).
Proof.
  split; [| split].
  - apply (proj1 (robust_failure_only_by_invalid_observer_move half_countered)).
    unfold Overfitted.previous_moves_valid, half_countered. simpl.
    repeat constructor.
  - apply (proj1 (proj2 (robust_failure_only_by_invalid_observer_move
                           (all_lizard 15)))).
    vm_compute. reflexivity.
  - destruct (proj1 (proj2 (proj2 (robust_failure_only_by_invalid_observer_move
                                     spock_cycle)))
                (KeyError "spock") eq_refl) as [_ [_ H]].
    exact H.
Defined.

End OverfittedFacts.

(** ** The detection simulation *)

Module SimulationFacts.
Import Simulation.

Lemma valid_cases (m : string) :
  valid_move m = true -> m = "rock" \/ m = "paper" \/ m = "scissor".
Proof. apply MarkovFacts.valid_move_cases. Qed.

Lemma get_counter_valid (m : string) :
  valid_move m = true ->
  exists c, get_counter m = Ok c /\ valid_move c = true /\ c <> m.
Proof.
  intros H. destruct (valid_cases m H) as [-> | [-> | ->]];
    eexists; (split; [reflexivity | split; [reflexivity | discriminate]]).
Qed.

(** X6. On moves, [get_result] is the zero-sum rock-paper-scissor game: a tie
    exactly on equal moves, a win exactly where the opponent's view is a
    loss and exactly for the counter of the enemy move; [get_counter] walks
    the cycle of the three moves. *)
Theorem get_result_zero_sum (a b : string) :
  valid_move a = true -> valid_move b = true ->
  (get_result a b = Ok "tie" <-> a = b) /\
  (get_result a b = Ok "win" <-> get_result b a = Ok "loss") /\
  (get_result a b = Ok "win" <-> get_counter b = Ok a) /\
  (get_result a b = Ok "tie" \/ get_result a b = Ok "win"
   \/ get_result a b = Ok "loss") /\
  (exists c1 c2, get_counter a = Ok c1 /\ get_counter c1 = Ok c2 /\
                 get_counter c2 = Ok a).
Proof.
  intros Ha Hb.
  destruct (valid_cases a Ha) as [-> | [-> | ->]];
    destruct (valid_cases b Hb) as [-> | [-> | ->]];
    vm_compute;
    (split; [split; intros H; (discriminate H || reflexivity) |]);
    (split; [split; intros H; (discriminate H || reflexivity) |]);
    (split; [split; intros H; (discriminate H || reflexivity) |]);
    (split; [auto |]); do 2 eexists; repeat split.
Qed.

Lemma get_result_zero_sum_witness :
  get_result "paper" "rock" = Ok "win" <-> get_result "rock" "paper" = Ok "loss".
Proof.
  apply (get_result_zero_sum "paper" "rock"); reflexivity.
Defined.

(** X7. Outside the move domain [get_result] does not check its arguments:
    equal tokens tie whatever they are, an enemy token that is not a move
    raises [KeyError] when the tokens differ, and a token of ours that is
    not a move is scored as a loss against every enemy move. *)
Theorem get_result_invalid_tokens :
  (forall a, get_result a a = Ok "tie") /\
  (forall a b, a <> b -> valid_move b = false ->
               get_result a b = Raise (KeyError b)) /\
  (forall a b, valid_move a = false -> valid_move b = true ->
               get_result a b = Ok "loss").
Proof.
  split; [| split].
  - intros a. unfold get_result. rewrite String.eqb_refl. reflexivity.
  - intros a b Hne Hb. unfold get_result.
    apply String.eqb_neq in Hne. rewrite Hne.
    unfold get_counter. rewrite (OverfittedFacts.counter_map_invalid b Hb).
    reflexivity.
  - intros a b Ha Hb. unfold get_result.
    destruct (String.eqb a b) eqn:E;
      [apply String.eqb_eq in E; congruence |].
    destruct (get_counter_valid b Hb) as [c [-> [Hc _]]]. simpl.
    destruct (String.eqb c a) eqn:E'; [| reflexivity].
    apply String.eqb_eq in E'. congruence.
Qed.

Lemma get_result_invalid_tokens_witness :
  get_result "lizard" "spock" = Raise (KeyError "spock") /\
  get_result "lizard" "rock" = Ok "loss".
Proof.
  destruct get_result_invalid_tokens as [_ [H1 H2]]. split.
  - apply H1; [discriminate | reflexivity].
  - apply H2; reflexivity.
Defined.

Lemma truthy_the (o : option string) :
  truthy o = true -> exists s, o = Some s.
Proof. destruct o; [eauto | discriminate]. Qed.

(** X8. Once the detection delay has run out, the move of the detection system
    beats what the profile's pattern plays next, without consuming any draw:
    the fixed move, the counter of our last move, our last move itself, and
    after a win of ours the enemy's last move. *)
Theorem detection_move_beats_pattern (src : source)
    (our_last enemy_last : string) (last_result : option string) (i : nat) :
  valid_move our_last = true -> valid_move enemy_last = true ->
  (forall pattern delay,
     valid_move pattern = true -> delay <= 3 ->
     exists m,
       detection_system_move src (Fixed pattern) (Some our_last)
         (Some enemy_last) last_result delay i = Ok (m, i) /\
       get_result m pattern = Ok "win") /\
  (forall rate delay,
     delay <= 0 ->
     exists m theirs,
       detection_system_move src (Counter rate) (Some our_last)
         (Some enemy_last) last_result delay i = Ok (m, i) /\
       get_counter our_last = Ok theirs /\ get_result m theirs = Ok "win") /\
  (forall rate delay,
     delay <= 0 ->
     exists m,
       detection_system_move src (Copier rate) (Some our_last)
         (Some enemy_last) last_result delay i = Ok (m, i) /\
       get_result m our_last = Ok "win") /\
  (forall rate delay,
     delay <= 0 ->
     exists m,
       detection_system_move src (LossRepeater rate) (Some our_last)
         (Some enemy_last) (Some "win") delay i = Ok (m, i) /\
       get_result m enemy_last = Ok "win").
Proof.
  intros Ho He.
  split; [| split; [| split]].
  - intros pattern delay Hp Hd. unfold detection_system_move.
    apply Z.leb_le in Hd. rewrite Hd.
    destruct (valid_cases pattern Hp) as [-> | [-> | ->]];
      eexists; split; reflexivity.
  - intros rate delay Hd. unfold detection_system_move.
    apply Z.leb_le in Hd. rewrite Hd.
    destruct (valid_cases our_last Ho) as [-> | [-> | ->]];
      do 2 eexists; repeat split; reflexivity.
  - intros rate delay Hd. unfold detection_system_move.
    apply Z.leb_le in Hd. rewrite Hd.
    destruct (valid_cases our_last Ho) as [-> | [-> | ->]];
      eexists; split; reflexivity.
  - intros rate delay Hd. unfold detection_system_move.
    apply Z.leb_le in Hd. rewrite Hd.
    destruct (valid_cases enemy_last He) as [-> | [-> | ->]];
      eexists; split; reflexivity.
Qed.

Lemma detection_move_beats_pattern_witness :
  exists m,
    detection_system_move sample_source (Fixed "rock") (Some "rock")
      (Some "rock") None 3 0%nat = Ok (m, 0%nat) /\
    get_result m "rock" = Ok "win".
Proof.
  destruct (detection_move_beats_pattern sample_source "rock" "rock" None 0%nat)
    as [H _]; try reflexivity.
  apply H; [reflexivity | lia].
Defined.

(** *** The simulation loops *)

Lemma choose_move_valid (src : source) (i : nat) :
  exists m, choose_move src i = Ok (m, S i) /\ valid_move m = true.
Proof.
  unfold choose_move, random_choice. eexists. split; [reflexivity |].
  simpl List.length.
  pose proof (Nat.mod_upper_bound (position src i) 3 ltac:(discriminate)) as Hb.
  destruct (position src i mod 3)%nat as [| [| [| k]]]; try reflexivity; lia.
Qed.

Lemma truthy_valid (o : option string) :
  known_valid o -> truthy o = true -> valid_move (the o) = true.
Proof. destruct o; simpl; [auto | discriminate]. Qed.

Lemma simulate_enemy_valid (src : source) (p : profile)
    (ol el lr : option string) (bn : Z) (i : nat) :
  valid_profile p = true -> known_valid ol -> known_valid el ->
  exists m j, simulate_enemy src p ol el lr bn i = Ok (m, j) /\
              valid_move m = true.
Proof.
  intros Hp Hol Hel.
  destruct (choose_move_valid src i) as [mc [Hc Hmc]].
  destruct (choose_move_valid src (S i)) as [mc' [Hc' Hmc']].
  destruct p as [pattern | rate | rate | rate |]; simpl.
  - unfold rret. eauto.
  - destruct (truthy ol) eqn:T; [| eauto].
    unfold rbind, random_random.
    destruct (Qltb (uniform src i) rate); [| eauto].
    destruct (get_counter_valid _ (truthy_valid ol Hol T)) as [c [-> [Hv _]]].
    simpl. eauto.
  - destruct (truthy ol) eqn:T; [| eauto].
    unfold rbind, random_random.
    destruct (Qltb (uniform src i) rate); [| eauto].
    unfold rret. eauto using truthy_valid.
  - destruct (is_result lr "loss" && truthy el) eqn:T; [| eauto].
    apply andb_true_iff in T. destruct T as [_ T].
    unfold rbind, random_random.
    destruct (Qltb (uniform src i) rate); [| eauto].
    unfold rret. eauto using truthy_valid.
  - eauto.
Qed.

Lemma detection_system_move_valid (src : source) (p : profile)
    (ol el lr : option string) (delay : Z) (i : nat) :
  valid_profile p = true -> known_valid ol -> known_valid el ->
  exists m j, detection_system_move src p ol el lr delay i = Ok (m, j) /\
              valid_move m = true.
Proof.
  intros Hp Hol Hel.
  destruct (choose_move_valid src i) as [mc [Hc Hmc]].
  destruct p as [pattern | rate | rate | rate |]; simpl.
  - destruct (delay <=? 3); [| eauto].
    destruct (get_counter_valid _ Hp) as [c [-> [Hv _]]]. simpl. eauto.
  - destruct (delay <=? 0); [| eauto].
    destruct (truthy ol) eqn:T; [| eauto].
    destruct (get_counter_valid _ (truthy_valid ol Hol T)) as [c [-> [Hv _]]].
    destruct (get_counter_valid _ Hv) as [c' [Hc' [Hv' _]]].
    simpl. rewrite Hc'. unfold lift. eauto.
  - destruct (delay <=? 0); [| eauto].
    destruct (truthy ol) eqn:T; [| eauto].
    destruct (get_counter_valid _ (truthy_valid ol Hol T)) as [c [-> [Hv _]]].
    simpl. eauto.
  - destruct (delay <=? 0); [| eauto].
    destruct (is_result lr "win" && truthy el) eqn:T; [| eauto].
    apply andb_true_iff in T. destruct T as [_ T].
    destruct (get_counter_valid _ (truthy_valid el Hel T)) as [c [-> [Hv _]]].
    simpl. eauto.
  - eauto.
Qed.

Lemma get_result_valid (a b : string) :
  valid_move b = true -> exists r, get_result a b = Ok r.
Proof.
  intros Hb. unfold get_result. destruct (String.eqb a b); [eauto |].
  destruct (get_counter_valid b Hb) as [c [-> _]]. simpl.
  destruct (String.eqb c a); eauto.
Qed.

Lemma get0_incr_ge (d : Dict.t Z) (k k' : string) :
  Dict.get0 d k' <= Dict.get0 (Dict.incr d k) k'.
Proof.
  destruct (string_dec k' k) as [-> | Hne].
  - rewrite get0_incr_same. lia.
  - rewrite get0_incr_other by exact Hne. lia.
Qed.

Lemma record_battle_ok (st : progress) (k : Z) (a b : string) (j : nat) :
  tally_ok k st -> valid_move a = true -> valid_move b = true ->
  exists r,
    get_result a b = Ok r /\
    record_battle st a b j =
    Ok ({| results := Dict.incr (results st) r; our_last := Some a;
           enemy_last := Some b; last_result := Some r |}, j) /\
    tally_ok (k + 1)
      {| results := Dict.incr (results st) r; our_last := Some a;
         enemy_last := Some b; last_result := Some r |}.
Proof.
  intros [Hsum [_ [_ Hwin]]] Ha Hb.
  destruct (get_result_valid a b Hb) as [r Hr].
  exists r. split; [exact Hr |]. split.
  - unfold record_battle, rbind, lift, rret. rewrite Hr. reflexivity.
  - unfold tally_ok. simpl.
    rewrite MarkovFacts.sum_values_incr.
    pose proof (get0_incr_ge (results st) r "win").
    repeat split; auto; lia.
Qed.

Lemma battle_without_ok (src : source) (p : profile) (st : progress)
    (k i : Z) (pos : nat) :
  valid_profile p = true -> tally_ok k st ->
  exists st' j, battle_without src p st i pos = Ok (st', j) /\
                tally_ok (k + 1) st'.
Proof.
  intros Hp Hst. destruct Hst as [Hsum [Hol [Hel Hwin]]].
  unfold battle_without, rbind.
  destruct (choose_move_valid src pos) as [a [-> Ha]].
  destruct (simulate_enemy_valid src p (our_last st) (enemy_last st)
              (last_result st) i (S pos) Hp Hol Hel) as [b [j [-> Hb]]].
  destruct (record_battle_ok st k a b j) as [r [_ [-> Hok]]];
    [unfold tally_ok; auto | exact Ha | exact Hb |].
  eauto.
Qed.

Lemma battle_with_ok (src : source) (p : profile) (st : progress)
    (k i : Z) (pos : nat) :
  valid_profile p = true -> tally_ok k st ->
  exists st' j, battle_with src p st i pos = Ok (st', j) /\
                tally_ok (k + 1) st'.
Proof.
  intros Hp Hst. destruct Hst as [Hsum [Hol [Hel Hwin]]].
  unfold battle_with, rbind.
  destruct (detection_system_move_valid src p (our_last st) (enemy_last st)
              (last_result st) (Z.max 0 (10 - i)) pos Hp Hol Hel)
    as [a [j [-> Ha]]].
  destruct (simulate_enemy_valid src p (our_last st) (enemy_last st)
              (last_result st) i j Hp Hol Hel) as [b [j' [-> Hb]]].
  destruct (record_battle_ok st k a b j') as [r [_ [-> Hok]]];
    [unfold tally_ok; auto | exact Ha | exact Hb |].
  eauto.
Qed.

(** An invariant indexed by the loop variable is carried through the loop. *)
Lemma battles_from_inv (body : progress -> Z -> rand progress)
    (Inv : Z -> progress -> Prop) :
  (forall st i pos, Inv i st ->
     exists st' j, body st i pos = Ok (st', j) /\ Inv (i + 1) st') ->
  forall count i st pos, Inv i st ->
    exists st' j, battles_from body count i st pos = Ok (st', j) /\
                  Inv (i + Z.of_nat count) st'.
Proof.
  intros Hbody. induction count as [| count IH]; intros i st pos Hinv.
  - simpl. unfold rret. exists st, pos. rewrite Z.add_0_r. auto.
  - destruct (Hbody st i pos Hinv) as [st1 [j1 [H1 Hinv1]]].
    destruct (IH (i + 1) st1 j1 Hinv1) as [st2 [j2 [H2 Hinv2]]].
    exists st2, j2. split.
    + simpl. unfold rbind. rewrite H1. exact H2.
    + replace (i + Z.of_nat (S count)) with (i + 1 + Z.of_nat count) by lia.
      exact Hinv2.
Qed.

Lemma start_ok : tally_ok 0 start.
Proof.
  unfold tally_ok, start, Dict.sum_values, Dict.get0. simpl.
  split; [reflexivity | split; [exact I | split; [exact I | lia]]].
Qed.

Lemma sum_values_app (d z : Dict.t Z) :
  Dict.sum_values (d ++ z) = Dict.sum_values d + Dict.sum_values z.
Proof.
  unfold Dict.sum_values at 1. rewrite fold_left_app.
  fold (Dict.sum_values d). apply MarkovFacts.sum_values_from.
Qed.

Lemma sum_values_zeros (z : Dict.t Z) :
  Dict.zero_entries z -> Dict.sum_values z = 0.
Proof.
  induction 1 as [| kv z Hkv _ IH]; [reflexivity |].
  rewrite MarkovFacts.sum_values_cons. lia.
Qed.

Lemma getitem_default_sum (d : Dict.t Z) (k : string) :
  Dict.sum_values (snd (Dict.getitem_default d k)) = Dict.sum_values d.
Proof.
  destruct (getitem_default_app d k) as [z [-> Hz]].
  rewrite sum_values_app, (sum_values_zeros z Hz). lia.
Qed.

(** The total that [calculate_survival_rate] divides by. *)
Lemma calculate_survival_rate_total (results : Dict.t Z) :
  calculate_survival_rate results =
  let wins := Dict.get0 results "win" in
  let ties := Dict.get0 results "tie" in
  let total := Dict.sum_values results in
  if total =? 0 then Zero
  else Rates (Float64.mul (Float64.ratio (wins + ties) total) 100)
             (Float64.mul
                (Float64.div
                   (Float64.add (Float64.mul (Float64.of_Z wins) WIN_WEIGHT)
                                (Float64.mul (Float64.of_Z ties) 1))
                   (Float64.mul (Float64.of_Z total) WIN_WEIGHT)) 100).
Proof.
  unfold calculate_survival_rate.
  pose proof (getitem_default_fst results "win") as Hw.
  pose proof (getitem_default_sum results "win") as Hs1.
  pose proof (getitem_default_get0 results "win" "tie") as Hg.
  destruct (Dict.getitem_default results "win") as [wins r1].
  simpl in Hw, Hs1, Hg. subst wins.
  pose proof (getitem_default_fst r1 "tie") as Ht.
  pose proof (getitem_default_sum r1 "tie") as Hs2.
  destruct (Dict.getitem_default r1 "tie") as [ties r2].
  simpl in Ht, Hs2. subst ties. rewrite Hs2, Hs1, Hg. reflexivity.
Qed.

Lemma calculate_survival_rate_zero (results : Dict.t Z) :
  calculate_survival_rate results = Zero <-> Dict.sum_values results = 0.
Proof.
  rewrite calculate_survival_rate_total. simpl.
  destruct (Dict.sum_values results =? 0) eqn:E.
  - apply Z.eqb_eq in E. tauto.
  - apply Z.eqb_neq in E. split; [discriminate | tauto].
Qed.

(** X9. For every source of draws and every profile whose fixed pattern is a
    move, [simulate_battles] returns two tallies that each count
    [num_battles] results; [calculate_survival_rate] gives the pair of rates
    for them exactly when [num_battles] is positive and the bare number 0
    otherwise. *)
Theorem simulate_battles_totals (src : source) (p : profile)
    (num_battles : Z) (pos : nat) :
  valid_profile p = true ->
  exists without with_detection j,
    simulate_battles src p num_battles pos
    = Ok ((without, with_detection), j) /\
    Dict.sum_values without = Z.max 0 num_battles /\
    Dict.sum_values with_detection = Z.max 0 num_battles /\
    (calculate_survival_rate without = Zero <-> num_battles <= 0) /\
    (calculate_survival_rate with_detection = Zero <-> num_battles <= 0).
Proof.
  intros Hp. unfold simulate_battles, rbind.
  destruct (battles_from_inv (battle_without src p) tally_ok
              (fun st i pos' H => battle_without_ok src p st i i pos' Hp H)
              (Z.to_nat num_battles) 0 start pos start_ok)
    as [w [j1 [-> [Hw _]]]].
  destruct (battles_from_inv (battle_with src p) tally_ok
              (fun st i pos' H => battle_with_ok src p st i i pos' Hp H)
              (Z.to_nat num_battles) 0 start j1 start_ok)
    as [d [j2 [-> [Hd _]]]].
  exists (results w), (results d), j2. unfold rret.
  split; [reflexivity |].
  rewrite !calculate_survival_rate_zero, Hw, Hd.
  repeat split; lia.
Qed.

Lemma simulate_battles_totals_witness :
  exists without with_detection j,
    simulate_battles sample_source (Counter (45 # 100)) 100 0%nat
    = Ok ((without, with_detection), j) /\
    Dict.sum_values without = Z.max 0 100 /\
    Dict.sum_values with_detection = Z.max 0 100 /\
    (calculate_survival_rate without = Zero <-> 100 <= 0) /\
    (calculate_survival_rate with_detection = Zero <-> 100 <= 0).
Proof.
  apply (simulate_battles_totals sample_source (Counter (45 # 100)) 100 0%nat).
  reflexivity.
Defined.

Lemma counter_wins (p c : string) :
  valid_move p = true -> get_counter p = Ok c -> get_result c p = Ok "win".
Proof.
  intros Hp Hc. destruct (valid_cases p Hp) as [-> | [-> | ->]];
    injection Hc as <-; reflexivity.
Qed.

(** One battle with detection against a fixed pattern: a win from the
    eighth battle on. *)
Lemma battle_with_fixed (src : source) (pattern : string) (st : progress)
    (i : Z) (pos : nat) :
  valid_move pattern = true ->
  tally_ok i st /\ i - 7 <= Dict.get0 (results st) "win" ->
  exists st' j,
    battle_with src (Fixed pattern) st i pos = Ok (st', j) /\
    tally_ok (i + 1) st' /\ i + 1 - 7 <= Dict.get0 (results st') "win".
Proof.
  intros Hp [Hst Hwins].
  destruct (Z_lt_le_dec i 7) as [Hearly | Hlate].
  - destruct (battle_with_ok src (Fixed pattern) st i i pos Hp Hst)
      as [st' [j [H Hok]]].
    exists st', j. split; [exact H | split; [exact Hok |]].
    destruct Hok as [_ [_ [_ Hw]]]. lia.
  - unfold battle_with, rbind, detection_system_move, simulate_enemy.
    assert (Hd : (Z.max 0 (10 - i) <=? 3) = true) by (apply Z.leb_le; lia).
    rewrite Hd.
    destruct (get_counter_valid pattern Hp) as [c [Hc [Hv _]]].
    rewrite Hc. unfold lift, rret.
    destruct (record_battle_ok st i c pattern pos Hst Hv Hp)
      as [r [Hr [-> Hok]]].
    rewrite (counter_wins pattern c Hp Hc) in Hr. injection Hr as <-.
    do 2 eexists. split; [reflexivity | split; [exact Hok |]].
    simpl. rewrite get0_incr_same. lia.
Qed.

(** X10. Against a fixed pattern the detection system loses or ties at most the
    first 7 battles, whatever the draws: of [num_battles] battles with
    detection at least [num_battles - 7] are wins. *)
Theorem fixed_profile_wins (src : source) (pattern : string)
    (num_battles : Z) (pos : nat) :
  valid_move pattern = true ->
  exists without with_detection j,
    simulate_battles src (Fixed pattern) num_battles pos
    = Ok ((without, with_detection), j) /\
    Dict.sum_values with_detection = Z.max 0 num_battles /\
    num_battles - 7 <= Dict.get0 with_detection "win".
Proof.
  intros Hp. unfold simulate_battles, rbind.
  destruct (battles_from_inv (battle_without src (Fixed pattern)) tally_ok
              (fun st i pos' H =>
                 battle_without_ok src (Fixed pattern) st i i pos' Hp H)
              (Z.to_nat num_battles) 0 start pos start_ok)
    as [w [j1 [-> _]]].
  destruct (battles_from_inv (battle_with src (Fixed pattern))
              (fun i st => tally_ok i st /\ i - 7 <= Dict.get0 (results st) "win")
              (fun st i pos' H => battle_with_fixed src pattern st i pos' Hp H)
              (Z.to_nat num_battles) 0 start j1)
    as [d [j2 [-> [[Hd _] Hwins]]]].
  { split; [exact start_ok |]. unfold start, Dict.get0. simpl. lia. }
  exists (results w), (results d), j2. unfold rret.
  split; [reflexivity |]. split; lia.
Qed.

Lemma fixed_profile_wins_witness :
  exists without with_detection j,
    simulate_battles sample_source (Fixed "rock") 100 0%nat
    = Ok ((without, with_detection), j) /\
    Dict.sum_values with_detection = Z.max 0 100 /\
    100 - 7 <= Dict.get0 with_detection "win".
Proof.
  apply (fixed_profile_wins sample_source "rock" 100 0%nat). reflexivity.
Defined.

(** *** Survival rates *)



Lemma Qdiv_le_compat (a b n : Q) :
  (a <= b)%Q -> (0 < n)%Q -> (a / n <= b / n)%Q.
Proof.
  intros Hab Hn. unfold Qdiv. apply Qmult_le_compat_r; [exact Hab |].
  apply Qinv_le_0_compat. lra.
Qed.

Lemma Qdiv_cancel (a b n : Q) :
  (0 < n)%Q -> (a / n == b / n)%Q -> (a == b)%Q.
Proof.
  intros Hn H.
  assert (Ha : (a == a / n * n)%Q) by (field; lra).
  assert (Hb : (b == b / n * n)%Q) by (field; lra).
  rewrite Ha, Hb, H. reflexivity.
Qed.



End SimulationFacts.

(** ** Periods *)

Module PeriodFacts.
Import Behavior.

Lemma chunks_nil {A : Type} (fuel size : nat) :
  chunks fuel size (@nil A) = [].
Proof. destruct fuel; reflexivity. Qed.

(** The periods cut from a non-empty list: as many as needed to cover it,
    all full except possibly the last, which is not empty. *)
Lemma chunks_shape {A : Type} (size : nat) :
  (0 < size)%nat ->
  forall (fuel : nat) (l : list A),
    (List.length l <= fuel)%nat -> l <> [] ->
    let cs := chunks fuel size l in
    cs <> [] /\
    ((List.length cs - 1) * size < List.length l)%nat /\
    (List.length l <= List.length cs * size)%nat /\
    Forall (fun c => List.length c = size) (removelast cs) /\
    (0 < List.length (last cs []) <= size)%nat.
Proof.
  intros Hsize. induction fuel as [| fuel IH]; intros l Hlen Hne.
  - destruct l; [congruence | simpl in Hlen; lia].
  - destruct l as [| x l]; [congruence |].
    change (chunks (S fuel) size (x :: l))
      with (firstn size (x :: l) :: chunks fuel size (skipn size (x :: l))).
    cbv zeta.
    assert (Hwhole : (0 < List.length (x :: l))%nat) by (simpl; lia).
    remember (x :: l) as whole eqn:Ewhole. clear Ewhole Hne x l.
    destruct (Nat.le_gt_cases (List.length whole) size) as [Hsmall | Hbig].
    + rewrite (skipn_all2 whole) by exact Hsmall.
      rewrite (firstn_all2 whole) by exact Hsmall.
      rewrite chunks_nil.
      change (removelast [whole]) with (@nil (list A)).
      change (last [whole] []) with whole.
      change (List.length [whole]) with 1%nat.
      repeat split; try lia; try discriminate. constructor.
    + assert (Hrest : List.length (skipn size whole)
                      = (List.length whole - size)%nat) by apply length_skipn.
      assert (Hfirst : List.length (firstn size whole) = size)
        by (apply firstn_length_le; lia).
      assert (Hne' : skipn size whole <> []).
      { intros E. rewrite E in Hrest. simpl in Hrest. lia. }
      destruct (IH (skipn size whole)) as [Hcs [Hlo [Hhi [Hfull Hlast]]]];
        cbv zeta in *;
        [lia | exact Hne' |].
      set (cs := chunks fuel size (skipn size whole)) in *.
      destruct cs as [| c cs'] eqn:Ecs; [congruence |].
      repeat split; try discriminate.
      * simpl List.length in *. nia.
      * simpl List.length in *. nia.
      * change (removelast (firstn size whole :: c :: cs'))
          with (firstn size whole :: removelast (c :: cs')).
        constructor; assumption.
      * change (last (firstn size whole :: c :: cs') [])
          with (last (c :: cs') (@nil A)). lia.
      * change (last (firstn size whole :: c :: cs') [])
          with (last (c :: cs') (@nil A)). lia.
Qed.

Lemma len_map {A B : Type} (f : A -> B) (l : list A) : len (map f l) = len l.
Proof. unfold len. rewrite length_map. reflexivity. Qed.

Lemma removelast_map {A B : Type} (f : A -> B) (l : list A) :
  removelast (map f l) = map f (removelast l).
Proof.
  induction l as [| x l IH]; [reflexivity |].
  destruct l as [| y l]; [reflexivity |].
  change (removelast (map f (x :: y :: l)))
    with (f x :: removelast (map f (y :: l))).
  rewrite IH. reflexivity.
Qed.

Lemma last_map {A B : Type} (f : A -> B) (l : list A) (d : A) :
  last (map f l) (f d) = f (last l d).
Proof.
  induction l as [| x l IH]; [reflexivity |].
  destruct l as [| y l]; [reflexivity |].
  change (last (map f (x :: y :: l)) (f d)) with (last (map f (y :: l)) (f d)).
  rewrite IH. reflexivity.
Qed.

End PeriodFacts.

(** ** Adaptation over periods ([analyze_enemy_adaptation.py]) *)

Module AdaptationFacts.
Import Adaptation PeriodFacts.

Lemma period_size_bounds (n : Z) :
  10 <= period_size n /\ n < 6 * period_size n /\
  (n <= 20 -> period_size n = 10) /\ (n <= 49 -> period_size n = 10).
Proof.
  unfold period_size.
  pose proof (Z.div_mod n 5 ltac:(lia)) as Hdiv.
  pose proof (Z.mod_pos_bound n 5 ltac:(lia)) as Hmod.
  repeat split; lia.
Qed.

(** The periods: between one and six, the moves in order, all of the period
    size except the last, which is not empty. *)
Lemma periods_shape (moves : list (Z * string)) :
  10 <= len moves ->
  1 <= len (periods_of moves) /\
  (len (periods_of moves) - 1) * period_size (len moves) < len moves /\
  len moves <= len (periods_of moves) * period_size (len moves) /\
  List.concat (periods_of moves) = map snd moves /\
  Forall (fun p => len p = period_size (len moves))
    (removelast (periods_of moves)) /\
  0 < len (last (periods_of moves) []) <= period_size (len moves).
Proof.
  intros Hlen.
  destruct (period_size_bounds (len moves)) as [Hsize _].
  set (size := Z.to_nat (period_size (len moves))).
  assert (Hsz : Z.of_nat size = period_size (len moves))
    by (unfold size; lia).
  assert (Hpos : (0 < size)%nat) by lia.
  assert (Hne : moves <> []).
  { intros E. rewrite E in Hlen. unfold len in Hlen. simpl in Hlen. lia. }
  destruct (chunks_shape size Hpos (List.length moves) moves (le_n _) Hne)
    as [Hcs [Hlo [Hhi [Hfull Hlast]]]].
  cbv zeta in *.
  unfold periods_of. fold size.
  set (cs := Behavior.chunks (List.length moves) size moves) in *.
  rewrite len_map.
  assert (Hc : (1 <= List.length cs)%nat).
  { destruct cs; [congruence | simpl; lia]. }
  rewrite <- Hsz. unfold len in *.
  split; [lia |]. split; [nia |]. split; [nia |].
  split.
  { rewrite <- concat_map. f_equal.
    apply BehaviorFacts.chunks_concat; [exact Hpos | apply le_n]. }
  split.
  { rewrite removelast_map. apply Forall_map.
    eapply Forall_impl; [| exact Hfull].
    intros c Hcl. cbv beta in *. rewrite length_map. lia. }
  change (@nil string) with (map (@snd Z string) []).
  rewrite last_map, length_map. lia.
Qed.

Lemma periods_count (moves : list (Z * string)) :
  10 <= len moves ->
  1 <= len (periods_of moves) <= 6 /\
  (3 <= len (periods_of moves) -> 21 <= len moves) /\
  (4 <= len (periods_of moves) -> 31 <= len moves).
Proof.
  intros Hlen.
  destruct (periods_shape moves Hlen) as [H1 [Hlo [Hhi _]]].
  destruct (period_size_bounds (len moves)) as [Hsize [Hsix _]].
  repeat split; try nia.
Qed.






Section WithLog2.

Variable log2 : Q -> Q.




End WithLog2.

(** X12. An analysis is returned from ten moves on and only then. It covers
    every move: the periods are the moves in order, between one and six of
    them, every period but the last of the period size
    [max(10, total // 5)] and the last one not empty; the record counts
    them and holds one distribution and one entropy for each. *)
Theorem adaptation_periods (log2 : Q -> Q) (moves : list (Z * string)) :
  (len moves < 10 ->
   analyze_adaptation log2 moves = InsufficientData (len moves)) /\
  (10 <= len moves ->
   exists a,
     analyze_adaptation log2 moves = Analysis a /\
     total_battles a = len moves /\
     periods_analyzed a = len (periods_of moves) /\
     1 <= periods_analyzed a <= 6 /\
     len (distributions a) = periods_analyzed a /\
     len (entropies a) = periods_analyzed a /\
     List.concat (periods_of moves) = map snd moves /\
     Forall (fun p => len p = period_size (len moves))
       (removelast (periods_of moves)) /\
     0 < len (last (periods_of moves) []) <= period_size (len moves)).
Proof.
  unfold analyze_adaptation. split; intros Hlen.
  - apply Z.ltb_lt in Hlen. rewrite Hlen. reflexivity.
  - assert (E : (len moves <? 10) = false) by (apply Z.ltb_ge; lia).
    rewrite E. eexists. split; [reflexivity |].
    cbn [total_battles periods_analyzed distributions entropies].
    rewrite !len_map.
    destruct (periods_shape moves Hlen) as [_ [_ [_ [Hcat [Hfull Hlast]]]]].
    destruct (periods_count moves Hlen) as [Hcount _].
    repeat split; try assumption; try lia.
Qed.

Lemma adaptation_periods_witness :
  exists a,
    analyze_adaptation Behavior.log2_linear twelve_moves = Analysis a /\
    periods_analyzed a = 2.
Proof.
  destruct (proj2 (adaptation_periods Behavior.log2_linear twelve_moves))
    as [a [Ha [_ [Hp _]]]]; [vm_compute; discriminate |].
  exists a. split; [exact Ha |]. rewrite Hp. vm_compute. reflexivity.
Defined.



End AdaptationFacts.

(** ** The reactive score ([deeper_reactive_analysis.py]) *)

Module ReactiveScoreFacts.
Import DeeperReactive ReactiveScore.



Lemma len_app {A : Type} (a b : list A) : len (a ++ b) = len a + len b.
Proof. unfold len. rewrite length_app. lia. Qed.

















End ReactiveScoreFacts.

(** ** Periods and failures of the behaviour analysis
    ([analyze_enemy_behavior.py]) *)

Section AdjacentOutcome.

Context {S : Type} (body : S -> row -> row -> res S) (P : row -> Prop).

Hypothesis body_ok :
  forall st prev cur, P prev -> exists st', body st prev cur = Ok st'.
Hypothesis body_only :
  forall st prev cur st', body st prev cur = Ok st' -> P prev.

(** The loop over consecutive battles returns exactly when its body
    accepts every battle but the last as the previous one; an error is the
    error of the body at one of these. *)
Lemma fold_adjacent_outcome : forall rest prev st,
  ((exists st', fold_adjacent body prev rest st = Ok st') <->
   Forall P (removelast (prev :: rest))) /\
  (forall e, fold_adjacent body prev rest st = Raise e ->
     exists x st0 cur, In x (removelast (prev :: rest)) /\ ~ P x /\
                       body st0 x cur = Raise e).
Proof.
  induction rest as [| cur rest IH]; intros prev st.
  - simpl. split; [split; [constructor | eauto] | discriminate].
  - change (removelast (prev :: cur :: rest))
      with (prev :: removelast (cur :: rest)).
    cbn [fold_adjacent].
    destruct (body st prev cur) as [st1 | e1] eqn:Hb; cbn [bind].
    + destruct (IH cur st1) as [Hok Hraise]. split.
      * split.
        -- intros H. constructor; [exact (body_only _ _ _ _ Hb) |].
           apply Hok. exact H.
        -- intros H. inversion H; subst. apply Hok. assumption.
      * intros e He. destruct (Hraise e He) as [x [st0 [c [Hin Hx]]]].
        exists x, st0, c. split; [right; exact Hin | exact Hx].
    + assert (Hnot : ~ P prev).
      { intros Hp. destruct (body_ok st prev cur Hp) as [st' Hst'].
        congruence. }
      split.
      * split; [intros [st' Hst']; discriminate |].
        intros H. inversion H; subst. contradiction.
      * intros e He. injection He as <-.
        exists prev, st, cur.
        split; [left; reflexivity | split; [exact Hnot | exact Hb]].
Qed.

Lemma for_adjacent_outcome (battles : list row) (st : S) :
  ((exists st', for_adjacent body battles st = Ok st') <->
   Forall P (removelast battles)) /\
  (forall e, for_adjacent body battles st = Raise e ->
     exists x st0 cur, In x (removelast battles) /\ ~ P x /\
                       body st0 x cur = Raise e).
Proof.
  destruct battles as [| prev rest].
  - simpl. split; [split; [constructor | eauto] | discriminate].
  - apply fold_adjacent_outcome.
Qed.

End AdjacentOutcome.

Module BehaviorPeriodFacts.
Import Behavior BehaviorSupport PeriodFacts.

Lemma counter_map_outcome (m : string) :
  (valid_move m = true -> exists c, counter_map m = Ok c) /\
  (valid_move m = false -> counter_map m = Raise (KeyError m)).
Proof.
  split; [apply counter_map_valid |].
  unfold valid_move, counter_map.
  destruct (String.eqb m "rock"); [discriminate |].
  destruct (String.eqb m "paper"); [discriminate |].
  destruct (String.eqb m "scissor"); [discriminate | reflexivity].
Qed.

Lemma reaction_body_outcome (st : Z * Z) (prev cur : row) :
  (valid_move (player_move prev) = true ->
   exists st', reaction_body st prev cur = Ok st') /\
  (forall st', reaction_body st prev cur = Ok st' ->
               valid_move (player_move prev) = true) /\
  (forall e, reaction_body st prev cur = Raise e ->
             e = KeyError (player_move prev) /\
             valid_move (player_move prev) = false).
Proof.
  unfold reaction_body. destruct st as [counter_reactions copy_reactions].
  destruct (counter_map_outcome (player_move prev)) as [Hv Hi].
  destruct (valid_move (player_move prev)) eqn:V.
  - destruct (Hv eq_refl) as [c ->]. cbn [bind].
    split; [eauto |]. split; [reflexivity | discriminate].
  - rewrite (Hi eq_refl). cbn [bind].
    split; [discriminate |]. split; [discriminate |].
    intros e H. injection H as <-. split; reflexivity.
Qed.

Lemma loss_body_outcome (st : Dict.t Z * Z) (prev cur : row) :
  ((result prev = "loss" -> valid_move (enemy_move prev) = true) ->
   exists st', loss_body st prev cur = Ok st') /\
  (forall st', loss_body st prev cur = Ok st' ->
               result prev = "loss" -> valid_move (enemy_move prev) = true) /\
  (forall e, loss_body st prev cur = Raise e ->
             e = KeyError (enemy_move prev) /\ result prev = "loss" /\
             valid_move (enemy_move prev) = false).
Proof.
  unfold loss_body. destruct st as [loss_reactions total_losses].
  destruct (String.eqb (result prev) "loss") eqn:L.
  - apply String.eqb_eq in L.
    destruct (counter_map_outcome (enemy_move prev)) as [Hv Hi].
    destruct (valid_move (enemy_move prev)) eqn:V.
    + destruct (Hv eq_refl) as [c ->]. cbn [bind].
      split; [| split; [reflexivity | ]].
      * intros _. repeat destruct (String.eqb _ _); eauto.
      * intros e H. repeat destruct (String.eqb _ _); discriminate.
    + rewrite (Hi eq_refl). cbn [bind].
      split; [intros H; specialize (H L); discriminate |].
      split; [discriminate |].
      intros e H. injection H as <-. repeat split. exact L.
  - apply String.eqb_neq in L.
    split; [eauto |]. split; [intros ? ? ?; contradiction | discriminate].
Qed.

(** [detect_reaction_patterns] on ten battles or more: it returns, with
    both rates, exactly when every battle but the last is acceptable as a
    previous battle, and fails with the [KeyError] of one that is not. *)
Lemma detect_reaction_patterns_outcome (battles : list row) :
  10 <= len battles ->
  (Forall previous_ok (removelast battles) ->
   exists r cr cp,
     detect_reaction_patterns battles = Ok r /\
     counter_rate r = Some cr /\ copy_rate r = Some cp) /\
  (forall r, detect_reaction_patterns battles = Ok r ->
             Forall previous_ok (removelast battles) /\
             exists cr cp, counter_rate r = Some cr /\ copy_rate r = Some cp) /\
  (forall e, detect_reaction_patterns battles = Raise e ->
             exists x, In x (removelast battles) /\ fails_at x e).
Proof.
  intros Hlen. unfold detect_reaction_patterns.
  assert (E : (len battles <? 10) = false) by (apply Z.ltb_ge; lia).
  rewrite E.
  destruct (for_adjacent_outcome reaction_body
              (fun b => valid_move (player_move b) = true)
              (fun st prev cur => proj1 (reaction_body_outcome st prev cur))
              (fun st prev cur =>
                 proj1 (proj2 (reaction_body_outcome st prev cur)))
              battles (0, 0)) as [Hok1 Hraise1].
  destruct (for_adjacent_outcome loss_body
              (fun b => result b = "loss" ->
                        valid_move (enemy_move b) = true)
              (fun st prev cur => proj1 (loss_body_outcome st prev cur))
              (fun st prev cur =>
                 proj1 (proj2 (loss_body_outcome st prev cur)))
              battles ([], 0)) as [Hok2 Hraise2].
  destruct (for_adjacent reaction_body battles (0, 0))
    as [[counter_reactions copy_reactions] | e1] eqn:H1; cbn [bind].
  - destruct (for_adjacent loss_body battles ([], 0))
      as [[loss_reactions total_losses] | e2] eqn:H2; cbn [bind].
    + assert (Hall : Forall previous_ok (removelast battles)).
      { apply Forall_forall. intros x Hx. split.
        - exact (proj1 (Forall_forall _ _)
                   (proj1 Hok1 (ex_intro _ _ eq_refl)) x Hx).
        - exact (proj1 (Forall_forall _ _)
                   (proj1 Hok2 (ex_intro _ _ eq_refl)) x Hx). }
      split; [intros _; eexists; eexists; eexists;
              split; [reflexivity | split; reflexivity] |].
      split; [| discriminate].
      intros r H. injection H as <-. split; [exact Hall |].
      eexists; eexists; split; reflexivity.
    + destruct (Hraise2 e2 eq_refl) as [x [st0 [cur [Hin [Hnot Hx]]]]].
      apply loss_body_outcome in Hx. destruct Hx as [He [Hl Hv]].
      split.
      { intros Hall. exfalso. apply Hnot.
        exact (proj2 (proj1 (Forall_forall _ _) Hall x Hin)). }
      split; [discriminate |].
      intros e H. injection H as <-. exists x. split; [exact Hin |].
      right. repeat split; assumption.
  - destruct (Hraise1 e1 eq_refl) as [x [st0 [cur [Hin [Hnot Hx]]]]].
    apply reaction_body_outcome in Hx. destruct Hx as [He Hv].
    split.
    { intros Hall. exfalso. apply Hnot.
      exact (proj1 (proj1 (Forall_forall _ _) Hall x Hin)). }
    split; [discriminate |].
    intros e H. injection H as <-. exists x. split; [exact Hin |].
    left. split; assumption.
Qed.

(** X15. When the behaviour analysis fails. Below 15 battles it never does.
    From 15 battles on it returns exactly when, in every battle but the
    last, our move is one of the three moves and so is the enemy's move if
    the enemy lost that battle; otherwise it raises the [KeyError] of such
    a move. The last battle, and the enemy's move in a battle the enemy
    did not lose, may hold any token. *)
Theorem behavior_failures (log2 : Q -> Q) (id : Z) (battles : list row) :
  ((exists a, analyze_enemy_adaptation log2 id battles = Ok a) <->
   (len battles < 15 \/ Forall previous_ok (removelast battles))) /\
  (forall e,
     analyze_enemy_adaptation log2 id battles = Raise e ->
     15 <= len battles /\
     detect_reaction_patterns battles = Raise e /\
     exists x, In x (removelast battles) /\ fails_at x e).
Proof.
  unfold analyze_enemy_adaptation.
  destruct (len battles <? 15) eqn:E.
  - apply Z.ltb_lt in E. split; [| discriminate].
    split; [intros _; left; exact E | eauto].
  - apply Z.ltb_ge in E.
    destruct (detect_reaction_patterns_outcome battles ltac:(lia))
      as [Hok [Honly Hraise]].
    destruct (detect_reaction_patterns battles) as [r | e1] eqn:Hd;
      cbn [bind].
    + destruct (Honly r eq_refl) as [Hall [cr [cp [Hcr Hcp]]]].
      rewrite Hcr, Hcp. cbn [getitem bind].
      split; [| discriminate].
      split; [intros _; right; exact Hall | eauto].
    + split.
      * split; [intros [a Ha]; discriminate |].
        intros [Hshort | Hall]; [lia |].
        destruct (Hok Hall) as [r [_ [_ [Hr _]]]]. discriminate.
      * intros e H. injection H as <-.
        split; [exact E |]. split; [reflexivity |].
        apply Hraise. reflexivity.
Qed.

Lemma behavior_failures_witness :
  exists a, analyze_enemy_adaptation log2_linear 7 odd_tokens = Ok a.
Proof.
  apply (proj1 (behavior_failures log2_linear 7 odd_tokens)).
  right. unfold odd_tokens, previous_ok. cbn [removelast].
  repeat constructor; discriminate.
Defined.








Section WithLog2.

Variable log2 : Q -> Q.



End WithLog2.


End BehaviorPeriodFacts.

(** ** Patterns and evolution ([analyze_enemy_patterns.py]) *)

Module EvolutionFacts.
Import Evolution PeriodFacts.

Lemma over_limit (a n : Z) :
  Qgtb (inject_Z a) (inject_Z n * (4 # 10)) = true <-> 4 * n < 10 * a.
Proof.
  rewrite Qgtb_gt. unfold Qlt, Qmult, inject_Z. cbn [Qnum Qden]. lia.
Qed.

(** A move follows the previous one in at most one of the two cycles. *)
Lemma follows_one (prev cur : string) :
  follows counter_map prev cur = true ->
  follows opposite_map prev cur = false.
Proof.
  unfold follows, counter_map, opposite_map.
  destruct (String.eqb prev "rock");
    [| destruct (String.eqb prev "paper");
       [| destruct (String.eqb prev "scissor"); [| discriminate]]];
    intros H; apply String.eqb_eq in H; subst cur; reflexivity.
Qed.

Lemma count_cycles_bound (rest : list string) : forall prev st,
  let st' := count_cycles prev rest st in
  fst st <= fst st' /\ snd st <= snd st' /\
  fst st' + snd st' <= fst st + snd st + len rest.
Proof.
  induction rest as [| cur rest IH]; intros prev st; cbv zeta.
  - unfold len. simpl. lia.
  - cbn [count_cycles]. rewrite len_cons.
    specialize (IH cur
      (if follows counter_map prev cur then fst st + 1 else fst st,
       if follows opposite_map prev cur then snd st + 1 else snd st)).
    cbv zeta in IH. cbn [fst snd] in IH.
    pose proof (follows_one prev cur) as Hone.
    destruct (follows counter_map prev cur);
      [rewrite (Hone eq_refl) in * |
       destruct (follows opposite_map prev cur)]; lia.
Qed.

Lemma cycle_counts_bound (moves : list string) :
  0 <= fst (cycle_counts moves) /\ 0 <= snd (cycle_counts moves) /\
  fst (cycle_counts moves) + snd (cycle_counts moves) <= Z.max 0 (len moves - 1).
Proof.
  destruct moves as [| prev rest].
  - unfold len. simpl. lia.
  - cbn [cycle_counts]. rewrite len_cons.
    pose proof (count_cycles_bound rest prev (0, 0)) as H.
    cbv zeta in H. cbn [fst snd] in H.
    pose proof (len_nonneg rest). lia.
Qed.

Lemma biases_of_three (r p s : Q) :
  (0 <= r)%Q -> (0 <= p)%Q -> (0 <= s)%Q -> (r + p + s <= 1)%Q ->
  let b := bias_of "rock" r ++ bias_of "paper" p ++ bias_of "scissor" s in
  len b <= 3 /\
  len (filter is_heavy b) <= 2 /\
  (len (filter is_heavy b) = 2 -> exists m q, In (Avoids m q) b) /\
  ((r + p + s == 1)%Q ->
   len (filter is_avoided b) <= 2 /\
   (len (filter is_avoided b) = 2 -> exists m q, In (HeavyBias m q) b)).
Proof.
  intros Hr Hp Hs Hsum. cbv zeta. unfold bias_of, HEAVY, AVOIDED.
  destruct (Qgtb r (45 # 100)) eqn:Rh;
    [apply Qgtb_gt in Rh
    | apply Qgtb_le in Rh; destruct (Qltb r (20 # 100)) eqn:Ra;
      [apply Qltb_lt in Ra | apply Qltb_ge in Ra]];
    (destruct (Qgtb p (45 # 100)) eqn:Ph;
     [apply Qgtb_gt in Ph
     | apply Qgtb_le in Ph; destruct (Qltb p (20 # 100)) eqn:Pa;
       [apply Qltb_lt in Pa | apply Qltb_ge in Pa]]);
    (destruct (Qgtb s (45 # 100)) eqn:Sh;
     [apply Qgtb_gt in Sh
     | apply Qgtb_le in Sh; destruct (Qltb s (20 # 100)) eqn:Sa;
       [apply Qltb_lt in Sa | apply Qltb_ge in Sa]]);
    try (exfalso; lra);
    (split; [vm_compute; discriminate |]);
    (split; [vm_compute; discriminate |]);
    (split;
     [intros H2; try (vm_compute in H2; discriminate);
      eexists; eexists; simpl; eauto 6 |]);
    intros Hone; try (exfalso; lra);
    (split; [vm_compute; discriminate |]);
    intros H2; try (vm_compute in H2; discriminate);
    eexists; eexists; simpl; eauto 6.
Qed.

(** X17. What [detect_patterns] says about biases and cycles. Fewer than three
    moves give nothing. At most two moves are tagged heavy, and when two
    are, the third is tagged avoided; when every token is one of the three
    moves, at most two are tagged avoided, and when two are, the third is
    tagged heavy. Both cycles are reported together only from six moves
    on. *)
Theorem detected_biases_and_cycles (moves : list string) :
  let f := detect_patterns moves in
  (len moves < 3 ->
   f = {| sequences := []; cycles := []; biases := [] |}) /\
  len (biases f) <= 3 /\
  len (filter is_heavy (biases f)) <= 2 /\
  (len (filter is_heavy (biases f)) = 2 ->
   exists m q, In (Avoids m q) (biases f)) /\
  (forallb valid_move moves = true ->
   len (filter is_avoided (biases f)) <= 2 /\
   (len (filter is_avoided (biases f)) = 2 ->
    exists m q, In (HeavyBias m q) (biases f))) /\
  (In ForwardCycle (cycles f) -> In ReverseCycle (cycles f) ->
   6 <= len moves).
Proof.
  cbv zeta. unfold detect_patterns.
  destruct (len moves <? 3) eqn:E.
  - cbn [biases cycles sequences].
    split; [reflexivity |]. split; [vm_compute; discriminate |].
    split; [vm_compute; discriminate |].
    split; [intros H; vm_compute in H; discriminate |].
    split; [| intros []].
    intros _. split; [vm_compute; discriminate |].
    intros H; vm_compute in H; discriminate.
  - apply Z.ltb_ge in E. split; [lia |].
    cbn [biases cycles sequences].
    assert (Hpos : 0 < len moves) by lia.
    assert (Hd : Patterns.get_distribution moves = frequencies moves).
    { destruct moves; [unfold len in Hpos; simpl in Hpos; lia | reflexivity]. }
    rewrite Hd.
    pose proof (DistributionFacts.frequencies_sum moves Hpos) as Hsum.
    pose proof (DistributionFacts.valid_count_bounds moves) as Hvc.
    unfold distribution_sum in Hsum.
    assert (Hle : (rock (frequencies moves) + paper (frequencies moves)
                   + scissor (frequencies moves) <= 1)%Q).
    { rewrite Hsum. apply fdiv_le_1; lia. }
    assert (Hr : (0 <= rock (frequencies moves))%Q)
      by (apply fdiv_nonneg; [apply count_token_nonneg | exact Hpos]).
    assert (Hp : (0 <= paper (frequencies moves))%Q)
      by (apply fdiv_nonneg; [apply count_token_nonneg | exact Hpos]).
    assert (Hs : (0 <= scissor (frequencies moves))%Q)
      by (apply fdiv_nonneg; [apply count_token_nonneg | exact Hpos]).
    destruct (biases_of_three _ _ _ Hr Hp Hs Hle) as [H3 [H2 [Hav Hvalid]]].
    cbv zeta in *.
    split; [exact H3 |]. split; [exact H2 |]. split; [exact Hav |].
    split.
    + intros Hall. apply Hvalid. rewrite Hsum.
      apply DistributionFacts.valid_count_full in Hall. rewrite Hall.
      apply fdiv_self. exact Hpos.
    + pose proof (cycle_counts_bound moves) as [Hf [Hrv Hboth]].
      intros Hfw Hrev.
      destruct (Qgtb (inject_Z (fst (cycle_counts moves))) _) eqn:Ef.
      2:{ simpl in Hfw.
          destruct (Qgtb _ _) in Hfw; simpl in Hfw;
            [destruct Hfw as [Hfw | []]; discriminate | destruct Hfw]. }
      destruct (Qgtb (inject_Z (snd (cycle_counts moves))) _) eqn:Er.
      2:{ simpl in Hrev. destruct Hrev as [Hrev | []]. discriminate. }
      apply over_limit in Ef. apply over_limit in Er. lia.
Qed.

Lemma detected_biases_and_cycles_witness :
  exists m q, In (Avoids m q) (biases (detect_patterns rock_paper_8)).
Proof.
  apply (detected_biases_and_cycles rock_paper_8).
  vm_compute. reflexivity.
Defined.

Lemma insert_desc_In (kv y : string * Z) (l : list (string * Z)) :
  In y (insert_desc kv l) <-> y = kv \/ In y l.
Proof.
  induction l as [| x l IH]; simpl.
  - split; [intros [H | []]; auto | intros [H | []]; auto].
  - destruct (snd kv <? snd x); simpl; [rewrite IH |]; intuition auto.
Qed.

Lemma insert_desc_descending (kv : string * Z) (l : list (string * Z)) :
  descending l -> descending (insert_desc kv l).
Proof.
  induction l as [| x l IH]; intros Hl.
  - simpl. split; [intros y [] | exact I].
  - cbn [insert_desc]. destruct Hl as [Hx Hl].
    destruct (snd kv <? snd x) eqn:E.
    + apply Z.ltb_lt in E. cbn [descending]. split; [| exact (IH Hl)].
      intros y Hy. apply insert_desc_In in Hy.
      destruct Hy as [-> | Hy]; [lia | exact (Hx y Hy)].
    + apply Z.ltb_ge in E. cbn [descending].
      split; [| split; assumption].
      intros y [<- | Hy]; [exact E | specialize (Hx y Hy); lia].
Qed.

Lemma sorted_desc_In (y : string * Z) (l : list (string * Z)) :
  In y (sorted_desc l) <-> In y l.
Proof.
  induction l as [| x l IH]; [reflexivity |].
  cbn [sorted_desc fold_right]. fold (sorted_desc l).
  rewrite insert_desc_In, IH. simpl. intuition auto.
Qed.

Lemma sorted_desc_descending (l : list (string * Z)) :
  descending (sorted_desc l).
Proof.
  induction l as [| x l IH]; [exact I |].
  cbn [sorted_desc fold_right]. fold (sorted_desc l).
  apply insert_desc_descending. exact IH.
Qed.

Lemma descending_split (l1 l2 : list (string * Z)) :
  descending (l1 ++ l2) ->
  forall a b, In a l1 -> In b l2 -> snd b <= snd a.
Proof.
  induction l1 as [| x l1 IH]; intros H a b Ha Hb; [destruct Ha |].
  destruct H as [Hx Hrest]. destruct Ha as [<- | Ha].
  - apply Hx. apply in_or_app. right. exact Hb.
  - exact (IH Hrest a b Ha Hb).
Qed.

Lemma windows_len (seq_len : Z) (moves : list string) :
  len (windows seq_len moves) = Z.max 0 (len moves - seq_len + 1).
Proof.
  unfold windows. rewrite len_map. unfold len at 1. rewrite length_seq. lia.
Qed.

Lemma flat_map_small {A B : Type} (f : A -> list B) (l : list A) :
  (forall x, len (f x) <= 1) -> len (flat_map f l) <= len l.
Proof.
  intros Hf. induction l as [| x l IH]; [unfold len; simpl; lia |].
  cbn [flat_map]. rewrite len_cons. unfold len in *.
  rewrite length_app. specialize (Hf x). lia.
Qed.

(** One round of the search for repeating sequences. *)
Lemma sequences_for_spec (seq_len : Z) (moves : list string)
    (r : sequence_report) :
  1 <= seq_len ->
  In r (sequences_for seq_len moves) ->
  let keys := map (join "-") (windows seq_len moves) in
  seq_len * 2 <= len moves /\
  In (pattern r) keys /\ count r = count_token (pattern r) keys /\
  2 <= count r <= len moves - seq_len + 1 /\
  frequency r = fdiv (count r) (len moves - seq_len + 1) /\
  (frequency r <= 1)%Q /\
  len (sequences_for seq_len moves) <= 3 /\
  (forall k,
     count r < count_token k keys ->
     exists r', In r' (sequences_for seq_len moves) /\
                pattern r' = k /\ count r' = count_token k keys).
Proof.
  intros Hseq. cbv zeta. unfold sequences_for.
  destruct (seq_len * 2 <=? len moves) eqn:E; [| intros []].
  apply Z.leb_le in E. intros Hin.
  set (keys := map (join "-") (windows seq_len moves)).
  unfold sequence_counts. fold keys.
  unfold sequence_counts in Hin. fold keys in Hin.
  set (sorted := sorted_desc (fold_left Dict.incr keys [])) in *.
  apply in_flat_map in Hin. destruct Hin as [[k c] [Htop Hr]].
  cbn [fst snd] in Hr.
  destruct (2 <=? c) eqn:E2; [| destruct Hr].
  apply Z.leb_le in E2. destruct Hr as [<- | []].
  cbn [pattern count frequency].
  assert (Hitem : In (k, c) (fold_left Dict.incr keys [])).
  { apply sorted_desc_In. fold sorted.
    rewrite <- (firstn_skipn 3 sorted). apply in_or_app. left. exact Htop. }
  apply tally_In in Hitem. destruct Hitem as [Hk Hc].
  assert (Hbound : c <= len moves - seq_len + 1).
  { rewrite Hc. pose proof (count_token_le_len k keys) as Hle.
    unfold keys in Hle at 2. rewrite len_map, windows_len in Hle. lia. }
  split; [exact E |]. split; [exact Hk |]. split; [exact Hc |].
  split; [lia |]. split; [reflexivity |].
  split; [apply fdiv_le_1; lia |].
  split.
  { eapply Z.le_trans.
    - apply flat_map_small. intros [k' c']. cbn [fst snd].
      destruct (2 <=? c'); unfold len; simpl; lia.
    - unfold len. pose proof (firstn_le_length 3 sorted). lia. }
  intros k' Hmore.
  assert (Hitem' : In (k', count_token k' keys) (fold_left Dict.incr keys [])).
  { apply tally_In. split; [| reflexivity].
    apply count_token_In. pose proof (count_token_nonneg k keys). lia. }
  apply sorted_desc_In in Hitem'. fold sorted in Hitem'.
  rewrite <- (firstn_skipn 3 sorted) in Hitem'.
  apply in_app_or in Hitem'. destruct Hitem' as [Hfirst | Hrest].
  - exists {| pattern := k'; count := count_token k' keys;
              frequency := fdiv (count_token k' keys)
                             (len moves - seq_len + 1) |}.
    split; [| split; reflexivity].
    apply in_flat_map. exists (k', count_token k' keys).
    split; [exact Hfirst |]. cbn [fst snd].
    assert (E2' : (2 <=? count_token k' keys) = true)
      by (apply Z.leb_le; lia).
    rewrite E2'. left. reflexivity.
  - exfalso.
    pose proof (sorted_desc_descending (fold_left Dict.incr keys [])) as Hd.
    fold sorted in Hd. rewrite <- (firstn_skipn 3 sorted) in Hd.
    pose proof (descending_split _ _ Hd _ _ Htop Hrest) as Hle.
    cbn [snd] in Hle. lia.
Qed.

(** X18. The sequences [detect_patterns] reports. Each comes from one of the
    lengths 2, 3 and 4, tried only on at least twice as many moves; it is
    the text of a window of that length, with the number of windows of
    this text as its count, at least 2, and this number over the number of
    windows as its frequency. At most three are reported for a length, and
    no sequence that occurs more often than a reported one is left out. *)
Theorem detected_sequences (moves : list string) (r : sequence_report) :
  In r (sequences (detect_patterns moves)) ->
  len (sequences (detect_patterns moves)) <= 9 /\
  exists seq_len,
    (seq_len = 2 \/ seq_len = 3 \/ seq_len = 4) /\
    seq_len * 2 <= len moves /\
    In r (sequences_for seq_len moves) /\
    let keys := map (join "-") (windows seq_len moves) in
    In (pattern r) keys /\ count r = count_token (pattern r) keys /\
    2 <= count r <= len moves - seq_len + 1 /\
    frequency r = fdiv (count r) (len moves - seq_len + 1) /\
    (frequency r <= 1)%Q /\
    len (sequences_for seq_len moves) <= 3 /\
    (forall k,
       count r < count_token k keys ->
       exists r', In r' (sequences (detect_patterns moves)) /\
                  In r' (sequences_for seq_len moves) /\
                  pattern r' = k /\ count r' = count_token k keys).
Proof.
  unfold detect_patterns.
  destruct (len moves <? 3) eqn:E; [intros [] |].
  cbn [sequences]. intros Hin.
  assert (Hsmall : forall n, 1 <= n -> len (sequences_for n moves) <= 3).
  { intros n Hn. destruct (sequences_for n moves) as [| r0 l] eqn:En;
      [unfold len; simpl; lia |].
    rewrite <- En.
    apply (sequences_for_spec n moves r0 Hn). rewrite En. left. reflexivity. }
  split.
  { rewrite !ReactiveScoreFacts.len_app.
    pose proof (Hsmall 2 ltac:(lia)). pose proof (Hsmall 3 ltac:(lia)).
    pose proof (Hsmall 4 ltac:(lia)). lia. }
  assert (Hround : forall n, 1 <= n -> In r (sequences_for n moves) ->
            (forall r', In r' (sequences_for n moves) ->
                        In r' (sequences_for 2 moves ++ sequences_for 3 moves
                               ++ sequences_for 4 moves)) ->
            (n = 2 \/ n = 3 \/ n = 4) ->
            exists seq_len,
              (seq_len = 2 \/ seq_len = 3 \/ seq_len = 4) /\
              seq_len * 2 <= len moves /\
              In r (sequences_for seq_len moves) /\
              let keys := map (join "-") (windows seq_len moves) in
              In (pattern r) keys /\ count r = count_token (pattern r) keys /\
              2 <= count r <= len moves - seq_len + 1 /\
              frequency r = fdiv (count r) (len moves - seq_len + 1) /\
              (frequency r <= 1)%Q /\
              len (sequences_for seq_len moves) <= 3 /\
              (forall k,
                 count r < count_token k keys ->
                 exists r',
                   In r' (sequences_for 2 moves ++ sequences_for 3 moves
                          ++ sequences_for 4 moves) /\
                   In r' (sequences_for seq_len moves) /\
                   pattern r' = k /\ count r' = count_token k keys)).
  { intros n Hn Hr Hsub Hcase. exists n.
    destruct (sequences_for_spec n moves r Hn Hr)
      as [H1 [H2 [H3 [H4 [H5 [H6 [H7 H8]]]]]]].
    cbv zeta in *.
    repeat (split; [assumption |]).
    intros k Hk. destruct (H8 k Hk) as [r' [Hr' [Hp Hc]]].
    exists r'. repeat split; try assumption. apply Hsub. exact Hr'. }
  apply in_app_or in Hin. destruct Hin as [Hin | Hin].
  - apply (Hround 2); [lia | exact Hin | | auto].
    intros r' Hr'. apply in_or_app. left. exact Hr'.
  - apply in_app_or in Hin. destruct Hin as [Hin | Hin].
    + apply (Hround 3); [lia | exact Hin | | auto].
      intros r' Hr'. apply in_or_app. right. apply in_or_app. left. exact Hr'.
    + apply (Hround 4); [lia | exact Hin | | auto].
      intros r' Hr'. apply in_or_app. right. apply in_or_app. right. exact Hr'.
Qed.

Lemma detected_sequences_witness :
  len (sequences (detect_patterns rock_paper_8)) <= 9.
Proof.
  apply (detected_sequences rock_paper_8
           {| pattern := "rock-paper"; count := 4; frequency := 4 # 7 |}).
  vm_compute. left. reflexivity.
Defined.

Lemma slice_from_0 {A : Type} (b : Z) (l : list A) :
  slice 0 b l = firstn (Z.to_nat b) l.
Proof. unfold slice. rewrite Z.sub_0_r. reflexivity. Qed.

(** The three parts into which the evolution analysis cuts the moves. *)
Lemma thirds (moves : list move_row) :
  (early_moves moves ++ middle_moves moves ++ late_moves moves
   = map move_of moves) /\
  len (early_moves moves) = len moves / 3 /\
  len (middle_moves moves) = len moves / 3 /\
  len (late_moves moves) = len moves / 3 + len moves mod 3.
Proof.
  unfold early_moves, middle_moves, late_moves, third_of.
  rewrite slice_from_0. unfold slice.
  set (t := len moves / 3).
  pose proof (Z.div_mod (len moves) 3 ltac:(lia)) as Hdiv.
  pose proof (Z.mod_pos_bound (len moves) 3 ltac:(lia)) as Hmod.
  pose proof (len_nonneg moves) as Hn.
  fold t in Hdiv.
  assert (Ht : 0 <= t) by lia.
  replace (t * 2 - t) with t by lia.
  replace (Z.to_nat (t * 2)) with (Z.to_nat t + Z.to_nat t)%nat by lia.
  rewrite <- skipn_skipn.
  split.
  - rewrite <- !map_app. f_equal.
    rewrite (firstn_skipn (Z.to_nat t) (skipn (Z.to_nat t) moves)).
    apply firstn_skipn.
  - rewrite !len_map. unfold len in *.
    rewrite !length_firstn, !length_skipn. lia.
Qed.







Section WithLog2.

Variable log2 : Q -> Q.

(** X19. The evolution analysis starts at ten moves. From there it cuts the
    moves, in order, into an early and a middle part of a third of the
    moves each, rounded down, and a late part with the rest; each part has
    at least three moves, so that its distribution is made of the
    frequencies of its own moves and never the default one. *)
Theorem evolution_thirds (id : Z) (moves : list move_row) :
  (len moves < 10 ->
   analyze_enemy_evolution log2 id moves = InsufficientData id (len moves)) /\
  (10 <= len moves ->
   exists r,
     analyze_enemy_evolution log2 id moves = Report r /\
     total_moves r = len moves /\
     (early_moves moves ++ middle_moves moves ++ late_moves moves
      = map move_of moves) /\
     3 <= len moves / 3 /\
     len (early_moves moves) = len moves / 3 /\
     len (middle_moves moves) = len moves / 3 /\
     len (late_moves moves) = len moves / 3 + len moves mod 3 /\
     early r = frequencies (early_moves moves) /\
     middle r = frequencies (middle_moves moves) /\
     late r = frequencies (late_moves moves)).
Proof.
  unfold analyze_enemy_evolution. split; intros Hlen.
  - apply Z.ltb_lt in Hlen. rewrite Hlen. reflexivity.
  - assert (E : (len moves <? 10) = false) by (apply Z.ltb_ge; lia).
    rewrite E. eexists. split; [reflexivity |].
    cbn [total_moves early middle late].
    destruct (thirds moves) as [Hcat [He [Hm Hl]]].
    pose proof (Z.div_mod (len moves) 3 ltac:(lia)) as Hdiv.
    pose proof (Z.mod_pos_bound (len moves) 3 ltac:(lia)) as Hmod.
    assert (Hthird : 3 <= len moves / 3) by lia.
    assert (Hdist : forall l : list string,
               3 <= len l -> Patterns.get_distribution l = frequencies l).
    { intros [| x l] H; [unfold len in H; simpl in H; lia | reflexivity]. }
    split; [reflexivity |]. split; [exact Hcat |]. split; [exact Hthird |].
    split; [exact He |]. split; [exact Hm |]. split; [exact Hl |].
    split; [apply Hdist; lia |]. split; apply Hdist; lia.
Qed.


End WithLog2.

Lemma evolution_thirds_witness :
  exists r,
    analyze_enemy_evolution Behavior.log2_linear 7 eleven_moves = Report r /\
    total_moves r = 11.
Proof.
  destruct (proj2 (evolution_thirds Behavior.log2_linear 7 eleven_moves))
    as [r [Hr [Ht _]]]; [vm_compute; discriminate |].
  exists r. split; [exact Hr | exact Ht].
Defined.


End EvolutionFacts.

(** ** Reports of the Markov detectors on any tokens
    ([test_markov_orders.py]) *)

Module MarkovReportFacts.
Import Markov PeriodFacts.

Lemma pairs_from_len (rest : list string) : forall prev,
  len (pairs_from prev rest) = len rest.
Proof.
  induction rest as [| cur rest IH]; intros prev; [reflexivity |].
  cbn [pairs_from]. rewrite !len_cons, IH. reflexivity.
Qed.

Lemma pairs_of_len (battles : list string) :
  len (pairs_of battles) = Z.max 0 (len battles - 1).
Proof.
  destruct battles as [| prev rest]; [reflexivity |].
  cbn [pairs_of]. rewrite pairs_from_len, len_cons.
  pose proof (len_nonneg rest). lia.
Qed.

Lemma over_share (c t : Z) (a b : positive) :
  0 < t ->
  (Qgtb (fdiv c t) (Z.pos a # b) = true <-> Z.pos a * t < Z.pos b * c).
Proof.
  intros Ht. rewrite Qgtb_gt. unfold fdiv.
  assert (Hpos : (0 < inject_Z t)%Q).
  { change 0%Q with (inject_Z 0). rewrite <- Zlt_Qlt. exact Ht. }
  rewrite <- (Qmult_lt_r _ _ (inject_Z t) Hpos).
  assert (E : (inject_Z c / inject_Z t * inject_Z t == inject_Z c)%Q).
  { field. intros H. rewrite H in Hpos. revert Hpos. apply Qlt_irrefl. }
  rewrite E. unfold Qlt, Qmult, inject_Z. cbn [Qnum Qden]. lia.
Qed.

Lemma count_token_filter (test : string -> bool) (k : string)
    (keys : list string) :
  test k = true -> count_token k keys <= len (filter test keys).
Proof.
  intros Hk. induction keys as [| k' keys IH].
  - unfold count_token, len. simpl. lia.
  - rewrite count_token_cons. cbn [filter].
    destruct (String.eqb k' k) eqn:E.
    + apply String.eqb_eq in E. subst k'. rewrite Hk, len_cons. lia.
    + destruct (test k'); [rewrite len_cons |]; lia.
Qed.

Lemma prefix_refl_head (s : string) : String.prefix (split_head s) s = true.
Proof.
  induction s as [| c s IH]; [reflexivity |].
  cbn [split_head].
  destruct (String.prefix "->" (String c s)); [reflexivity |].
  cbn [String.prefix]. destruct (Ascii.ascii_dec c c); [exact IH | congruence].
Qed.

(** X21. What the two detectors report, whatever the tokens. The order-1
    detector never fails: its [max] is taken over at least nine
    transitions. A reported transition is one of the sequence, counted as
    often as it occurs, at least four times. An accuracy reported by the
    order-3 detector is above 0.6 and never above 1, although contexts are
    matched by prefix. *)
Theorem markov_reports_sane (battles : list string) :
  (exists o,
     detect_markov_1 battles = Ok o /\
     forall rep,
       o = Some rep ->
       10 <= len battles /\
       total_transitions rep = len battles - 1 /\
       In (transition rep) (map pair_key (pairs_of battles)) /\
       occurrences rep =
         count_token (transition rep) (map pair_key (pairs_of battles)) /\
       4 <= occurrences rep <= total_transitions rep) /\
  (forall best r,
     detect_markov_3 battles = Some (best, r) ->
     30 <= len battles /\ (6 # 10 < r)%Q /\ (r <= 1)%Q /\
     exists k, best = Some k /\ In k (map gram_key (grams_of battles))).
Proof.
  split.
  - destruct (Z_lt_le_dec (len battles) 10) as [Hshort | Hlong].
    + exists None. split; [| discriminate].
      unfold detect_markov_1. apply Z.ltb_lt in Hshort. rewrite Hshort.
      reflexivity.
    + destruct (MarkovFacts.detect_markov_1_spec battles Hlong)
        as [key [count [Hin [_ Hd]]]].
      rewrite MarkovFacts.transitions_tally in Hin.
      apply tally_In in Hin. destruct Hin as [Hkey Hcount].
      rewrite Hd. unfold MARKOV1_THRESHOLD.
      destruct (Qgtb (fdiv count (len battles - 1)) (4 # 10)) eqn:G.
      * eexists. split; [reflexivity |].
        intros rep H. injection H as <-.
        cbn [transition occurrences total_transitions].
        apply over_share in G; [| lia].
        pose proof (count_token_le_len key
                      (map pair_key (pairs_of battles))) as Hle.
        rewrite len_map, pairs_of_len in Hle.
        repeat split; try assumption; lia.
      * exists None. split; [reflexivity | discriminate].
  - intros best r H.
    destruct (MarkovFacts.detect_markov_3_inv battles best r H)
      as [Hlen [Hr [[k c] [Hbest [[Hin Hsup] [Hratio _]]]]]].
    split; [exact Hlen |]. split; [exact Hr |].
    rewrite MarkovFacts.patterns_tally in Hin.
    pose proof Hin as Hitem.
    apply tally_In in Hitem. destruct Hitem as [Hk Hc].
    split; [| exists k; split; assumption].
    rewrite Hratio. unfold ratio. cbn [snd].
    unfold MIN_CONTEXT in Hsup.
    apply fdiv_le_1; [| lia].
    unfold support, context_total in *. cbn [fst] in *.
    rewrite MarkovFacts.patterns_tally.
    rewrite sum_where_tally. change (Dict.sum_where _ []) with 0.
    rewrite Hc.
    pose proof (count_token_filter (String.prefix (split_head k)) k
                  (map gram_key (grams_of battles)) (prefix_refl_head k)).
    lia.
Qed.

Lemma markov_reports_sane_witness :
  exists o, detect_markov_1 rock_paper_13 = Ok o /\
    forall rep, o = Some rep -> 4 <= occurrences rep <= total_transitions rep.
Proof.
  destruct (proj1 (markov_reports_sane rock_paper_13)) as [o [Ho Hrep]].
  exists o. split; [exact Ho |].
  intros rep Hsome. apply (Hrep rep Hsome).
Defined.

End MarkovReportFacts.
